(** * GreenStream: the HLS upload pipeline, the input validator and the
      on-chain video record

    A shallow embedding of
      - [cli/src/ffmpeg.ts]   ([validateInputFile], [ensureOutputDir]),
      - [cli/index.ts]        ([uploadToWalrus], [getStreamDirectories],
                               [collectSegmentFiles], [updatePlaylistContent],
                               [processAndUploadPlaylists],
                               [processAndUploadMasterPlaylist],
                               [uploadHLSAssetsToWalrus]),
      - [sui-video/sources/video.move] ([Video], [save_video]),
    together with the parts of the Node.js run time these functions call
    ([path.basename], [path.dirname], [path.extname], [path.join],
    [String.prototype.replace] with a multi-line global regular expression,
    the synchronous [fs] calls, [fs.mkdirSync] with [recursive]).

    Conventions.  A JavaScript string is a [string]: a sequence of code
    units below 256.  Paths are POSIX paths.  A JavaScript object used as
    a dictionary is an association list in insertion order, which is the
    order [Object.entries] enumerates keys that are not array indices;
    every key the program enumerates contains a [.] or a [/], so none is
    an array index. *)

From Stdlib Require Import String Ascii List ZArith Lia Bool Arith.
Import ListNotations.
Local Open Scope list_scope.
Local Open Scope string_scope.

Set Implicit Arguments.

(* ================================================================== *)
(** * JavaScript strings *)
(* ================================================================== *)

Module JsString.

(** [s.startsWith(p)] *)
Definition startsWith (s p : string) : bool := prefix p s.

(** [s.endsWith(p)]: [p] is [s] or a suffix of the tail of [s]. *)
Fixpoint endsWith (s p : string) : bool :=
  (s =? p) ||
  match s with
  | EmptyString => false
  | String _ s' => endsWith s' p
  end.

(** One code unit of [s.toLowerCase()]: the letters [A]..[Z] and the
    Latin-1 capitals [192]..[222] (without the multiplication sign
    [215]) move up by 32. *)
Definition lower_char (c : ascii) : ascii :=
  let n := nat_of_ascii c in
  if ((65 <=? n)%nat && (n <=? 90)%nat) ||
     ((192 <=? n)%nat && (n <=? 222)%nat && negb (n =? 215)%nat)
  then ascii_of_nat (n + 32) else c.

Fixpoint toLowerCase (s : string) : string :=
  match s with
  | EmptyString => EmptyString
  | String c s' => String (lower_char c) (toLowerCase s')
  end.

(** The line terminators of ECMAScript below 256: LF and CR. *)
Definition is_line_terminator (c : ascii) : bool :=
  (c =? "010")%char || (c =? "013")%char.

(** [c] occurs in [s]. *)
Fixpoint mem (c : ascii) (s : string) : bool :=
  match s with
  | EmptyString => false
  | String x s' => (x =? c)%char || mem c s'
  end.

(** Some character of [s] satisfies [f]. *)
Fixpoint any (f : ascii -> bool) (s : string) : bool :=
  match s with
  | EmptyString => false
  | String x s' => f x || any f s'
  end.

(** A value that may be [undefined], as a condition: [undefined] and
    the empty string are falsy, every other string is truthy. *)
Definition truthy (v : option string) : bool :=
  match v with
  | Some s => negb (s =? "")
  | None => false
  end.

(** [a || b] on such values. *)
Definition js_or (a b : option string) : option string :=
  if truthy a then a else b.

End JsString.

(* ================================================================== *)
(** * Node's [path] module (POSIX) *)
(* ================================================================== *)

Module Path.

Definition slash : ascii := "/"%char.
Definition dot : ascii := "."%char.

(** The characters of [s] from index [a] (inclusive) to [b]
    (exclusive): [s.slice(a, b)] for [0 <= a]. *)
Definition slice (s : string) (a b : nat) : string := substring a (b - a) s.

(** [path.basename(p)] follows the loop of Node's implementation: scan
    from the end, skip trailing slashes, stop at the first slash found
    after a character that is not a slash.  The state is
    [(start, end, matchedSlash)], with [None] for the initial [end = -1]. *)
Fixpoint basename_loop (p : string) (i : nat)
         (start : nat) (end_ : option nat) (matchedSlash : bool)
  : nat * option nat :=
  match i with
  | O => (start, end_)
  | S j =>
      match get j p with
      | None => (start, end_)
      | Some code =>
          if (code =? slash)%char then
            if negb matchedSlash then (j + 1, end_)
            else basename_loop p j start end_ matchedSlash
          else
            match end_ with
            | None => basename_loop p j start (Some (j + 1)) false
            | Some _ => basename_loop p j start end_ matchedSlash
            end
      end
  end.

Definition basename (p : string) : string :=
  match basename_loop p (String.length p) 0 None true with
  | (_, None) => EmptyString
  | (start, Some e) => slice p start e
  end.

(** [path.dirname(p)]: the loop runs from the last index down to 1 and
    remembers the first slash that follows (from the right) a character
    that is not a slash. *)
Fixpoint dirname_loop (p : string) (i : nat) (matchedSlash : bool)
  : option nat :=
  match i with
  | O => None
  | S j =>
      match j with
      | O => None
      | S _ =>
          match get j p with
          | None => None
          | Some code =>
              if (code =? slash)%char then
                if negb matchedSlash then Some j
                else dirname_loop p j matchedSlash
              else dirname_loop p j false
          end
      end
  end.

Definition hasRoot (p : string) : bool :=
  match p with
  | String c _ => (c =? slash)%char
  | EmptyString => false
  end.

Definition dirname (p : string) : string :=
  match p with
  | EmptyString => "."
  | _ =>
      match dirname_loop p (String.length p) true with
      | None => if hasRoot p then "/" else "."
      | Some e => if hasRoot p && (e =? 1)%nat then "//" else slice p 0 e
      end
  end.

(** [path.extname(p)], the state of Node's loop.  [-1] is the initial
    value of [startDot] and [end]. *)
Record ext_state : Type := mkExt
  { startDot : Z;
    startPart : Z;
    ext_end : Z;
    ext_matchedSlash : bool;
    preDotState : Z }.

Fixpoint extname_loop (p : string) (i : nat) (st : ext_state) : ext_state :=
  match i with
  | O => st
  | S j =>
      match get j p with
      | None => st
      | Some code =>
          if (code =? slash)%char then
            if negb (ext_matchedSlash st) then
              mkExt (startDot st) (Z.of_nat j + 1) (ext_end st)
                    (ext_matchedSlash st) (preDotState st)
            else extname_loop p j st
          else
            let st1 :=
              if (ext_end st =? -1)%Z then
                mkExt (startDot st) (startPart st) (Z.of_nat j + 1)
                      false (preDotState st)
              else st in
            let st2 :=
              if (code =? dot)%char then
                if (startDot st1 =? -1)%Z then
                  mkExt (Z.of_nat j) (startPart st1) (ext_end st1)
                        (ext_matchedSlash st1) (preDotState st1)
                else if negb (preDotState st1 =? 1)%Z then
                  mkExt (startDot st1) (startPart st1) (ext_end st1)
                        (ext_matchedSlash st1) 1
                else st1
              else if negb (startDot st1 =? -1)%Z then
                mkExt (startDot st1) (startPart st1) (ext_end st1)
                      (ext_matchedSlash st1) (-1)
              else st1 in
            extname_loop p j st2
      end
  end.

Definition extname (p : string) : string :=
  let st := extname_loop p (String.length p) (mkExt (-1) 0 (-1) true 0) in
  if (startDot st =? -1)%Z || (ext_end st =? -1)%Z ||
     (preDotState st =? 0)%Z ||
     ((preDotState st =? 1)%Z &&
      (startDot st =? ext_end st - 1)%Z &&
      (startDot st =? startPart st + 1)%Z)
  then EmptyString
  else slice p (Z.to_nat (startDot st)) (Z.to_nat (ext_end st)).

(** [path.join(a, b)] for a normalised directory path [a] and a path
    [b] that is relative, normalised and without [.] or [..] segments:
    the two joined by one slash.  Every call of the program has this
    shape: [b] is a name returned by [readdirSync], a fixed file name,
    or the join of two such. *)
Definition join (a b : string) : string :=
  match a with
  | EmptyString => b
  | _ => if JsString.endsWith a "/" then a ++ b else a ++ "/" ++ b
  end.

(** The segments of a path: the maximal runs of characters other than
    the slash.  [cur] is the segment being read. *)
Fixpoint segments_from (cur : string) (p : string) : list string :=
  match p with
  | EmptyString =>
      match cur with EmptyString => [] | _ => [cur] end
  | String c p' =>
      if (c =? slash)%char then
        match cur with
        | EmptyString => segments_from EmptyString p'
        | _ => cur :: segments_from EmptyString p'
        end
      else segments_from (cur ++ String c EmptyString) p'
  end.

Definition segments (p : string) : list string :=
  segments_from EmptyString p.

End Path.

(* ================================================================== *)
(** * Regular expressions: [new RegExp("^" + src + "$", "gm")] and
      [String.prototype.replace] *)
(* ================================================================== *)

Module RegExp.

Import JsString.

(** The program builds its patterns by pasting a file or directory name
    between [^] and [$].  The model covers the names in which every
    character is either an ordinary character, which matches itself, or
    the dot, which matches any character but a line terminator.  The
    other syntax characters of ECMAScript patterns are outside the
    fragment: [compile] answers [None] for a name that has one. *)
Inductive atom : Type :=
| Lit (c : ascii)
| AnyChar.

Definition syntax_character (c : ascii) : bool :=
  mem c "\^$*+?()[]{}|".

Fixpoint compile (src : string) : option (list atom) :=
  match src with
  | EmptyString => Some []
  | String c src' =>
      if syntax_character c then None
      else
        match compile src' with
        | None => None
        | Some p =>
            Some ((if (c =? ".")%char then AnyChar else Lit c) :: p)
        end
  end.

(** A pattern text in which every character stands for itself, as
    [playlist\.m3u8] once the escaped dot is read. *)
Fixpoint literal (s : string) : list atom :=
  match s with
  | EmptyString => []
  | String c s' => Lit c :: literal s'
  end.

Definition atom_matches (a : atom) (c : ascii) : bool :=
  match a with
  | Lit x => (x =? c)%char
  | AnyChar => negb (is_line_terminator c)
  end.

(** Match the atoms at the head of [s]; the answer is what follows the
    match. *)
Fixpoint match_here (p : list atom) (s : string) : option string :=
  match p with
  | [] => Some s
  | a :: p' =>
      match s with
      | EmptyString => None
      | String c s' => if atom_matches a c then match_here p' s' else None
      end
  end.

(** The assertion [$] with the [m] flag: at the end of the input or
    before a line terminator. *)
Definition at_line_end (s : string) : bool :=
  match s with
  | EmptyString => true
  | String c _ => is_line_terminator c
  end.

(** [^p$] matches at the current position.  [bol] is the assertion [^]
    with the [m] flag: the position is the start of the input or follows
    a line terminator. *)
Definition match_at (p : list atom) (bol : bool) (s : string)
  : option string :=
  if bol then
    match match_here p s with
    | Some rest => if at_line_end rest then Some rest else None
    | None => None
    end
  else None.

(** The replacement text of one match (GetSubstitution, for a pattern
    without capture groups): [$$] is a dollar, [$&] the matched text,
    [$`] the input before the match, [$'] the input after it; any other
    dollar stands for itself. *)
Fixpoint expand (repl matched before after : string) : string :=
  match repl with
  | EmptyString => EmptyString
  | String "$" (String "$" r) => String "$" (expand r matched before after)
  | String "$" (String "&" r) => matched ++ expand r matched before after
  | String "$" (String "`" r) => before ++ expand r matched before after
  | String "$" (String "'" r) => after ++ expand r matched before after
  | String c r => String c (expand r matched before after)
  end.

(** [input.replace(/^p$/gm, repl)], read from left to right.  [before]
    is the input already passed, [bol] the assertion [^] at the current
    position, [skip] the number of characters still to pass of the match
    found last.  The matched text is the first [length p] characters at
    the position: every atom takes one character.  After an empty match
    the search resumes one character further. *)
Fixpoint replace_from (p : list atom) (repl : string)
         (before : string) (bol : bool) (skip : nat) (s : string)
  : string :=
  match skip with
  | S k =>
      match s with
      | EmptyString => EmptyString
      | String c s' =>
          replace_from p repl (before ++ String c EmptyString)
                       (is_line_terminator c) k s'
      end
  | O =>
      match match_at p bol s with
      | Some rest =>
          expand repl (substring 0 (List.length p) s) before rest ++
          match s with
          | EmptyString => EmptyString
          | String c s' =>
              match p with
              | [] =>
                  String c
                    (replace_from p repl (before ++ String c EmptyString)
                                  (is_line_terminator c) O s')
              | _ :: p' =>
                  replace_from p repl (before ++ String c EmptyString)
                               (is_line_terminator c) (List.length p') s'
              end
          end
      | None =>
          match s with
          | EmptyString => EmptyString
          | String c s' =>
              String c
                (replace_from p repl (before ++ String c EmptyString)
                              (is_line_terminator c) O s')
          end
      end
  end.

Definition replace (input : string) (p : list atom) (repl : string)
  : string :=
  replace_from p repl EmptyString true O input.

End RegExp.

(* ================================================================== *)
(** * Dictionaries in insertion order *)
(* ================================================================== *)

Module Assoc.

Section Assoc.
Variable V : Type.

(** [m[k]] for an own key. *)
Fixpoint get (k : string) (m : list (string * V)) : option V :=
  match m with
  | [] => None
  | (k', v) :: m' => if k' =? k then Some v else get k m'
  end.

(** [m[k] = v]: an existing key keeps its place, a new key goes last. *)
Fixpoint set (k : string) (v : V) (m : list (string * V))
  : list (string * V) :=
  match m with
  | [] => [(k, v)]
  | (k', v') :: m' =>
      if k' =? k then (k, v) :: m' else (k', v') :: set k v m'
  end.

(** [delete m[k]] *)
Definition remove (k : string) (m : list (string * V))
  : list (string * V) :=
  filter (fun e => negb (fst e =? k)) m.

(** [Object.keys(m)] *)
Definition keys (m : list (string * V)) : list string := map fst m.
End Assoc.

End Assoc.

(* ================================================================== *)
(** * Outcomes: a value or a thrown error *)
(* ================================================================== *)

(** The error kinds of the pipeline.  [FsError] is an exception of a
    synchronous [fs] call (ENOENT, EISDIR, ENOTDIR).  [OutsideFragment]
    marks a run that builds a regular expression from a name the model of
    [RegExp.compile] does not cover. *)
Inductive error : Type :=
| NotFound
| UnsupportedFormat
| UploadFailed
| FsError
| OutsideFragment.

Inductive result (A : Type) : Type :=
| Ok (a : A)
| Err (e : error).

Arguments Ok {A} a.
Arguments Err {A} e.

Definition bind {A B : Type} (r : result A) (k : A -> result B) : result B :=
  match r with
  | Ok a => k a
  | Err e => Err e
  end.

Notation "x <- c ;; k" := (bind c (fun x => k))
  (at level 61, c at next level, right associativity).
Notation "' p <- c ;; k" := (bind c (fun p => k))
  (at level 61, p pattern, c at next level, right associativity).

Definition of_option {A : Type} (e : error) (o : option A) : result A :=
  match o with
  | Some a => Ok a
  | None => Err e
  end.

(* ================================================================== *)
(** * The file tree under the assets directory *)
(* ================================================================== *)

Module Fs.

(** A directory lists its entries by name, in the order [readdirSync]
    returns them. *)
#[warnings="-register-all"]
Inductive node : Type :=
| File (content : string)
| Dir (entries : list (string * node)).

(** The state of the file system is the content of the assets
    directory; a path is relative to it. *)
Definition directory : Type := list (string * node).

Definition isDirectory (n : node) : bool :=
  match n with
  | Dir _ => true
  | File _ => false
  end.

Fixpoint walk (n : node) (segs : list string) : option node :=
  match segs with
  | [] => Some n
  | s :: rest =>
      match n with
      | File _ => None
      | Dir es =>
          match Assoc.get s es with
          | Some c => walk c rest
          | None => None
          end
      end
  end.

(** Write [content] at the path: an existing file is overwritten in
    place, a missing last segment is created (the place of a new entry
    in the listing is of no consequence: the program lists no directory
    after it wrote into it).  [None]: the path is a directory, or a
    segment before the last is missing or is a file. *)
Fixpoint put (n : node) (segs : list string) (content : string)
  : option node :=
  match segs with
  | [] =>
      match n with
      | File _ => Some (File content)
      | Dir _ => None
      end
  | s :: rest =>
      match n with
      | File _ => None
      | Dir es =>
          match Assoc.get s es with
          | Some c =>
              match put c rest content with
              | Some c' => Some (Dir (Assoc.set s c' es))
              | None => None
              end
          | None =>
              match rest with
              | [] => Some (Dir (Assoc.set s (File content) es))
              | _ :: _ => None
              end
          end
      end
  end.

(** Remove the file at the path.  [None]: no such file, or a
    directory. *)
Fixpoint delete (n : node) (segs : list string) : option node :=
  match segs with
  | [] => None
  | s :: rest =>
      match n with
      | File _ => None
      | Dir es =>
          match Assoc.get s es with
          | None => None
          | Some c =>
              match rest with
              | [] =>
                  match c with
                  | File _ => Some (Dir (Assoc.remove s es))
                  | Dir _ => None
                  end
              | _ :: _ =>
                  match delete c rest with
                  | Some c' => Some (Dir (Assoc.set s c' es))
                  | None => None
                  end
              end
          end
      end
  end.

Definition statSync (fs : directory) (p : string) : option node :=
  walk (Dir fs) (Path.segments p).

Definition existsSync (fs : directory) (p : string) : bool :=
  match statSync fs p with
  | Some _ => true
  | None => false
  end.

Definition readdirSync (fs : directory) (p : string)
  : option (list string) :=
  match statSync fs p with
  | Some (Dir es) => Some (Assoc.keys es)
  | _ => None
  end.

Definition readFileSync (fs : directory) (p : string) : option string :=
  match statSync fs p with
  | Some (File c) => Some c
  | _ => None
  end.

Definition writeFileSync (fs : directory) (p : string) (content : string)
  : option directory :=
  match put (Dir fs) (Path.segments p) content with
  | Some (Dir fs') => Some fs'
  | _ => None
  end.

Definition unlinkSync (fs : directory) (p : string) : option directory :=
  match delete (Dir fs) (Path.segments p) with
  | Some (Dir fs') => Some fs'
  | _ => None
  end.

(** The trees a file system presents: in every directory the names are
    distinct, none is empty and none has a slash. *)
Definition valid_name (s : string) : Prop :=
  s <> EmptyString /\ JsString.mem Path.slash s = false.

Definition wf_entries (es : list (string * node)) : Prop :=
  NoDup (Assoc.keys es) /\ Forall valid_name (Assoc.keys es).

(** The assets directory and the directories directly under it. *)
Definition wf (fs : directory) : Prop :=
  wf_entries fs /\
  forall d es, In (d, Dir es) fs -> wf_entries es.

End Fs.

(* ================================================================== *)
(** * [cli/src/ffmpeg.ts]: the input validator *)
(* ================================================================== *)

Module Ffmpeg.

Section Validator.
(** The file system the validator looks at, and [fs.existsSync]. *)
Variable World : Type.
Variable existsSync : World -> string -> bool.

(** [validateInputFile(filePath)].  The two [throw]s are the error
    kinds [NotFound] and [UnsupportedFormat]; the world is threaded
    through to state what the call leaves behind. *)
Definition validateInputFile (filePath : string) (w : World)
  : result unit * World :=
  if negb (existsSync w filePath) then (Err NotFound, w)
  else
    let ext := JsString.toLowerCase (Path.extname filePath) in
    if negb (ext =? ".mp4") then (Err UnsupportedFormat, w)
    else (Ok tt, w).
End Validator.

End Ffmpeg.

(* ================================================================== *)
(** * [cli/src/ffmpeg.ts]: the output directory *)
(* ================================================================== *)

Module FfmpegOutput.

(** [fs.mkdirSync(p, { recursive: true })] along the segments of the
    path: the directories that are missing are created, one inside the
    other; those that are there are entered.  [None]: a segment of the
    path is a file.  The tree has no permissions, quotas or limits on
    names, so the other errors of the call (no permission, a read-only
    or full disk, a name that is too long) do not arise here: the
    theorems say what holds when the call returns, and that it fails
    below a file; none says that a call succeeds. *)
Fixpoint mkdir_recursive (n : Fs.node) (segs : list string)
  : option Fs.node :=
  match segs with
  | [] =>
      match n with
      | Fs.Dir _ => Some n
      | Fs.File _ => None
      end
  | s :: rest =>
      match n with
      | Fs.File _ => None
      | Fs.Dir es =>
          let child :=
            match Assoc.get s es with
            | Some c => c
            | None => Fs.Dir []
            end in
          match mkdir_recursive child rest with
          | Some c' => Some (Fs.Dir (Assoc.set s c' es))
          | None => None
          end
      end
  end.

Definition mkdirSync (fs : Fs.directory) (p : string)
  : option Fs.directory :=
  match mkdir_recursive (Fs.Dir fs) (Path.segments p) with
  | Some (Fs.Dir fs') => Some fs'
  | _ => None
  end.

(** [ensureOutputDir(outputDir)] *)
Definition ensureOutputDir (outputDir : string) (fs : Fs.directory)
  : result Fs.directory :=
  if negb (Fs.existsSync fs outputDir) then
    of_option FsError (mkdirSync fs outputDir)
  else Ok fs.

End FfmpegOutput.

(* ================================================================== *)
(** * [cli/index.ts]: upload and manifest rewriting *)
(* ================================================================== *)

Module Upload.

Import JsString.

Definition AGGREGATOR : string :=
  "https://aggregator.walrus-testnet.walrus.space".
Definition BLOB_ENDPOINT : string := AGGREGATOR ++ "/v1/blobs".

(** [`${BLOB_ENDPOINT}/${blobId}`] *)
Definition blobUrl (blobId : string) : string :=
  BLOB_ENDPOINT ++ "/" ++ blobId.

(** [interface BlobMapping]: filePath -> blobId *)
Definition BlobMapping : Type := list (string * string).

(** [interface WalrusCLIResult] *)
Record AlreadyCertified : Type := { ac_blobId : string }.
Record BlobObject : Type := { blobId : string }.
Record NewlyCreated : Type := { blobObject : BlobObject }.
Record BlobStoreResult : Type :=
  { alreadyCertified : option AlreadyCertified;
    newlyCreated : option NewlyCreated }.
Record WalrusCLIResult : Type :=
  { blobStoreResult : BlobStoreResult;
    path : string }.

(** [fileResult.blobStoreResult.alreadyCertified?.blobId ||
     fileResult.blobStoreResult.newlyCreated?.blobObject.blobId] *)
Definition resolve_blobId (fileResult : WalrusCLIResult) : option string :=
  js_or
    (option_map ac_blobId (alreadyCertified (blobStoreResult fileResult)))
    (option_map (fun n => blobId (blobObject n))
                (newlyCreated (blobStoreResult fileResult))).

(** [object[key] = value] for a string [value], on an object that a
    literal [{}] created: the key becomes an own property of the object,
    or keeps its place when it is one already.  The key [__proto__] is
    the exception: the assignment reaches the setter that
    [Object.prototype] has under that name, which ignores a value that is
    neither an object nor [null], and the object gets no property. *)
Definition set_property (key value : string) (object : BlobMapping)
  : BlobMapping :=
  if key =? "__proto__" then object else Assoc.set key value object.

(** The body of the loop over the results. *)
Definition record_result (blobMappings : BlobMapping)
           (fileResult : WalrusCLIResult) : BlobMapping :=
  let blobId := resolve_blobId fileResult in
  if truthy blobId then
    match blobId with
    | Some id => set_property (path fileResult) id blobMappings
    | None => blobMappings
    end
  else blobMappings.

(** [Object.assign(target, source)] *)
Definition object_assign (target source : BlobMapping) : BlobMapping :=
  fold_left (fun t e => Assoc.set (fst e) (snd e) t) source target.

(** The replacement loop of [updatePlaylistContent] over
    [Object.entries(blobMappings)]. *)
Fixpoint updatePlaylistContent_loop (streamDir : string)
         (entries : list (string * string)) (updatedContent : string)
  : result string :=
  match entries with
  | [] => Ok updatedContent
  | (filePath, blobId) :: rest =>
      if startsWith filePath (streamDir ++ "/") && endsWith filePath ".ts"
      then
        let fileName := Path.basename filePath in
        let blobUrl := blobUrl blobId in
        p <- of_option OutsideFragment (RegExp.compile fileName) ;;
        updatePlaylistContent_loop streamDir rest
          (RegExp.replace updatedContent p blobUrl)
      else updatePlaylistContent_loop streamDir rest updatedContent
  end.

Definition updatePlaylistContent (playlistContent streamDir : string)
           (blobMappings : BlobMapping) : result string :=
  updatePlaylistContent_loop streamDir blobMappings playlistContent.

(** The replacement loop of [processAndUploadMasterPlaylist]; the
    pattern is [^${streamDir}/playlist\.m3u8$]: the directory name is
    pasted as pattern text, the rest is literal. *)
Fixpoint replacePlaylistReferences (entries : list (string * string))
         (masterContent : string) : result string :=
  match entries with
  | [] => Ok masterContent
  | (filePath, blobId) :: rest =>
      if endsWith filePath "playlist.m3u8" then
        let streamDir := Path.dirname filePath in
        let blobUrl := blobUrl blobId in
        p <- of_option OutsideFragment (RegExp.compile streamDir) ;;
        replacePlaylistReferences rest
          (RegExp.replace masterContent
             (p ++ RegExp.literal "/playlist.m3u8")%list blobUrl)
      else replacePlaylistReferences rest masterContent
  end.

Section Pipeline.

(** The storage client: [execSync("walrus store ... --epochs 2
    --json", {cwd: assetsDir})] followed by [JSON.parse], for the
    file paths given and the files as they are at the call.  [None]:
    the command exits with an error or its output does not parse. *)
Variable walrus_store :
  Fs.directory -> list string -> option (list WalrusCLIResult).

(** [path.resolve(assetsDir)].  The file-system calls of the model
    take paths relative to it: [path.join(assetsPath, x)] is [x]. *)
Variable assetsPath : string.

(** [uploadToWalrus(filePaths, assetsDir)] *)
Definition uploadToWalrus (fs : Fs.directory) (filePaths : list string)
  : result BlobMapping :=
  results <- of_option UploadFailed (walrus_store fs filePaths) ;;
  Ok (fold_left record_result results []).

(** [.filter((item) => fs.statSync(path.join(assetsPath, item))
    .isDirectory())] *)
Fixpoint filter_directories (fs : Fs.directory) (items : list string)
  : result (list string) :=
  match items with
  | [] => Ok []
  | item :: rest =>
      n <- of_option FsError (Fs.statSync fs item) ;;
      dirs <- filter_directories fs rest ;;
      Ok (if Fs.isDirectory n then item :: dirs else dirs)
  end.

(** [getStreamDirectories(assetsPath)] *)
Definition getStreamDirectories (fs : Fs.directory)
  : result (list string) :=
  items <- of_option FsError (Fs.readdirSync fs "") ;;
  dirs <- filter_directories fs items ;;
  Ok (filter (fun dir => startsWith dir "stream_") dirs).

(** [collectSegmentFiles(streamDirs, assetsPath)] *)
Fixpoint collectSegmentFiles (fs : Fs.directory)
         (streamDirs : list string) : result (list string) :=
  match streamDirs with
  | [] => Ok []
  | streamDir :: rest =>
      files <- of_option FsError (Fs.readdirSync fs streamDir) ;;
      more <- collectSegmentFiles fs rest ;;
      Ok (map (Path.join streamDir)
              (filter (fun file => endsWith file ".ts") files)
          ++ more)%list
  end.

(** The first loop of [processAndUploadPlaylists]: rewrite every
    sub-manifest into a temporary file. *)
Fixpoint write_temp_playlists (streamDirs : list string)
         (blobMappings : BlobMapping) (fs : Fs.directory)
         (allPlaylistFiles : list string)
         (playlistMappings : list (string * string))
  : result (list string * list (string * string) * Fs.directory) :=
  match streamDirs with
  | [] => Ok (allPlaylistFiles, playlistMappings, fs)
  | streamDir :: rest =>
      let playlistPath := Path.join streamDir "playlist.m3u8" in
      let relativePath := Path.join streamDir "playlist.m3u8" in
      if Fs.existsSync fs playlistPath then
        playlistContent <-
          of_option FsError (Fs.readFileSync fs playlistPath) ;;
        playlistContent <-
          updatePlaylistContent playlistContent streamDir blobMappings ;;
        let tempPlaylistPath := Path.join streamDir "temp_playlist.m3u8" in
        fs' <- of_option FsError
                 (Fs.writeFileSync fs tempPlaylistPath playlistContent) ;;
        let relativeTempPath := Path.join streamDir "temp_playlist.m3u8" in
        write_temp_playlists rest blobMappings fs'
          (allPlaylistFiles ++ [relativeTempPath])%list
          (Assoc.set relativeTempPath relativePath playlistMappings)
      else
        write_temp_playlists rest blobMappings fs
          allPlaylistFiles playlistMappings
  end.

(** The second loop: map the temporary paths back and delete the
    temporary files. *)
Fixpoint remap_playlists (entries : list (string * string))
         (playlistMappings : list (string * string))
         (blobMappings : BlobMapping) (fs : Fs.directory)
  : result (BlobMapping * Fs.directory) :=
  match entries with
  | [] => Ok (blobMappings, fs)
  | (tempPath, blobId) :: rest =>
      let originalPath := Assoc.get tempPath playlistMappings in
      if truthy originalPath then
        match originalPath with
        | Some originalPath =>
            let blobMappings := Assoc.set originalPath blobId blobMappings in
            let fullTempPath := tempPath in
            fs' <- (if Fs.existsSync fs fullTempPath
                    then of_option FsError (Fs.unlinkSync fs fullTempPath)
                    else Ok fs) ;;
            remap_playlists rest playlistMappings blobMappings fs'
        | None => remap_playlists rest playlistMappings blobMappings fs
        end
      else remap_playlists rest playlistMappings blobMappings fs
  end.

(** [processAndUploadPlaylists(streamDirs, assetsPath, blobMappings)].
    The source mutates the caller's [blobMappings]; the model hands
    the updated mapping back. *)
Definition processAndUploadPlaylists (streamDirs : list string)
           (fs : Fs.directory) (blobMappings : BlobMapping)
  : result (BlobMapping * Fs.directory) :=
  ' (allPlaylistFiles, playlistMappings, fs1) <-
    write_temp_playlists streamDirs blobMappings fs [] [] ;;
  match allPlaylistFiles with
  | _ :: _ =>
      playlistBlobMappings <- uploadToWalrus fs1 allPlaylistFiles ;;
      remap_playlists playlistBlobMappings playlistMappings
                      blobMappings fs1
  | [] => Ok (blobMappings, fs1)
  end.

(** [processAndUploadMasterPlaylist(assetsPath, blobMappings)]: the
    answer is [masterPlaylistBlobMapping[tempMasterPath]], which is
    [undefined] ([None]) when the client reported no such path. *)
Definition processAndUploadMasterPlaylist (fs : Fs.directory)
           (blobMappings : BlobMapping)
  : result (option string * Fs.directory) :=
  let masterPath := "master.m3u8" in
  masterContent <- of_option FsError (Fs.readFileSync fs masterPath) ;;
  masterContent <- replacePlaylistReferences blobMappings masterContent ;;
  let tempMasterPath := Path.join assetsPath "temp_master.m3u8" in
  fs1 <- of_option FsError
           (Fs.writeFileSync fs "temp_master.m3u8" masterContent) ;;
  masterPlaylistBlobMapping <- uploadToWalrus fs1 [tempMasterPath] ;;
  fs2 <- of_option FsError (Fs.unlinkSync fs1 "temp_master.m3u8") ;;
  Ok (Assoc.get tempMasterPath masterPlaylistBlobMapping, fs2).

(** [uploadHLSAssetsToWalrus(assetsDir)]: [masterBlobId], the final
    [blobMappings], and the file tree the run leaves. *)
Definition uploadHLSAssetsToWalrus (fs : Fs.directory)
  : result (option string * BlobMapping * Fs.directory) :=
  let blobMappings : BlobMapping := [] in
  streamDirs <- getStreamDirectories fs ;;
  allSegmentFiles <- collectSegmentFiles fs streamDirs ;;
  segmentBlobMappings <- uploadToWalrus fs allSegmentFiles ;;
  let blobMappings := object_assign blobMappings segmentBlobMappings in
  ' (blobMappings, fs1) <-
    processAndUploadPlaylists streamDirs fs blobMappings ;;
  ' (masterBlobId, fs2) <-
    processAndUploadMasterPlaylist fs1 blobMappings ;;
  Ok (masterBlobId, blobMappings, fs2).

End Pipeline.

End Upload.

(* ================================================================== *)
(** * [sui-video/sources/video.move]: the published record *)
(* ================================================================== *)

Module Video.

(** [u64] *)
Definition u64_max : Z := 2 ^ 64 - 1.

Definition address : Type := Z.

(** [sui::tx_context::TxContext] *)
Record TxContext : Type := mkTxContext
  { sender : address;
    tx_hash : string;
    epoch : Z;
    epoch_timestamp_ms : Z;
    ids_created : Z }.

(** [sui::object::UID] *)
Record UID : Type := { id_bytes : address }.

(** [sui::url::Url] *)
Record Url : Type := { url : string }.

(** [public struct Video has key, store] *)
Record Video : Type := mkVideo
  { id : UID;
    title : string;
    description : string;
    master_manifest_url : Url;
    created_at : Z }.

(** Who owns an object of the global storage. *)
Inductive owner : Type :=
| AddressOwner (a : address)
| Shared
| Immutable.

(** The [Video] objects of the global storage. *)
Definition storage : Type := list (Video * owner).

Section Framework.
(** [tx_context::derive_id], a native function of the framework. *)
Variable derive_id : string -> Z -> address.

(** [object::new(ctx)]: a fresh identifier from the transaction hash
    and the counter of the context, which moves up by one; the
    addition aborts when it leaves [u64]. *)
Definition object_new (ctx : TxContext) : option (UID * TxContext) :=
  if (ids_created ctx <? u64_max)%Z then
    Some ({| id_bytes := derive_id (tx_hash ctx) (ids_created ctx) |},
          mkTxContext (sender ctx) (tx_hash ctx) (epoch ctx)
                      (epoch_timestamp_ms ctx) (ids_created ctx + 1))
  else None.

(** [url::new_unsafe(url)] *)
Definition new_unsafe (s : string) : Url := {| url := s |}.

(** [transfer::share_object(obj)] *)
Definition share_object (obj : Video) (st : storage) : storage :=
  (st ++ [(obj, Shared)])%list.

(** [public fun save_video(ctx, title, description,
    master_manifest_url)] *)
Definition save_video (ctx : TxContext)
           (title description master_manifest_url : string)
           (st : storage) : option (TxContext * storage) :=
  match object_new ctx with
  | None => None
  | Some (uid, ctx1) =>
      let video :=
        mkVideo uid title description
                (new_unsafe master_manifest_url)
                (epoch_timestamp_ms ctx1) in
      Some (ctx1, share_object video st)
  end.

(** What later transactions can do to the [Video] objects: the
    fields of [Video] are private to the module and [save_video] is
    its only function. *)
Inductive step : storage -> storage -> Prop :=
| step_save_video : forall ctx t d u st ctx' st',
    save_video ctx t d u st = Some (ctx', st') ->
    step st st'.

Inductive steps : storage -> storage -> Prop :=
| steps_refl : forall st, steps st st
| steps_cons : forall st1 st2 st3,
    step st1 st2 -> steps st2 st3 -> steps st1 st3.
End Framework.

End Video.

(* ================================================================== *)
(** * Facts about strings *)
(* ================================================================== *)

Unset Implicit Arguments.

Module StringFacts.

Import JsString.

Lemma append_nil_r (s : string) : s ++ "" = s.
Proof. induction s as [|c s IH]; simpl; [reflexivity | now rewrite IH]. Qed.

Lemma append_assoc (a b c : string) : (a ++ b) ++ c = a ++ (b ++ c).
Proof. induction a as [|x a IH]; simpl; [reflexivity | now rewrite IH]. Qed.

Lemma length_append (a b : string) :
  String.length (a ++ b) = String.length a + String.length b.
Proof. induction a as [|x a IH]; simpl; [reflexivity | now rewrite IH]. Qed.

Lemma append_inv_head (a b c : string) : a ++ b = a ++ c -> b = c.
Proof.
  induction a as [|x a IH]; simpl; intros H; [exact H|].
  injection H as H. now apply IH.
Qed.

(** Two strings of equal length followed by anything: equal wholes have
    equal parts. *)
Lemma append_inj (a b c d : string) :
  String.length a = String.length c ->
  a ++ b = c ++ d -> a = c /\ b = d.
Proof.
  revert c. induction a as [|x a IH]; intros [|y c] Hlen H;
    simpl in *; try discriminate.
  - now split.
  - injection H as -> H. injection Hlen as Hlen.
    destruct (IH c Hlen H) as [-> ->]. now split.
Qed.

Lemma append_inv_tail (a b c : string) : a ++ c = b ++ c -> a = b.
Proof.
  intros H.
  assert (Hlen : String.length a = String.length b).
  { apply (f_equal String.length) in H. rewrite !length_append in H. lia. }
  now destruct (append_inj _ _ _ _ Hlen H).
Qed.

Lemma startsWith_iff (s p : string) :
  startsWith s p = true <-> exists t, s = p ++ t.
Proof.
  unfold startsWith. revert s.
  induction p as [|c p IH]; intros s; simpl.
  - split; [intros _; exists s; reflexivity | intros _; now destruct s].
  - destruct s as [|x s]; simpl.
    + split; [discriminate | intros [t Ht]; discriminate].
    + destruct (ascii_dec c x) as [->|Hne].
      * rewrite IH. split; intros [t Ht]; exists t.
        -- now rewrite Ht.
        -- now injection Ht.
      * split; [discriminate|]. intros [t Ht]. injection Ht as Hx _.
        congruence.
Qed.

Lemma endsWith_iff (s p : string) :
  endsWith s p = true <-> exists t, s = t ++ p.
Proof.
  induction s as [|c s IH]; cbn [endsWith].
  - destruct (String.eqb_spec "" p) as [<-|Hne]; simpl.
    + split; [intros _; now exists "" | reflexivity].
    + split; [discriminate|].
      intros [[|x t] Ht]; simpl in Ht; [congruence | discriminate].
  - destruct (String.eqb_spec (String c s) p) as [<-|Hne]; simpl.
    + split; [intros _; now exists "" | reflexivity].
    + rewrite IH. split.
      * intros [t ->]. now exists (String c t).
      * intros [[|x t] Ht]; simpl in Ht; [congruence|].
        injection Ht as _ Ht. now exists t.
Qed.

Lemma endsWith_append (t p : string) : endsWith (t ++ p) p = true.
Proof. apply endsWith_iff. now exists t. Qed.

Lemma mem_append (c : ascii) (a b : string) :
  mem c (a ++ b) = mem c a || mem c b.
Proof.
  induction a as [|x a IH]; simpl; [reflexivity|].
  now rewrite IH, orb_assoc.
Qed.

Lemma any_append (f : ascii -> bool) (a b : string) :
  any f (a ++ b) = any f a || any f b.
Proof.
  induction a as [|x a IH]; simpl; [reflexivity|].
  now rewrite IH, orb_assoc.
Qed.

Lemma get_append_l (a b : string) (n : nat) :
  n < String.length a -> get n (a ++ b) = get n a.
Proof.
  revert n. induction a as [|x a IH]; simpl; intros n Hn; [lia|].
  destruct n as [|n]; [reflexivity|]. apply IH. lia.
Qed.

Lemma get_append_r (a b : string) (n : nat) :
  get (String.length a + n) (a ++ b) = get n b.
Proof. induction a as [|x a IH]; simpl; [reflexivity | exact IH]. Qed.

Lemma substring_append_l (a b : string) :
  substring 0 (String.length a) (a ++ b) = a.
Proof. induction a as [|x a IH]; simpl; [now destruct b | now rewrite IH]. Qed.

(** A character that is not in [s] is not at any index of [s]. *)
Lemma get_not_mem (c x : ascii) (s : string) (n : nat) :
  mem c s = false -> get n s = Some x -> x <> c.
Proof.
  revert n. induction s as [|y s IH]; simpl; intros n Hm Hg; [discriminate|].
  apply orb_false_iff in Hm as [Hy Hm].
  destruct n as [|n].
  - injection Hg as <-. now apply Ascii.eqb_neq.
  - eapply IH; eauto.
Qed.

Lemma get_in_range (s : string) (n : nat) :
  n < String.length s -> exists x, get n s = Some x.
Proof.
  revert n. induction s as [|y s IH]; simpl; intros n Hn; [lia|].
  destruct n as [|n]; [now exists y|]. apply IH. lia.
Qed.

End StringFacts.

(* ================================================================== *)
(** * Facts about dictionaries *)
(* ================================================================== *)

Module AssocFacts.

Section AssocFacts.
Variable V : Type.
Implicit Types (m : list (string * V)) (k : string) (v : V).

Lemma get_set_same k v m : Assoc.get k (Assoc.set k v m) = Some v.
Proof.
  induction m as [|[k' v'] m IH]; simpl.
  - now rewrite String.eqb_refl.
  - destruct (String.eqb_spec k' k) as [->|Hne]; simpl.
    + now rewrite String.eqb_refl.
    + destruct (String.eqb_spec k' k); [contradiction | exact IH].
Qed.

Lemma get_set_other k k' v m :
  k <> k' -> Assoc.get k' (Assoc.set k v m) = Assoc.get k' m.
Proof.
  intros Hne. induction m as [|[k1 v1] m IH]; simpl.
  - destruct (String.eqb_spec k k'); [contradiction | reflexivity].
  - destruct (String.eqb_spec k1 k) as [->|Hne1]; simpl.
    + destruct (String.eqb_spec k k'); [contradiction | reflexivity].
    + destruct (String.eqb_spec k1 k'); [reflexivity | exact IH].
Qed.

Lemma keys_set k v m x :
  In x (Assoc.keys (Assoc.set k v m)) <-> x = k \/ In x (Assoc.keys m).
Proof.
  induction m as [|[k1 v1] m IH]; simpl.
  - intuition congruence.
  - destruct (String.eqb_spec k1 k) as [->|Hne1]; simpl.
    + intuition congruence.
    + rewrite IH. intuition congruence.
Qed.

Lemma NoDup_keys_set k v m :
  NoDup (Assoc.keys m) -> NoDup (Assoc.keys (Assoc.set k v m)).
Proof.
  induction m as [|[k1 v1] m IH]; simpl; intros Hnd.
  - constructor; [intros [] | constructor].
  - inversion Hnd as [|? ? Hnotin Hnd']; subst.
    destruct (String.eqb_spec k1 k) as [->|Hne1]; simpl.
    + now constructor.
    + constructor; [|now apply IH].
      intros Hin. apply keys_set in Hin as [->|Hin]; congruence.
Qed.

Lemma get_in_keys k m :
  In k (Assoc.keys m) <-> exists v, Assoc.get k m = Some v.
Proof.
  induction m as [|[k1 v1] m IH]; simpl.
  - split; [intros [] | intros [v Hv]; discriminate].
  - destruct (String.eqb_spec k1 k) as [->|Hne1].
    + split; [intros _; now exists v1 | now left].
    + rewrite <- IH. intuition congruence.
Qed.


Lemma get_In k v m : Assoc.get k m = Some v -> In (k, v) m.
Proof.
  induction m as [|[k1 v1] m IH]; simpl; [discriminate|].
  destruct (String.eqb_spec k1 k) as [->|Hne1].
  - intros [= ->]. now left.
  - intros H. right. now apply IH.
Qed.

Lemma In_get k v m :
  NoDup (Assoc.keys m) -> In (k, v) m -> Assoc.get k m = Some v.
Proof.
  induction m as [|[k1 v1] m IH]; simpl; intros Hnd Hin; [contradiction|].
  inversion Hnd as [|? ? Hnotin Hnd']; subst.
  destruct Hin as [[= -> ->]|Hin].
  - now rewrite String.eqb_refl.
  - destruct (String.eqb_spec k1 k) as [->|Hne1]; [|now apply IH].
    exfalso. apply Hnotin. change (In (fst (k, v)) (map fst m)).
    now apply in_map.
Qed.

Lemma get_remove_same k m : Assoc.get k (Assoc.remove k m) = None.
Proof.
  induction m as [|[k1 v1] m IH]; simpl; [reflexivity|].
  destruct (String.eqb_spec k1 k) as [->|Hne1]; simpl; [exact IH|].
  destruct (String.eqb_spec k1 k); [contradiction | exact IH].
Qed.

Lemma get_remove_other k k' m :
  k <> k' -> Assoc.get k' (Assoc.remove k m) = Assoc.get k' m.
Proof.
  intros Hne. induction m as [|[k1 v1] m IH]; simpl; [reflexivity|].
  destruct (String.eqb_spec k1 k) as [->|Hne1]; simpl.
  - destruct (String.eqb_spec k k'); [contradiction | exact IH].
  - destruct (String.eqb_spec k1 k'); [reflexivity | exact IH].
Qed.

End AssocFacts.

End AssocFacts.

(* ================================================================== *)
(** * The input validator *)
(* ================================================================== *)

Module ValidatorFacts.

Import Ffmpeg.

(** A working directory with one MP4 file and one text file. *)
Definition sample_cwd : Fs.directory :=
  [ ("Movie.MP4", Fs.File "mp4 bytes");
    ("notes.txt", Fs.File "remember the milk");
    ("clips", Fs.Dir [ ("intro.mp4", Fs.File "more bytes") ]) ].

(** [path.extname] on some paths: the extension starts at the last dot
    of the last segment; a leading dot alone starts no extension. *)
Example extname_samples :
  map Path.extname
      [ "video.mp4"; "clips/intro.mp4"; "Movie.MP4"; "a.b/c"; ".mp4";
        "archive.tar.gz"; "notes.txt"; "noext"; "dir.mp4/" ]
  = [ ".mp4"; ".mp4"; ".MP4"; ""; ""; ".gz"; ".txt"; ""; ".mp4" ].
Proof. vm_compute. reflexivity. Qed.

(** Claim C2.  For every path given to the validator: when the path does
    not exist the validator rejects with [NotFound]; when it exists and
    its extension, lower-cased, is not [.mp4] it rejects with
    [UnsupportedFormat]; when it exists and its lower-cased extension is
    [.mp4] it accepts; in every case the file system is left as it was. *)
Theorem validateInputFile_verdict :
  forall (World : Type) (existsSync : World -> string -> bool)
         (filePath : string) (w : World),
    (existsSync w filePath = false ->
     validateInputFile existsSync filePath w = (Err NotFound, w)) /\
    (existsSync w filePath = true ->
     JsString.toLowerCase (Path.extname filePath) <> ".mp4" ->
     validateInputFile existsSync filePath w = (Err UnsupportedFormat, w)) /\
    (existsSync w filePath = true ->
     JsString.toLowerCase (Path.extname filePath) = ".mp4" ->
     validateInputFile existsSync filePath w = (Ok tt, w)).
Proof.
  intros World existsSync filePath w. unfold validateInputFile.
  repeat split.
  - intros ->. reflexivity.
  - intros -> Hext. simpl.
    destruct (String.eqb_spec (JsString.toLowerCase (Path.extname filePath))
                              ".mp4"); [contradiction | reflexivity].
  - intros -> ->. reflexivity.
Qed.

Lemma validateInputFile_verdict_witness :
  validateInputFile Fs.existsSync "missing.mp4" sample_cwd
    = (Err NotFound, sample_cwd) /\
  validateInputFile Fs.existsSync "notes.txt" sample_cwd
    = (Err UnsupportedFormat, sample_cwd) /\
  validateInputFile Fs.existsSync "Movie.MP4" sample_cwd
    = (Ok tt, sample_cwd).
Proof.
  split; [|split].
  - apply (proj1 (validateInputFile_verdict
                    Fs.directory Fs.existsSync "missing.mp4" sample_cwd)).
    vm_compute. reflexivity.
  - apply (proj1 (proj2 (validateInputFile_verdict
                           Fs.directory Fs.existsSync "notes.txt" sample_cwd))).
    + vm_compute. reflexivity.
    + vm_compute. discriminate.
  - apply (proj2 (proj2 (validateInputFile_verdict
                           Fs.directory Fs.existsSync "Movie.MP4" sample_cwd)));
      vm_compute; reflexivity.
Defined.

(** Claim C9.  Existence is checked before the extension: a path that
    does not exist is rejected with [NotFound] whatever its extension,
    and never with [UnsupportedFormat]. *)
Theorem validateInputFile_missing_is_NotFound :
  forall (World : Type) (existsSync : World -> string -> bool)
         (filePath : string) (w : World),
    existsSync w filePath = false ->
    fst (validateInputFile existsSync filePath w) = Err NotFound /\
    fst (validateInputFile existsSync filePath w) <> Err UnsupportedFormat.
Proof.
  intros World existsSync filePath w Hmissing.
  unfold validateInputFile. rewrite Hmissing. simpl.
  split; [reflexivity | discriminate].
Qed.

Lemma validateInputFile_missing_is_NotFound_witness :
  Fs.existsSync sample_cwd "missing.txt" = false /\
  Path.extname "missing.txt" = ".txt" /\
  fst (validateInputFile Fs.existsSync "missing.txt" sample_cwd)
    = Err NotFound /\
  fst (validateInputFile Fs.existsSync "missing.txt" sample_cwd)
    <> Err UnsupportedFormat.
Proof.
  split; [vm_compute; reflexivity|]. split; [vm_compute; reflexivity|].
  apply (validateInputFile_missing_is_NotFound
           Fs.directory Fs.existsSync "missing.txt" sample_cwd).
  vm_compute. reflexivity.
Defined.

End ValidatorFacts.

(* ================================================================== *)
(** * The published record *)
(* ================================================================== *)

Module VideoFacts.

Import Video.

Section Framework.
Variable derive_id : string -> Z -> address.

Lemma save_video_appends ctx t d u st ctx' st' :
  save_video derive_id ctx t d u st = Some (ctx', st') ->
  exists v, st' = (st ++ [(v, Shared)])%list.
Proof.
  unfold save_video, object_new, share_object.
  destruct (ids_created ctx <? u64_max)%Z; [|discriminate].
  intros [= _ <-]. eexists. reflexivity.
Qed.

(** The storage only grows: what is stored stays, at its place, as it is. *)
Lemma steps_extend st st' :
  steps derive_id st st' -> exists later, st' = (st ++ later)%list.
Proof.
  induction 1 as [st | st1 st2 st3 Hstep _ [later ->]].
  - exists []. now rewrite app_nil_r.
  - destruct Hstep as [ctx t d u st ctx' st' Hsave].
    apply save_video_appends in Hsave as [v ->].
    exists ((v, Shared) :: later). now rewrite <- app_assoc.
Qed.

End Framework.

(** Claim C7.  Every call of [save_video] whose context can still issue
    an identifier creates exactly one record: it carries the title, the
    description and the reference string as given (any string: nothing is
    validated) and the epoch timestamp of the context in milliseconds; it
    enters the storage as a shared object at once, and whatever the module
    does later leaves it in the storage, shared and with the same fields. *)
Theorem save_video_publishes_one_shared_record :
  forall (derive_id : string -> Z -> address) (ctx : TxContext)
         (t d u : string) (st : storage),
    (0 <= ids_created ctx < u64_max)%Z ->
    exists uid ctx',
      let v := mkVideo uid t d {| url := u |} (epoch_timestamp_ms ctx) in
      save_video derive_id ctx t d u st
        = Some (ctx', (st ++ [(v, Shared)])%list) /\
      ids_created ctx' = (ids_created ctx + 1)%Z /\
      forall st'',
        steps derive_id (st ++ [(v, Shared)])%list st'' ->
        exists later, st'' = (st ++ (v, Shared) :: later)%list.
Proof.
  intros derive_id ctx t d u st [_ Hfresh].
  unfold save_video, object_new, share_object, new_unsafe.
  apply Z.ltb_lt in Hfresh. rewrite Hfresh.
  eexists. eexists. simpl. split; [reflexivity|]. split; [reflexivity|].
  intros st'' Hsteps.
  apply steps_extend in Hsteps as [later ->].
  exists later. now rewrite <- app_assoc.
Qed.

Definition sample_ctx : TxContext :=
  mkTxContext 7%Z "tx-hash" 12%Z 1700000000000%Z 0%Z.

Lemma save_video_publishes_one_shared_record_witness :
  exists uid ctx',
    let v := mkVideo uid "Title" "About" {| url := "not a url" |}
                     1700000000000%Z in
    save_video (fun _ n => n) sample_ctx "Title" "About" "not a url" []
      = Some (ctx', [(v, Shared)]) /\
    ids_created ctx' = 1%Z /\
    forall st'',
      steps (fun _ n => n) [(v, Shared)] st'' ->
      exists later, st'' = (v, Shared) :: later.
Proof.
  apply (save_video_publishes_one_shared_record
           (fun _ n => n) sample_ctx "Title" "About" "not a url" []).
  vm_compute. split; [discriminate | reflexivity].
Defined.

End VideoFacts.

(* ================================================================== *)
(** * The batch uploader *)
(* ================================================================== *)

Module UploaderFacts.

Import JsString Upload.

(** A result with a newly created blob, and one with a blob that was
    certified before. *)
Definition created (p id : string) : WalrusCLIResult :=
  {| blobStoreResult :=
       {| alreadyCertified := None;
          newlyCreated := Some {| blobObject := {| blobId := id |} |} |};
     path := p |}.

Definition certified (p id : string) : WalrusCLIResult :=
  {| blobStoreResult :=
       {| alreadyCertified := Some {| ac_blobId := id |};
          newlyCreated := None |};
     path := p |}.

(** A result that carries neither variant (an error record of the
    client). *)
Definition neither (p : string) : WalrusCLIResult :=
  {| blobStoreResult := {| alreadyCertified := None; newlyCreated := None |};
     path := p |}.

(** The identifiers a result carries are not empty. *)
Definition nonempty_ids (r : WalrusCLIResult) : Prop :=
  (forall a, alreadyCertified (blobStoreResult r) = Some a ->
             ac_blobId a <> "") /\
  (forall n, newlyCreated (blobStoreResult r) = Some n ->
             blobId (blobObject n) <> "").

(** The identifier the words of the interface promise: the certified one
    when that variant is there, else the created one. *)
Definition variant_blobId (r : WalrusCLIResult) : option string :=
  match alreadyCertified (blobStoreResult r) with
  | Some a => Some (ac_blobId a)
  | None => option_map (fun n => blobId (blobObject n))
                       (newlyCreated (blobStoreResult r))
  end.

(** The identifier of the created variant, when that variant is there. *)
Definition created_blobId (r : WalrusCLIResult) : option string :=
  option_map (fun n => blobId (blobObject n))
             (newlyCreated (blobStoreResult r)).

(** The identifier the loop takes: the certified one when that variant
    is there with an identifier that is not empty, else the created
    one. *)
Definition chosen_blobId (r : WalrusCLIResult) : option string :=
  match alreadyCertified (blobStoreResult r) with
  | Some a => if ac_blobId a =? "" then created_blobId r
              else Some (ac_blobId a)
  | None => created_blobId r
  end.

(** The identifier the loop stores for the path of the result: the one
    it takes, unless that is empty or the path is [__proto__]. *)
Definition stored_blobId (r : WalrusCLIResult) : option string :=
  match chosen_blobId r with
  | Some id => if (id =? "") || (path r =? "__proto__") then None
               else Some id
  | None => None
  end.

Lemma truthy_Some (s : string) : s <> "" -> truthy (Some s) = true.
Proof.
  intros Hs. unfold truthy. now destruct (String.eqb_spec s "").
Qed.

Lemma resolve_blobId_chosen (r : WalrusCLIResult) :
  resolve_blobId r = chosen_blobId r.
Proof.
  unfold resolve_blobId, chosen_blobId, created_blobId, js_or.
  destruct (alreadyCertified (blobStoreResult r)) as [a|]; cbn [option_map].
  - unfold truthy. now destruct (ac_blobId a =? "").
  - reflexivity.
Qed.

Lemma resolve_blobId_variant (r : WalrusCLIResult) :
  nonempty_ids r -> resolve_blobId r = variant_blobId r.
Proof.
  intros [Hc Hn]. unfold resolve_blobId, variant_blobId, js_or.
  destruct (alreadyCertified (blobStoreResult r)) as [a|]; cbn [option_map].
  - now rewrite truthy_Some by now apply Hc.
  - reflexivity.
Qed.

(** An identifier that was resolved is truthy: the loop stores it. *)
Lemma resolve_blobId_truthy (r : WalrusCLIResult) (id : string) :
  nonempty_ids r -> resolve_blobId r = Some id -> truthy (Some id) = true.
Proof.
  intros Hne Hr. rewrite resolve_blobId_variant in Hr by assumption.
  destruct Hne as [Hc Hn]. unfold variant_blobId in Hr.
  destruct (alreadyCertified (blobStoreResult r)) as [a|].
  - injection Hr as <-. now apply truthy_Some, Hc.
  - destruct (newlyCreated (blobStoreResult r)) as [n|]; [|discriminate].
    injection Hr as <-. now apply truthy_Some, Hn.
Qed.

(** What is stored was resolved, is not empty, and not for [__proto__]. *)
Lemma stored_blobId_inv (r : WalrusCLIResult) (id : string) :
  stored_blobId r = Some id ->
  resolve_blobId r = Some id /\ id <> "" /\ path r <> "__proto__".
Proof.
  unfold stored_blobId. rewrite resolve_blobId_chosen.
  destruct (chosen_blobId r) as [i|]; [|discriminate].
  destruct (String.eqb_spec i "") as [->|Hi]; [discriminate|].
  destruct (String.eqb_spec (path r) "__proto__") as [Hp|Hp];
    [discriminate|].
  cbn [orb]. intros [= <-]. auto.
Qed.

(** With identifiers that are not empty and a path other than
    [__proto__], what was resolved is stored. *)
Lemma stored_blobId_resolved (r : WalrusCLIResult) :
  nonempty_ids r -> path r <> "__proto__" ->
  stored_blobId r = resolve_blobId r.
Proof.
  intros Hne Hp. unfold stored_blobId. rewrite <- resolve_blobId_chosen.
  destruct (resolve_blobId r) as [id|] eqn:Hr; [|reflexivity].
  pose proof (resolve_blobId_truthy r id Hne Hr) as Ht.
  unfold truthy in Ht. destruct (id =? ""); [discriminate|].
  apply String.eqb_neq in Hp. now rewrite Hp.
Qed.

Lemma record_result_stored (m : BlobMapping) (r : WalrusCLIResult) :
  record_result m r =
  match stored_blobId r with
  | Some id => Assoc.set (path r) id m
  | None => m
  end.
Proof.
  unfold record_result, stored_blobId, set_property.
  rewrite resolve_blobId_chosen.
  destruct (chosen_blobId r) as [id|]; [|reflexivity].
  unfold truthy. destruct (id =? ""); cbn [negb orb]; [reflexivity|].
  now destruct (path r =? "__proto__").
Qed.

Lemma record_result_get (m : BlobMapping) (r : WalrusCLIResult) (p : string) :
  Assoc.get p (record_result m r) =
  match stored_blobId r with
  | Some id => if path r =? p then Some id else Assoc.get p m
  | None => Assoc.get p m
  end.
Proof.
  rewrite record_result_stored.
  destruct (stored_blobId r) as [id|]; [|reflexivity].
  destruct (String.eqb_spec (path r) p) as [<-|Hp].
  - apply AssocFacts.get_set_same.
  - now apply AssocFacts.get_set_other.
Qed.

Lemma record_result_NoDup (m : BlobMapping) (r : WalrusCLIResult) :
  NoDup (Assoc.keys m) -> NoDup (Assoc.keys (record_result m r)).
Proof.
  intros Hnd. rewrite record_result_stored.
  destruct (stored_blobId r); [|assumption].
  now apply AssocFacts.NoDup_keys_set.
Qed.

Lemma fold_record_NoDup (rs : list WalrusCLIResult) (m : BlobMapping) :
  NoDup (Assoc.keys m) ->
  NoDup (Assoc.keys (fold_left record_result rs m)).
Proof.
  revert m. induction rs as [|r rs IH]; simpl; intros m Hnd; [assumption|].
  now apply IH, record_result_NoDup.
Qed.

(** [p] is answered with [id] by the last result of [rs] that names [p]
    and has an identifier that is stored. *)
Definition last_stored (rs : list WalrusCLIResult) (p id : string) : Prop :=
  exists pre r post,
    rs = (pre ++ r :: post)%list /\ path r = p /\
    stored_blobId r = Some id /\
    forall r', In r' post -> path r' = p -> stored_blobId r' = None.

Lemma split_last {A : Type} (pre post l : list A) (r x : A) :
  (pre ++ r :: post = l ++ [x])%list ->
  (post = [] /\ r = x /\ l = pre) \/
  (exists post', post = (post' ++ [x])%list /\ l = (pre ++ r :: post')%list).
Proof.
  intros H. induction post as [|z post' _] using rev_ind.
  - left. apply app_inj_tail in H as [-> ->]. auto.
  - right. rewrite app_comm_cons, app_assoc in H.
    apply app_inj_tail in H as [<- <-]. exists post'. auto.
Qed.

Lemma fold_record_get (rs : list WalrusCLIResult) (p id : string) :
  Assoc.get p (fold_left record_result rs []) = Some id <->
  last_stored rs p id.
Proof.
  induction rs as [|x l IH] using rev_ind.
  - simpl. split; [discriminate|].
    intros (pre & r & post & H & _). now destruct pre.
  - rewrite fold_left_app. simpl. rewrite record_result_get.
    split.
    + intros Hget.
      destruct (stored_blobId x) as [idx|] eqn:Hrx.
      * destruct (String.eqb_spec (path x) p) as [Hp|Hp].
        -- injection Hget as <-. exists l, x, []. repeat split; auto.
           intros r' [].
        -- apply IH in Hget as (pre & r & post & -> & Hpr & Hr & Hlater).
           exists pre, r, (post ++ [x])%list. repeat split; auto.
           ++ now rewrite <- app_assoc.
           ++ intros r' Hin Hp'. apply in_app_iff in Hin as [Hin|[<-|[]]];
                [now apply Hlater | contradiction].
      * apply IH in Hget as (pre & r & post & -> & Hpr & Hr & Hlater).
        exists pre, r, (post ++ [x])%list. repeat split; auto.
        -- now rewrite <- app_assoc.
        -- intros r' Hin Hp'. apply in_app_iff in Hin as [Hin|[<-|[]]];
             [now apply Hlater | assumption].
    + intros (pre & r & post & Hsplit & Hpr & Hr & Hlater).
      symmetry in Hsplit.
      apply split_last in Hsplit as [(-> & -> & ->) | (post' & -> & ->)].
      * rewrite Hr, Hpr, String.eqb_refl. reflexivity.
      * assert (Hx' : path x = p -> stored_blobId x = None).
        { apply Hlater. apply in_app_iff. right. now left. }
        assert (Hget : Assoc.get p
                         (fold_left record_result (pre ++ r :: post') [])
                       = Some id).
        { apply IH. exists pre, r, post'. repeat split; auto.
          intros r' Hin. apply Hlater. apply in_app_iff. now left. }
        destruct (stored_blobId x) as [idx|] eqn:Hrx; [|exact Hget].
        destruct (String.eqb_spec (path x) p) as [Hp|Hp]; [|exact Hget].
        specialize (Hx' Hp). discriminate.
Qed.

Lemma fold_record_keys (rs : list WalrusCLIResult) (p : string) :
  In p (Assoc.keys (fold_left record_result rs [])) <->
  exists r, In r rs /\ path r = p /\ stored_blobId r <> None.
Proof.
  rewrite AssocFacts.get_in_keys. split.
  - intros [id Hget]. apply fold_record_get in Hget.
    destruct Hget as (pre & r & post & -> & Hp & Hr & _).
    exists r. split; [apply in_app_iff; right; now left|].
    split; [assumption | congruence].
  - induction rs as [|x l IH] using rev_ind;
      intros (r & Hin & Hp & Hr); [contradiction|].
    rewrite fold_left_app. simpl. rewrite record_result_get.
    destruct (stored_blobId x) as [idx|] eqn:Hrx.
    + destruct (String.eqb_spec (path x) p) as [Hpx|Hpx]; [now eexists|].
      apply in_app_iff in Hin as [Hin|[<-|[]]]; [|contradiction].
      apply IH. now exists r.
    + apply in_app_iff in Hin as [Hin|[<-|[]]]; [|congruence].
      apply IH. now exists r.
Qed.


(** A result whose certified variant has the empty identifier beside a
    created variant. *)
Definition empty_certified (p id : string) : WalrusCLIResult :=
  {| blobStoreResult :=
       {| alreadyCertified := Some {| ac_blobId := "" |};
          newlyCreated := Some {| blobObject := {| blobId := id |} |} |};
     path := p |}.




End UploaderFacts.

(* ================================================================== *)
(** * Facts about paths and the file tree *)
(* ================================================================== *)

Module PathFacts.

Import JsString StringFacts.

Lemma segments_from_plain (cur p : string) :
  mem Path.slash p = false ->
  Path.segments_from cur p =
  match cur ++ p with EmptyString => [] | s => [s] end.
Proof.
  revert cur. induction p as [|c p IH]; simpl; intros cur Hp.
  - rewrite append_nil_r. now destruct cur.
  - apply orb_false_iff in Hp as [Hc Hp].
    unfold Path.slash in *. rewrite Hc.
    rewrite IH by assumption. now rewrite append_assoc.
Qed.

Lemma segments_from_slash (cur p q : string) :
  mem Path.slash p = false ->
  Path.segments_from cur (p ++ String Path.slash q) =
  (match (cur ++ p)%string with EmptyString => [] | s => [s] end
   ++ Path.segments q)%list.
Proof.
  revert cur. induction p as [|c p IH]; simpl; intros cur Hp.
  - rewrite append_nil_r. now destruct cur.
  - apply orb_false_iff in Hp as [Hc Hp].
    unfold Path.slash in *. rewrite Hc.
    rewrite IH by assumption. now rewrite append_assoc.
Qed.

Lemma segments_name (s : string) :
  Fs.valid_name s -> Path.segments s = [s].
Proof.
  intros [Hne Hs]. unfold Path.segments.
  rewrite segments_from_plain by assumption. simpl.
  now destruct s.
Qed.

Lemma segments_two (d f : string) :
  Fs.valid_name d -> Fs.valid_name f ->
  Path.segments (d ++ "/" ++ f) = [d; f].
Proof.
  intros [Hd Hsd] Hf. unfold Path.segments.
  change ("/" ++ f) with (String Path.slash f).
  rewrite segments_from_slash by assumption. simpl.
  rewrite (segments_name _ Hf). now destruct d.
Qed.

Lemma valid_name_no_trailing_slash (d : string) :
  Fs.valid_name d -> endsWith d "/" = false.
Proof.
  intros [_ Hs]. destruct (endsWith d "/") eqn:He; [|reflexivity].
  apply endsWith_iff in He as [t ->].
  rewrite mem_append in Hs. simpl in Hs.
  now rewrite orb_true_r in Hs.
Qed.

Lemma join_name (d f : string) :
  Fs.valid_name d -> Path.join d f = d ++ "/" ++ f.
Proof.
  intros Hd. unfold Path.join.
  rewrite (valid_name_no_trailing_slash _ Hd).
  destruct Hd as [Hne _]. now destruct d.
Qed.

End PathFacts.

Module FsFacts.

Import JsString.

Lemma stat_name (fs : Fs.directory) (name : string) :
  Fs.valid_name name -> Fs.statSync fs name = Assoc.get name fs.
Proof.
  intros Hn. unfold Fs.statSync. rewrite (PathFacts.segments_name _ Hn).
  simpl. now destruct (Assoc.get name fs).
Qed.

Lemma stat_two (fs : Fs.directory) (d f : string) :
  Fs.valid_name d -> Fs.valid_name f ->
  Fs.statSync fs (d ++ "/" ++ f) =
  match Assoc.get d fs with
  | Some (Fs.Dir es) => Assoc.get f es
  | _ => None
  end.
Proof.
  intros Hd Hf. unfold Fs.statSync.
  rewrite (PathFacts.segments_two _ _ Hd Hf). simpl.
  destruct (Assoc.get d fs) as [[c|es]|]; try reflexivity.
  now destruct (Assoc.get f es).
Qed.

Lemma wf_entry_name (es : list (string * Fs.node)) (k : string) (n : Fs.node) :
  Fs.wf_entries es -> In (k, n) es -> Fs.valid_name k.
Proof.
  intros [_ Hv] Hin. apply (proj1 (Forall_forall _ _) Hv).
  change k with (fst (k, n)). now apply in_map.
Qed.

Lemma wf_entry_get (es : list (string * Fs.node)) (k : string) (n : Fs.node) :
  Fs.wf_entries es -> In (k, n) es -> Assoc.get k es = Some n.
Proof. intros [Hnd _] Hin. now apply AssocFacts.In_get. Qed.

Lemma readdir_root (fs : Fs.directory) :
  Fs.readdirSync fs "" = Some (Assoc.keys fs).
Proof. reflexivity. Qed.

End FsFacts.

(* ================================================================== *)
(** * The asset enumerator *)
(* ================================================================== *)

Module EnumeratorFacts.

Import JsString Upload.

(** The entries of the assets directory that are directories with a name
    starting with [stream_], in listing order. *)
Definition stream_entries (fs : Fs.directory) : list (string * Fs.node) :=
  filter (fun e => Fs.isDirectory (snd e) && startsWith (fst e) "stream_") fs.

(** The paths of the entries of one such directory whose name ends with
    [.ts], in listing order. *)
Definition segment_paths (e : string * Fs.node) : list string :=
  match snd e with
  | Fs.Dir es =>
      map (fun f => fst e ++ "/" ++ f)
          (filter (fun f => endsWith f ".ts") (Assoc.keys es))
  | Fs.File _ => []
  end.

Lemma filter_directories_entries (fs : Fs.directory)
      (es : list (string * Fs.node)) :
  Fs.wf_entries fs ->
  (forall e, In e es -> In e fs) ->
  filter_directories fs (Assoc.keys es) =
  Ok (Assoc.keys (filter (fun e => Fs.isDirectory (snd e)) es)).
Proof.
  intros Hwf. induction es as [|[k n] es IH]; intros Hsub; simpl.
  - reflexivity.
  - assert (Hin : In (k, n) fs) by (apply Hsub; now left).
    rewrite (FsFacts.stat_name fs k (FsFacts.wf_entry_name fs k n Hwf Hin)).
    rewrite (FsFacts.wf_entry_get fs k n Hwf Hin). simpl.
    rewrite IH by (intros e He; apply Hsub; now right). simpl.
    now destruct (Fs.isDirectory n).
Qed.

Lemma filter_keys (f : string -> bool) (es : list (string * Fs.node)) :
  filter f (Assoc.keys es) = Assoc.keys (filter (fun e => f (fst e)) es).
Proof.
  induction es as [|[k n] es IH]; simpl; [reflexivity|].
  destruct (f k); simpl; now rewrite IH.
Qed.

Lemma filter_filter {A : Type} (f g : A -> bool) (l : list A) :
  filter g (filter f l) = filter (fun x => f x && g x) l.
Proof.
  induction l as [|x l IH]; simpl; [reflexivity|].
  destruct (f x); simpl; [|exact IH].
  destruct (g x); now rewrite IH.
Qed.

Lemma getStreamDirectories_entries (fs : Fs.directory) :
  Fs.wf_entries fs ->
  getStreamDirectories fs = Ok (Assoc.keys (stream_entries fs)).
Proof.
  intros Hwf. unfold getStreamDirectories.
  rewrite FsFacts.readdir_root. simpl.
  rewrite (filter_directories_entries fs fs Hwf) by auto. simpl.
  now rewrite filter_keys, filter_filter.
Qed.

Lemma collectSegmentFiles_entries (fs : Fs.directory)
      (es : list (string * Fs.node)) :
  Fs.wf_entries fs ->
  (forall e, In e es -> In e fs /\ Fs.isDirectory (snd e) = true) ->
  collectSegmentFiles fs (Assoc.keys es) = Ok (flat_map segment_paths es).
Proof.
  intros Hwf. induction es as [|[k n] es IH]; intros Hsub; simpl.
  - reflexivity.
  - destruct (Hsub (k, n)) as [Hin Hdir]; [now left|].
    destruct n as [c|sub]; [discriminate|].
    pose proof (FsFacts.wf_entry_name fs k _ Hwf Hin) as Hk.
    unfold Fs.readdirSync.
    rewrite (FsFacts.stat_name fs k Hk), (FsFacts.wf_entry_get fs k _ Hwf Hin).
    simpl. rewrite IH by (intros e He; apply Hsub; now right). simpl.
    unfold segment_paths at 2. simpl. f_equal. f_equal.
    apply map_ext. intros f. now apply PathFacts.join_name.
Qed.

(** Claim C8, as the code has it.  In a file tree with distinct, proper
    names, the enumerator selects exactly the entries of the assets
    directory that are directories and whose name starts with [stream_]
    (whatever follows the prefix), in listing order, and from each of them
    exactly the entries whose name ends with [.ts] (files or not), in
    listing order, as the flat list of the paths [<dir>/<name>]. *)
Theorem enumerator_selects_by_prefix_and_suffix :
  forall fs : Fs.directory,
    Fs.wf_entries fs ->
    exists dirs segs,
      getStreamDirectories fs = Ok dirs /\
      collectSegmentFiles fs dirs = Ok segs /\
      dirs = Assoc.keys (stream_entries fs) /\
      segs = flat_map segment_paths (stream_entries fs) /\
      (forall d, In d dirs <->
                 exists es, In (d, Fs.Dir es) fs /\
                            startsWith d "stream_" = true) /\
      (forall p, In p segs <->
                 exists d es f,
                   In (d, Fs.Dir es) fs /\ startsWith d "stream_" = true /\
                   In f (Assoc.keys es) /\ endsWith f ".ts" = true /\
                   p = d ++ "/" ++ f).
Proof.
  intros fs Hwf.
  exists (Assoc.keys (stream_entries fs)),
         (flat_map segment_paths (stream_entries fs)).
  assert (Hstream : forall d n, In (d, n) (stream_entries fs) <->
            exists es, n = Fs.Dir es /\ In (d, Fs.Dir es) fs /\
                       startsWith d "stream_" = true).
  { intros d n. unfold stream_entries. rewrite filter_In. simpl.
    rewrite andb_true_iff. split.
    - intros (Hin & Hdir & Hpre). destruct n as [c|es]; [discriminate|].
      now exists es.
    - intros (es & -> & Hin & Hpre). auto. }
  split; [now apply getStreamDirectories_entries|].
  split.
  { apply collectSegmentFiles_entries; [assumption|].
    intros [d n] He. apply Hstream in He as (es & -> & Hin & _). auto. }
  split; [reflexivity|]. split; [reflexivity|]. split.
  - intros d. unfold Assoc.keys. rewrite in_map_iff. split.
    + intros ([d' n] & <- & He). apply Hstream in He as (es & -> & Hin & Hp).
      now exists es.
    + intros (es & Hin & Hp). exists (d, Fs.Dir es). split; [reflexivity|].
      apply Hstream. now exists es.
  - intros p. rewrite in_flat_map. split.
    + intros ([d n] & He & Hp).
      apply Hstream in He as (es & -> & Hin & Hpre).
      unfold segment_paths in Hp. simpl in Hp.
      apply in_map_iff in Hp as (f & <- & Hf).
      apply filter_In in Hf as [Hf Hts].
      now exists d, es, f.
    + intros (d & es & f & Hin & Hpre & Hf & Hts & ->).
      exists (d, Fs.Dir es). split; [apply Hstream; now exists es|].
      unfold segment_paths. simpl. apply in_map_iff. exists f.
      split; [reflexivity|]. now apply filter_In.
Qed.

(** An output directory with two renditions, a directory left from an
    earlier run, and a directory whose name ends with [.ts]. *)
Definition sample_tree : Fs.directory :=
  [ ("master.m3u8", Fs.File "#EXTM3U");
    ("stream_0",
     Fs.Dir [ ("data000.ts", Fs.File "s0");
              ("playlist.m3u8", Fs.File "data000.ts");
              ("thumbs.ts", Fs.Dir []) ]);
    ("stream_old", Fs.Dir [ ("a.ts", Fs.File "old") ]);
    ("stream_1", Fs.Dir [ ("data000.ts", Fs.File "s1") ]);
    ("notes.txt", Fs.File "x") ].

Lemma sample_tree_wf : Fs.wf_entries sample_tree.
Proof.
  split.
  - repeat constructor; simpl; intuition discriminate.
  - repeat constructor; discriminate.
Qed.

Lemma enumerator_selects_by_prefix_and_suffix_witness :
  exists dirs segs,
    getStreamDirectories sample_tree = Ok dirs /\
    collectSegmentFiles sample_tree dirs = Ok segs /\
    dirs = Assoc.keys (stream_entries sample_tree) /\
    segs = flat_map segment_paths (stream_entries sample_tree) /\
    (forall d, In d dirs <->
               exists es, In (d, Fs.Dir es) sample_tree /\
                          startsWith d "stream_" = true) /\
    (forall p, In p segs <->
               exists d es f,
                 In (d, Fs.Dir es) sample_tree /\
                 startsWith d "stream_" = true /\
                 In f (Assoc.keys es) /\ endsWith f ".ts" = true /\
                 p = d ++ "/" ++ f).
Proof.
  apply (enumerator_selects_by_prefix_and_suffix sample_tree).
  split.
  - repeat constructor; simpl; intuition discriminate.
  - repeat constructor; discriminate.
Defined.

(** The naming convention in the words of the design: the prefix
    [stream_] followed by an ordinal, a non-empty run of digits. *)
Definition spec_is_digit (c : ascii) : bool :=
  let n := nat_of_ascii c in (48 <=? n)%nat && (n <=? 57)%nat.

Definition spec_is_rendition_name (s : string) : bool :=
  startsWith s "stream_" &&
  let ordinal := substring 7 (String.length s - 7) s in
  negb (ordinal =? "") && negb (any (fun c => negb (spec_is_digit c)) ordinal).

(** The enumeration in the words of the design: the sub-directories
    named by the convention, and in each the files with the segment
    extension. *)
Definition spec_segment_files (fs : Fs.directory) : list string :=
  flat_map
    (fun e =>
       match snd e with
       | Fs.Dir es =>
           if spec_is_rendition_name (fst e) then
             map (fun x => fst e ++ "/" ++ fst x)
                 (filter (fun x => negb (Fs.isDirectory (snd x)) &&
                                   endsWith (fst x) ".ts") es)
           else []
       | Fs.File _ => []
       end) fs.

(** Claim C8, as stated, fails: [stream_old] does not follow the
    convention and [stream_0/thumbs.ts] is no file, yet both are
    selected. *)
Lemma enumerator_ignores_ordinal :
  spec_segment_files sample_tree
    = ["stream_0/data000.ts"; "stream_1/data000.ts"] /\
  getStreamDirectories sample_tree
    = Ok ["stream_0"; "stream_old"; "stream_1"] /\
  collectSegmentFiles sample_tree ["stream_0"; "stream_old"; "stream_1"]
    = Ok ["stream_0/data000.ts"; "stream_0/thumbs.ts"; "stream_old/a.ts";
          "stream_1/data000.ts"] /\
  collectSegmentFiles sample_tree ["stream_0"; "stream_old"; "stream_1"]
    <> Ok (spec_segment_files sample_tree).
Proof.
  repeat split; try (vm_compute; reflexivity).
  vm_compute. discriminate.
Qed.

End EnumeratorFacts.

(* ================================================================== *)
(** * Replacement, line by line *)
(* ================================================================== *)



Module RegExpFacts.

Import JsString StringFacts RegExp.

(** The lines of a text: the runs between line terminators. *)
Fixpoint lines (s : string) : list string :=
  match s with
  | EmptyString => [EmptyString]
  | String c s' =>
      if is_line_terminator c then EmptyString :: lines s'
      else
        match lines s' with
        | l :: ls => String c l :: ls
        | [] => [String c EmptyString]
        end
  end.

(** The line terminators of a text, in order. *)
Fixpoint terminators (s : string) : list ascii :=
  match s with
  | EmptyString => []
  | String c s' =>
      if is_line_terminator c then c :: terminators s' else terminators s'
  end.

(** The text up to its first line terminator, and the text from there. *)
Fixpoint first_line (s : string) : string :=
  match s with
  | EmptyString => EmptyString
  | String c s' =>
      if is_line_terminator c then EmptyString else String c (first_line s')
  end.

Fixpoint after_line (s : string) : string :=
  match s with
  | EmptyString => EmptyString
  | String c s' => if is_line_terminator c then s else after_line s'
  end.

(** No character of [s] is a line terminator. *)
Definition one_line (s : string) : Prop := any is_line_terminator s = false.

(** The pattern [p] matches the whole of [l]. *)
Definition line_matches (p : list atom) (l : string) : bool :=
  match match_here p l with
  | Some EmptyString => true
  | _ => false
  end.

(** No atom of the pattern matches a line terminator. *)
Definition plain_atom (a : atom) : Prop :=
  match a with
  | Lit c => is_line_terminator c = false
  | AnyChar => True
  end.

Lemma lines_nonempty (s : string) : lines s <> [].
Proof.
  induction s as [|c s IH]; simpl; [discriminate|].
  destruct (is_line_terminator c); [discriminate|].
  now destruct (lines s).
Qed.

Lemma split_line (s : string) : s = first_line s ++ after_line s.
Proof.
  induction s as [|c s IH]; simpl; [reflexivity|].
  destruct (is_line_terminator c); simpl; [reflexivity | now f_equal].
Qed.

Lemma first_line_one_line (s : string) : one_line (first_line s).
Proof.
  unfold one_line. induction s as [|c s IH]; simpl; [reflexivity|].
  destruct (is_line_terminator c) eqn:Hc; simpl; [reflexivity|].
  now rewrite Hc.
Qed.

Lemma after_line_at_end (s : string) : at_line_end (after_line s) = true.
Proof.
  induction s as [|c s IH]; simpl; [reflexivity|].
  destruct (is_line_terminator c) eqn:Hc; simpl; assumption.
Qed.

Lemma after_line_length (s : string) :
  String.length (after_line s) <= String.length s.
Proof.
  induction s as [|c s IH]; simpl; [lia|].
  destruct (is_line_terminator c); simpl; lia.
Qed.

Lemma lines_one_line (l : string) : one_line l -> lines l = [l].
Proof.
  unfold one_line. induction l as [|c l IH]; simpl; [reflexivity|].
  intros H. apply orb_false_iff in H as [Hc Hl].
  rewrite Hc, IH by assumption. reflexivity.
Qed.

Lemma lines_append_terminator (l : string) (c : ascii) (r : string) :
  one_line l -> is_line_terminator c = true ->
  lines (l ++ String c r) = l :: lines r.
Proof.
  unfold one_line. intros Hl Hc.
  induction l as [|x l IH]; simpl.
  - now rewrite Hc.
  - simpl in Hl. apply orb_false_iff in Hl as [Hx Hl].
    rewrite Hx, IH by assumption. reflexivity.
Qed.

Lemma terminators_one_line (l : string) : one_line l -> terminators l = [].
Proof.
  unfold one_line. induction l as [|c l IH]; simpl; [reflexivity|].
  intros H. apply orb_false_iff in H as [Hc Hl]. now rewrite Hc, IH.
Qed.

Lemma terminators_append (a b : string) :
  terminators (a ++ b) = (terminators a ++ terminators b)%list.
Proof.
  induction a as [|c a IH]; simpl; [reflexivity|].
  destruct (is_line_terminator c); simpl; now rewrite IH.
Qed.

(** A replacement text without dollar is taken as it is. *)
Lemma expand_plain (repl matched before after : string) :
  mem "$" repl = false -> expand repl matched before after = repl.
Proof.
  induction repl as [|c r IH]; simpl; [reflexivity|].
  intros H. apply orb_false_iff in H as [Hc Hr].
  destruct (Ascii.eqb_spec c "$") as [->|Hne]; [discriminate|].
  rewrite IH by assumption.
  destruct c as [[] [] [] [] [] [] [] []]; try reflexivity.
  now contradiction Hne.
Qed.

Section OnePattern.

Variable p : list atom.
Variable repl : string.
Hypothesis p_plain : Forall plain_atom p.
Hypothesis p_nonempty : p <> [].
Hypothesis repl_no_dollar : mem "$" repl = false.

(** The replacement of one line. *)
Definition replace_line (l : string) : string :=
  if line_matches p l then repl else l.

Lemma plain_atom_no_terminator (a : atom) (c : ascii) :
  plain_atom a -> is_line_terminator c = true -> atom_matches a c = false.
Proof.
  destruct a as [x|]; simpl; intros Ha Hc.
  - destruct (Ascii.eqb_spec x c) as [->|]; [congruence | reflexivity].
  - now rewrite Hc.
Qed.

(** Matching at the start of a line: the pattern takes the whole line or
    there is no match. *)
Lemma match_here_line (q : list atom) (l r : string) :
  Forall plain_atom q -> one_line l -> at_line_end r = true ->
  match match_here q (l ++ r) with
  | Some rest => if at_line_end rest then Some rest else None
  | None => None
  end = if line_matches q l then Some r else None.
Proof.
  unfold one_line, line_matches. intros Hq. revert l.
  induction Hq as [|a q Ha Hq IH]; intros l Hl Hr.
  - simpl. destruct l as [|c l]; simpl.
    + now rewrite Hr.
    + simpl in Hl. apply orb_false_iff in Hl as [Hc _]. now rewrite Hc.
  - destruct l as [|c l]; simpl.
    + destruct r as [|c r]; [reflexivity|]. simpl in Hr.
      now rewrite plain_atom_no_terminator by assumption.
    + simpl in Hl. apply orb_false_iff in Hl as [_ Hl].
      destruct (atom_matches a c); [now apply IH | reflexivity].
Qed.

Lemma match_at_line (l r : string) :
  one_line l -> at_line_end r = true ->
  match_at p true (l ++ r) = if line_matches p l then Some r else None.
Proof. intros Hl Hr. unfold match_at. now apply match_here_line. Qed.

Lemma line_matches_length (q : list atom) (l : string) :
  line_matches q l = true -> String.length l = List.length q.
Proof.
  unfold line_matches. revert l. induction q as [|a q IH]; intros l; simpl.
  - destruct l; [reflexivity | discriminate].
  - destruct l as [|c l]; [discriminate|].
    destruct (atom_matches a c); [|discriminate].
    intros H. simpl. f_equal. now apply IH.
Qed.

(** Passing over the characters of a match. *)
Lemma replace_from_skip (x r before : string) (bol : bool) :
  one_line x ->
  replace_from p repl before bol (String.length x) (x ++ r) =
  replace_from p repl (before ++ x)
               (match x with EmptyString => bol | _ => false end) O r.
Proof.
  unfold one_line. revert before bol.
  induction x as [|c x IH]; intros before bol Hx.
  - simpl. now rewrite append_nil_r.
  - simpl in Hx. apply orb_false_iff in Hx as [Hc Hx].
    cbn [String.length append replace_from]. rewrite IH by assumption.
    rewrite Hc, append_assoc. simpl. now destruct x.
Qed.

(** Inside a line nothing matches: the characters are copied. *)
Lemma replace_from_inside (l r before : string) :
  one_line l ->
  replace_from p repl before false O (l ++ r) =
  l ++ replace_from p repl (before ++ l) false O r.
Proof.
  unfold one_line. revert before.
  induction l as [|c l IH]; intros before Hl.
  - simpl. now rewrite append_nil_r.
  - simpl in Hl. apply orb_false_iff in Hl as [Hc Hl].
    cbn [append replace_from match_at]. rewrite Hc, IH by assumption.
    now rewrite append_assoc.
Qed.

(** At a line terminator nothing matches either. *)
Lemma replace_from_terminator (c : ascii) (r before : string) (bol : bool) :
  is_line_terminator c = true ->
  replace_from p repl before bol O (String c r) =
  String c (replace_from p repl (before ++ String c EmptyString) true O r).
Proof.
  intros Hc. cbn [replace_from].
  assert (Hno : match_at p bol (String c r) = None).
  { unfold match_at. destruct bol; [|reflexivity].
    destruct p as [|a q]; [contradiction|].
    inversion p_plain as [|? ? Ha _]; subst. simpl.
    now rewrite plain_atom_no_terminator by assumption. }
  now rewrite Hno, Hc.
Qed.

(** From the start of a line to its end. *)
Lemma replace_from_line (l r before : string) :
  one_line l -> at_line_end r = true ->
  replace_from p repl before true O (l ++ r) =
  replace_line l ++
  replace_from p repl (before ++ l) false O r.
Proof.
  intros Hl Hr. unfold replace_line.
  pose proof (match_at_line l r Hl Hr) as Hmatch.
  destruct (line_matches p l) eqn:Hm.
  - pose proof Hm as Hlen. apply line_matches_length in Hlen.
    destruct l as [|c l].
    { destruct p; [contradiction | discriminate]. }
    unfold one_line in Hl. simpl in Hl.
    apply orb_false_iff in Hl as [Hc Hl].
    cbn [append] in *. cbn [replace_from]. rewrite Hmatch.
    rewrite expand_plain by assumption. f_equal.
    destruct p as [|a q] eqn:Hp; [contradiction|].
    simpl in Hlen. injection Hlen as Hlen. rewrite <- Hlen, <- Hp.
    rewrite replace_from_skip by assumption.
    rewrite Hc, append_assoc. simpl. now destruct l.
  - destruct l as [|c l].
    + simpl. rewrite append_nil_r. destruct r as [|c r].
      * cbn [replace_from]. unfold match_at.
        destruct p as [|a q]; [contradiction | reflexivity].
      * simpl in Hr. now rewrite !replace_from_terminator by assumption.
    + unfold one_line in Hl. simpl in Hl.
      apply orb_false_iff in Hl as [Hc Hl].
      cbn [append] in *. cbn [replace_from]. rewrite Hmatch.
      rewrite Hc, replace_from_inside by assumption.
      now rewrite append_assoc.
Qed.

Hypothesis repl_one_line : one_line repl.

Lemma replace_line_one_line (l : string) :
  one_line l -> one_line (replace_line l).
Proof. intros Hl. unfold replace_line. now destruct (line_matches p l). Qed.

Lemma replace_from_lines (s : string) :
  forall before,
    lines (replace_from p repl before true O s) = map replace_line (lines s) /\
    terminators (replace_from p repl before true O s) = terminators s.
Proof.
  induction s as [s IH] using (induction_ltof1 _ String.length).
  intros before.
  pose proof (first_line_one_line s) as Hl.
  pose proof (after_line_at_end s) as Hr.
  pose proof (after_line_length s) as Hlr.
  rewrite (split_line s) at 1 2 3 4.
  rewrite replace_from_line by assumption.
  pose proof (replace_line_one_line _ Hl) as Hrl.
  destruct (after_line s) as [|c r] eqn:Hal.
  - cbn [replace_from match_at]. rewrite !append_nil_r.
    rewrite !lines_one_line, !terminators_one_line by assumption. auto.
  - simpl in Hr. rewrite replace_from_terminator by assumption.
    rewrite !lines_append_terminator, !terminators_append by assumption.
    rewrite !terminators_one_line by assumption.
    simpl terminators. rewrite Hr.
    destruct (IH r) with (before := (before ++ first_line s) ++ String c "")
      as [IH1 IH2].
    { unfold ltof. simpl in Hlr. lia. }
    rewrite IH1, IH2, (terminators_one_line _ Hl). auto.
Qed.

(** [input.replace(/^p$/gm, repl)] replaces the lines that [p] matches
    and leaves the other lines and all line terminators. *)
Lemma replace_lines (input : string) :
  lines (replace input p repl) = map replace_line (lines input) /\
  terminators (replace input p repl) = terminators input.
Proof. unfold replace. apply replace_from_lines. Qed.

End OnePattern.

End RegExpFacts.

(* ================================================================== *)
(** * The manifest rewriter *)
(* ================================================================== *)

Module RewriteFacts.

Import JsString StringFacts RegExp RegExpFacts Upload.

(** ** [path.dirname] of [<dir>/<file>] *)

Lemma dirname_loop_SS (p : string) (j : nat) (ms : bool) :
  Path.dirname_loop p (S (S j)) ms =
  match get (S j) p with
  | None => None
  | Some code =>
      if (code =? Path.slash)%char then
        if negb ms then Some (S j) else Path.dirname_loop p (S j) ms
      else Path.dirname_loop p (S j) false
  end.
Proof. reflexivity. Qed.

Lemma dirname_loop_file (d t : string) (m : nat) :
  String.length d = S m ->
  mem Path.slash t = false ->
  forall k ms,
    k <= String.length t -> (k = 0 -> ms = false) ->
    Path.dirname_loop (d ++ String Path.slash t) (S (S (k + m))) ms
    = Some (S m).
Proof.
  intros Hd Ht. induction k as [|k IH]; intros ms Hk Hms.
  - rewrite dirname_loop_SS. simpl Nat.add.
    rewrite <- Hd, <- (Nat.add_0_r (String.length d)), get_append_r.
    simpl. rewrite (Hms eq_refl). reflexivity.
  - rewrite dirname_loop_SS.
    replace (S (S k + m)) with (String.length d + S k) by lia.
    rewrite get_append_r. simpl get.
    destruct (get_in_range t k) as [x Hx]; [lia|]. rewrite Hx.
    pose proof (get_not_mem _ _ _ _ Ht Hx) as Hne.
    apply Ascii.eqb_neq in Hne. rewrite Hne.
    replace (String.length d + S k) with (S (S (k + m))) by lia.
    apply IH; [lia | reflexivity].
Qed.

Lemma dirname_file (d t : string) :
  d <> "" -> mem Path.slash d = false ->
  t <> "" -> mem Path.slash t = false ->
  Path.dirname (d ++ "/" ++ t) = d.
Proof.
  intros Hd Hsd Ht Hst.
  destruct d as [|c d]; [contradiction|].
  simpl in Hsd. apply orb_false_iff in Hsd as [Hc Hsd].
  unfold Path.dirname. cbn [append].
  change (String c (d ++ String "/" t))
    with (String c d ++ String Path.slash t).
  rewrite length_append. cbn [String.length].
  replace (S (String.length d) + S (String.length t))
    with (S (S (String.length t + String.length d))) by lia.
  rewrite (dirname_loop_file (String c d) t (String.length d));
    [ | reflexivity | assumption | lia
      | intros H0; destruct t; [contradiction | discriminate] ].
  assert (Hroot : Path.hasRoot (String c d ++ String Path.slash t) = false).
  { simpl. unfold Path.slash in *. exact Hc. }
  rewrite Hroot. cbn [andb]. unfold Path.slice. rewrite Nat.sub_0_r.
  change (S (String.length d)) with (String.length (String c d)).
  apply substring_append_l.
Qed.

Lemma dirname_playlist (d : string) :
  d <> "" -> mem Path.slash d = false ->
  Path.dirname (d ++ "/playlist.m3u8") = d.
Proof.
  intros Hd Hs.
  apply (dirname_file d "playlist.m3u8"); (assumption || discriminate || reflexivity).
Qed.

(** ** Names that are patterns for themselves *)

(** A directory name that is one segment and has no pattern syntax, no
    dot and no line terminator, as [stream_0]. *)
Definition plain_name (d : string) : Prop :=
  d <> "" /\ mem Path.slash d = false /\
  any syntax_character d = false /\ mem "." d = false /\ one_line d.

(** A blob identifier without dollar and line terminator. *)
Definition plain_id (id : string) : Prop :=
  mem "$" id = false /\ one_line id.

Lemma compile_literal (d : string) :
  any syntax_character d = false -> mem "." d = false ->
  compile d = Some (literal d).
Proof.
  induction d as [|c d IH]; simpl; [reflexivity|].
  intros Hs Hd. apply orb_false_iff in Hs as [Hc Hs].
  apply orb_false_iff in Hd as [Hdot Hd].
  rewrite Hc, IH, Hdot by assumption. reflexivity.
Qed.

Lemma literal_app (a b : string) :
  literal (a ++ b) = (literal a ++ literal b)%list.
Proof. induction a as [|c a IH]; simpl; [reflexivity | now rewrite IH]. Qed.

Lemma literal_plain (k : string) : one_line k -> Forall plain_atom (literal k).
Proof.
  unfold one_line. induction k as [|c k IH]; simpl; intros H; constructor.
  - apply orb_false_iff in H as [Hc _]. exact Hc.
  - apply orb_false_iff in H as [_ Hk]. now apply IH.
Qed.

Lemma line_matches_literal (k l : string) :
  line_matches (literal k) l = (l =? k).
Proof.
  unfold line_matches. revert l.
  induction k as [|c k IH]; intros [|x l]; simpl; try reflexivity.
  destruct (Ascii.eqb_spec c x) as [->|Hne].
  - rewrite IH. rewrite Ascii.eqb_refl. reflexivity.
  - rewrite (proj2 (Ascii.eqb_neq x c)) by congruence. reflexivity.
Qed.

(** ** Retrieval URLs *)

Lemma blobUrl_no_dollar (id : string) :
  mem "$" id = false -> mem "$" (blobUrl id) = false.
Proof.
  intros H. unfold blobUrl. rewrite !mem_append, H. reflexivity.
Qed.

Lemma blobUrl_one_line (id : string) : one_line id -> one_line (blobUrl id).
Proof.
  unfold one_line, blobUrl. intros H. rewrite !any_append, H. reflexivity.
Qed.

(** Two paths with equal first segments. *)
Lemma first_segment_inj (a b x y : string) :
  mem Path.slash a = false -> mem Path.slash b = false ->
  a ++ String Path.slash x = b ++ String Path.slash y ->
  a = b /\ x = y.
Proof.
  revert b. induction a as [|c a IH]; intros [|e b] Ha Hb H; simpl in *.
  - injection H as ->. auto.
  - injection H as <- _. now rewrite Ascii.eqb_refl in Hb.
  - injection H as -> _. now rewrite Ascii.eqb_refl in Ha.
  - injection H as -> H.
    apply orb_false_iff in Ha as [_ Ha]. apply orb_false_iff in Hb as [_ Hb].
    destruct (IH b Ha Hb H) as [-> ->]. auto.
Qed.

(** A retrieval URL is no path [<dir>/playlist.m3u8]. *)
Lemma blobUrl_not_playlist_path (id d : string) :
  mem Path.slash d = false -> blobUrl id <> d ++ "/playlist.m3u8".
Proof.
  intros Hd H.
  change (blobUrl id)
    with ("https:" ++ String Path.slash
            ("/aggregator.walrus-testnet.walrus.space/v1/blobs" ++ "/" ++ id))
    in H.
  apply first_segment_inj in H as [_ H]; [discriminate | reflexivity | assumption].
Qed.

(** ** The master-manifest pass *)

(** What the pass makes of one line: the line of a mapped sub-manifest
    path becomes the retrieval URL of its blob. *)
Definition master_line (blobMappings : BlobMapping) (l : string) : string :=
  if endsWith l "playlist.m3u8" then
    match Assoc.get l blobMappings with
    | Some id => blobUrl id
    | None => l
    end
  else l.

(** The sub-manifest entries of the mapping are [<dir>/playlist.m3u8]
    for plain directory names, with plain identifiers. *)
Definition playlist_keys_plain (blobMappings : BlobMapping) : Prop :=
  forall k id,
    In (k, id) blobMappings -> endsWith k "playlist.m3u8" = true ->
    (exists d, k = d ++ "/playlist.m3u8" /\ plain_name d) /\ plain_id id.

Lemma master_line_url (blobMappings : BlobMapping) (id : string) :
  playlist_keys_plain blobMappings ->
  master_line blobMappings (blobUrl id) = blobUrl id.
Proof.
  intros Hkeys. unfold master_line.
  destruct (endsWith (blobUrl id) "playlist.m3u8") eqn:He; [|reflexivity].
  destruct (Assoc.get (blobUrl id) blobMappings) as [id'|] eqn:Hg;
    [|reflexivity].
  apply AssocFacts.get_In in Hg.
  destruct (Hkeys _ _ Hg He) as [(d & Hk & Hd) _].
  exfalso. apply (blobUrl_not_playlist_path id d); [apply Hd | exact Hk].
Qed.

Lemma replacePlaylistReferences_lines (blobMappings : BlobMapping) :
  playlist_keys_plain blobMappings ->
  forall masterContent,
  exists out,
    replacePlaylistReferences blobMappings masterContent = Ok out /\
    lines out = map (master_line blobMappings) (lines masterContent) /\
    terminators out = terminators masterContent.
Proof.
  induction blobMappings as [|[k id] rest IH]; intros Hkeys content.
  - exists content. simpl. split; [reflexivity|]. split; [|reflexivity].
    rewrite <- (map_id (lines content)) at 1. apply map_ext.
    intros l. unfold master_line. now destruct (endsWith l "playlist.m3u8").
  - assert (Hrest : playlist_keys_plain rest).
    { intros k' id' Hin. apply Hkeys. now right. }
    cbn [replacePlaylistReferences].
    destruct (endsWith k "playlist.m3u8") eqn:He.
    + destruct (Hkeys k id (or_introl eq_refl) He)
        as [(d & -> & Hd) [Hdollar Hline]].
      destruct Hd as (Hne & Hslash & Hsyn & Hdot & Hdline).
      rewrite dirname_playlist by assumption.
      rewrite (compile_literal d Hsyn Hdot). cbn [of_option bind].
      rewrite <- literal_app.
      set (k := d ++ "/playlist.m3u8") in *.
      assert (Hk : one_line k).
      { unfold one_line, k. rewrite any_append. unfold one_line in Hdline.
        now rewrite Hdline. }
      assert (Hp : literal k <> []).
      { unfold k. destruct d; [contradiction | discriminate]. }
      destruct (replace_lines (literal k) (blobUrl id)
                  (literal_plain k Hk) Hp (blobUrl_no_dollar id Hdollar)
                  (blobUrl_one_line id Hline) content) as [Hl Ht].
      destruct (IH Hrest (replace content (literal k) (blobUrl id)))
        as (out & Hout & Hlines & Hterm).
      exists out. split; [exact Hout|]. split; [|congruence].
      rewrite Hlines, Hl, map_map. apply map_ext. intros l.
      unfold replace_line. rewrite line_matches_literal.
      destruct (String.eqb_spec l k) as [->|Hlk].
      * rewrite (master_line_url rest id Hrest).
        unfold master_line. rewrite He. simpl. now rewrite String.eqb_refl.
      * unfold master_line. simpl.
        destruct (String.eqb_spec k l); [congruence | reflexivity].
    + destruct (IH Hrest content) as (out & Hout & Hlines & Hterm).
      exists out. split; [exact Hout|]. split; [|exact Hterm].
      rewrite Hlines. apply map_ext. intros l.
      unfold master_line. simpl.
      destruct (endsWith l "playlist.m3u8") eqn:Hel; [|reflexivity].
      destruct (String.eqb_spec k l); [congruence | reflexivity].
Qed.

(** The master pass on plain names.  When the sub-manifest entries of
    the blob mapping are [<dir>/playlist.m3u8] for rendition directories
    whose names have no pattern syntax, no dot and no line terminator (as
    [stream_0]), with identifiers without dollar and line terminator, the
    master-manifest pass succeeds and every line of the master manifest
    that was equal to [<dir>/playlist.m3u8], for a directory whose
    sub-manifest has an entry in the mapping, is
    [https://aggregator.walrus-testnet.walrus.space/v1/blobs/<id>] for
    the identifier of that entry afterwards; the other lines and the line
    terminators stay. *)
Theorem master_pass_rewrites_playlist_lines :
  forall (blobMappings : BlobMapping) (masterContent : string),
    playlist_keys_plain blobMappings ->
    exists out,
      replacePlaylistReferences blobMappings masterContent = Ok out /\
      lines out = map (master_line blobMappings) (lines masterContent) /\
      terminators out = terminators masterContent /\
      (forall d id,
          Assoc.get (d ++ "/playlist.m3u8") blobMappings = Some id ->
          master_line blobMappings (d ++ "/playlist.m3u8")
          = "https://aggregator.walrus-testnet.walrus.space/v1/blobs/"
            ++ id) /\
      (forall l,
          Assoc.get l blobMappings = None ->
          master_line blobMappings l = l).
Proof.
  intros blobMappings masterContent Hkeys.
  destruct (replacePlaylistReferences_lines blobMappings Hkeys masterContent)
    as (out & Hout & Hlines & Hterm).
  exists out. repeat split; try assumption.
  - intros d id Hget. unfold master_line.
    assert (He : endsWith (d ++ "/playlist.m3u8") "playlist.m3u8" = true).
    { apply endsWith_iff. exists (d ++ "/"). now rewrite append_assoc. }
    rewrite He, Hget. reflexivity.
  - intros l Hget. unfold master_line. rewrite Hget.
    now destruct (endsWith l "playlist.m3u8").
Qed.

Definition lf : string := String "010" EmptyString.

Definition sample_master : string :=
  "#EXTM3U" ++ lf ++
  "#EXT-X-STREAM-INF:BANDWIDTH=5000000" ++ lf ++
  "stream_0/playlist.m3u8" ++ lf ++
  "#EXT-X-STREAM-INF:BANDWIDTH=2800000" ++ lf ++
  "stream_1/playlist.m3u8" ++ lf.

Definition sample_mapping : BlobMapping :=
  [ ("stream_0/data000.ts", "seg0");
    ("stream_0/playlist.m3u8", "list0");
    ("stream_1/playlist.m3u8", "list1") ].

Lemma stream_0_plain : plain_name "stream_0".
Proof. repeat split; try reflexivity. discriminate. Qed.

Lemma stream_1_plain : plain_name "stream_1".
Proof. repeat split; try reflexivity. discriminate. Qed.

Lemma master_pass_rewrites_playlist_lines_witness :
  exists out,
    replacePlaylistReferences sample_mapping sample_master = Ok out /\
    lines out = map (master_line sample_mapping) (lines sample_master) /\
    terminators out = terminators sample_master /\
    (forall d id,
        Assoc.get (d ++ "/playlist.m3u8") sample_mapping = Some id ->
        master_line sample_mapping (d ++ "/playlist.m3u8")
        = "https://aggregator.walrus-testnet.walrus.space/v1/blobs/"
          ++ id) /\
    (forall l,
        Assoc.get l sample_mapping = None ->
        master_line sample_mapping l = l).
Proof.
  apply (master_pass_rewrites_playlist_lines sample_mapping sample_master).
  intros k id [[= <- <-]|[[= <- <-]|[[= <- <-]|[]]]] He.
  - vm_compute in He. discriminate.
  - split; [exists "stream_0"; split; [reflexivity|]|];
      repeat split; try reflexivity; discriminate.
  - split; [exists "stream_1"; split; [reflexivity|]|];
      repeat split; try reflexivity; discriminate.
Defined.

(** The rewritten sample: both references are retrieval URLs. *)
Example master_pass_sample :
  replacePlaylistReferences sample_mapping sample_master =
  Ok ("#EXTM3U" ++ lf ++
      "#EXT-X-STREAM-INF:BANDWIDTH=5000000" ++ lf ++
      blobUrl "list0" ++ lf ++
      "#EXT-X-STREAM-INF:BANDWIDTH=2800000" ++ lf ++
      blobUrl "list1" ++ lf).
Proof. vm_compute. reflexivity. Qed.

(** ** The sub-manifest pass *)

(** The entries the pass looks at for one rendition directory. *)
Definition own_segment (streamDir : string) (e : string * string) : bool :=
  startsWith (fst e) (streamDir ++ "/") && endsWith (fst e) ".ts".

Lemma updatePlaylistContent_loop_filter (streamDir : string)
      (keep : string * string -> bool) (entries : list (string * string)) :
  (forall e, In e entries -> own_segment streamDir e = true -> keep e = true) ->
  forall content,
    updatePlaylistContent_loop streamDir entries content =
    updatePlaylistContent_loop streamDir (filter keep entries) content.
Proof.
  induction entries as [|[k id] rest IH]; intros Hkeep content;
    [reflexivity|].
  assert (Hrest : forall e, In e rest ->
                            own_segment streamDir e = true -> keep e = true).
  { intros e He. apply Hkeep. now right. }
  cbn [updatePlaylistContent_loop filter].
  destruct (startsWith k (streamDir ++ "/") && endsWith k ".ts") eqn:Hown.
  - rewrite (Hkeep (k, id) (or_introl eq_refl) Hown).
    cbn [updatePlaylistContent_loop]. rewrite Hown.
    destruct (compile (Path.basename k)) as [p|]; [|reflexivity].
    cbn [of_option bind]. now apply IH.
  - destruct (keep (k, id)).
    + cbn [updatePlaylistContent_loop]. rewrite Hown. now apply IH.
    + now apply IH.
Qed.

(** Claim C10.  The sub-manifest pass looks only at the entries of the
    mapping that lie under the rendition directory and end with [.ts]:
    the entries under other directories can be dropped without changing
    the result, and when no entry is both under the directory and a
    segment the text comes back as it was. *)
Theorem updatePlaylistContent_ignores_other_entries :
  forall (playlistContent streamDir : string) (blobMappings : BlobMapping),
    updatePlaylistContent playlistContent streamDir blobMappings =
    updatePlaylistContent playlistContent streamDir
      (filter (fun e => startsWith (fst e) (streamDir ++ "/")) blobMappings) /\
    ((forall e, In e blobMappings -> own_segment streamDir e = false) ->
     updatePlaylistContent playlistContent streamDir blobMappings
     = Ok playlistContent).
Proof.
  intros content streamDir bm. unfold updatePlaylistContent. split.
  - apply updatePlaylistContent_loop_filter.
    intros e _ Hown. unfold own_segment in Hown.
    now apply andb_true_iff in Hown as [Hs _].
  - intros Hnone.
    rewrite (updatePlaylistContent_loop_filter streamDir (fun _ => false)).
    + clear Hnone. now induction bm.
    + intros e He Hown. rewrite (Hnone e He) in Hown. discriminate.
Qed.

Definition sample_playlist : string :=
  "#EXTM3U" ++ lf ++ "#EXTINF:10.0," ++ lf ++ "data000.ts" ++ lf.

Lemma updatePlaylistContent_ignores_other_entries_witness :
  updatePlaylistContent sample_playlist "stream_1" sample_mapping =
  updatePlaylistContent sample_playlist "stream_1"
    (filter (fun e => startsWith (fst e) ("stream_1" ++ "/")) sample_mapping) /\
  updatePlaylistContent sample_playlist "stream_1" sample_mapping
  = Ok sample_playlist.
Proof.
  destruct (updatePlaylistContent_ignores_other_entries
              sample_playlist "stream_1" sample_mapping) as [Hfilter Hid].
  split; [exact Hfilter|]. apply Hid.
  intros e [<-|[<-|[<-|[]]]]; vm_compute; reflexivity.
Defined.

(** Claim C3 and the code.  The file name is pasted into the pattern as
    it is, so its dot matches any character: the line [data000xts] is no
    segment file name, yet the pass replaces it by the retrieval URL of
    [stream_0/data000.ts]. *)
Theorem updatePlaylistContent_dot_matches_any_character :
  updatePlaylistContent
    ("#EXTINF:10.0," ++ lf ++ "data000xts" ++ lf ++ "data000.ts" ++ lf)
    "stream_0" [("stream_0/data000.ts", "seg0")]
  = Ok ("#EXTINF:10.0," ++ lf ++ blobUrl "seg0" ++ lf ++
        blobUrl "seg0" ++ lf).
Proof. vm_compute. reflexivity. Qed.

End RewriteFacts.

(* ================================================================== *)
(** * Writing and deleting in the file tree *)
(* ================================================================== *)

Module TreeFacts.

Import JsString StringFacts.

Definition temp_playlist : string := "temp_playlist.m3u8".
Definition temp_master : string := "temp_master.m3u8".

Lemma valid_playlist : Fs.valid_name "playlist.m3u8".
Proof. split; [discriminate | reflexivity]. Qed.

Lemma valid_temp_playlist : Fs.valid_name temp_playlist.
Proof. split; [discriminate | reflexivity]. Qed.

Lemma valid_temp_master : Fs.valid_name temp_master.
Proof. split; [discriminate | reflexivity]. Qed.

Lemma valid_master : Fs.valid_name "master.m3u8".
Proof. split; [discriminate | reflexivity]. Qed.

(** [existsSync] of a file of a directory under the root. *)
Lemma exists_two (fs : Fs.directory) (d f : string) :
  Fs.valid_name d -> Fs.valid_name f ->
  Fs.existsSync fs (d ++ "/" ++ f) =
  match Assoc.get d fs with
  | Some (Fs.Dir es) =>
      match Assoc.get f es with Some _ => true | None => false end
  | _ => false
  end.
Proof.
  intros Hd Hf. unfold Fs.existsSync. rewrite FsFacts.stat_two by assumption.
  now destruct (Assoc.get d fs) as [[c|es]|].
Qed.


(** A successful write into a directory under the root. *)
Lemma write_two (fs fs' : Fs.directory) (d f c : string) :
  Fs.valid_name d -> Fs.valid_name f ->
  Fs.writeFileSync fs (d ++ "/" ++ f) c = Some fs' ->
  exists es,
    Assoc.get d fs = Some (Fs.Dir es) /\
    fs' = Assoc.set d (Fs.Dir (Assoc.set f (Fs.File c) es)) fs.
Proof.
  intros Hd Hf. unfold Fs.writeFileSync.
  rewrite PathFacts.segments_two by assumption. simpl.
  destruct (Assoc.get d fs) as [[x|es]|]; try discriminate.
  intros H. exists es. split; [reflexivity|].
  destruct (Assoc.get f es) as [[y|sub]|]; try discriminate;
    now injection H as <-.
Qed.

(** A successful deletion in a directory under the root. *)
Lemma unlink_two (fs fs' : Fs.directory) (d f : string) :
  Fs.valid_name d -> Fs.valid_name f ->
  Fs.unlinkSync fs (d ++ "/" ++ f) = Some fs' ->
  exists es,
    Assoc.get d fs = Some (Fs.Dir es) /\
    fs' = Assoc.set d (Fs.Dir (Assoc.remove f es)) fs.
Proof.
  intros Hd Hf. unfold Fs.unlinkSync.
  rewrite PathFacts.segments_two by assumption. simpl.
  destruct (Assoc.get d fs) as [[x|es]|]; try discriminate.
  intros H. exists es. split; [reflexivity|].
  destruct (Assoc.get f es) as [[y|sub]|]; try discriminate.
  now injection H as <-.
Qed.

(** A successful write and a successful deletion at the root. *)
Lemma write_name (fs fs' : Fs.directory) (n c : string) :
  Fs.valid_name n ->
  Fs.writeFileSync fs n c = Some fs' ->
  fs' = Assoc.set n (Fs.File c) fs.
Proof.
  intros Hn. unfold Fs.writeFileSync.
  rewrite PathFacts.segments_name by assumption. simpl.
  destruct (Assoc.get n fs) as [[x|es]|]; try discriminate;
    intros H; now injection H as <-.
Qed.

Lemma unlink_name (fs fs' : Fs.directory) (n : string) :
  Fs.valid_name n ->
  Fs.unlinkSync fs n = Some fs' ->
  fs' = Assoc.remove n fs.
Proof.
  intros Hn. unfold Fs.unlinkSync.
  rewrite PathFacts.segments_name by assumption. simpl.
  destruct (Assoc.get n fs) as [[x|es]|]; try discriminate.
  intros H; now injection H as <-.
Qed.

Lemma exists_name (fs : Fs.directory) (n : string) :
  Fs.valid_name n ->
  Fs.existsSync fs n =
  match Assoc.get n fs with Some _ => true | None => false end.
Proof.
  intros Hn. unfold Fs.existsSync. now rewrite FsFacts.stat_name.
Qed.

Lemma read_name (fs : Fs.directory) (n : string) :
  Fs.valid_name n ->
  Fs.readFileSync fs n =
  match Assoc.get n fs with Some (Fs.File c) => Some c | _ => None end.
Proof.
  intros Hn. unfold Fs.readFileSync. now rewrite FsFacts.stat_name.
Qed.

End TreeFacts.

(* ================================================================== *)
(** * A full run of the pipeline *)
(* ================================================================== *)

Module PipelineFacts.

Import JsString StringFacts Upload TreeFacts UploaderFacts.

(** The paths of the sub-manifest of a rendition directory and of its
    rewritten copy. *)
Definition playlist_of (d : string) : string := d ++ "/playlist.m3u8".
Definition temp_of (d : string) : string := d ++ "/temp_playlist.m3u8".

(** The directory [d] under the root has a [playlist.m3u8]. *)
Definition hasPlaylist (fs : Fs.directory) (d : string) : bool :=
  match Assoc.get d fs with
  | Some (Fs.Dir es) =>
      match Assoc.get "playlist.m3u8" es with Some _ => true | None => false end
  | _ => false
  end.

(** The storage client answers what it is asked: its results name only
    paths it was given, carry non-empty identifiers, and every path given
    has a result with an identifier. *)
Definition answers (paths : list string) (rs : list WalrusCLIResult) : Prop :=
  Forall nonempty_ids rs /\
  (forall r, In r rs -> In (path r) paths) /\
  (forall p, In p paths ->
             exists r, In r rs /\ path r = p /\ resolve_blobId r <> None).

Definition faithful
           (walrus_store :
              Fs.directory -> list string -> option (list WalrusCLIResult))
  : Prop :=
  forall fs paths rs, walrus_store fs paths = Some rs -> answers paths rs.

(** ** Names *)

Lemma join_playlist (d : string) :
  Fs.valid_name d -> Path.join d "playlist.m3u8" = playlist_of d.
Proof. intros Hd. now rewrite PathFacts.join_name. Qed.

Lemma join_temp (d : string) :
  Fs.valid_name d -> Path.join d "temp_playlist.m3u8" = temp_of d.
Proof. intros Hd. now rewrite PathFacts.join_name. Qed.

Lemma temp_of_inj (a b : string) : temp_of a = temp_of b -> a = b.
Proof. apply append_inv_tail. Qed.

Lemma playlist_of_inj (a b : string) : playlist_of a = playlist_of b -> a = b.
Proof. apply append_inv_tail. Qed.

Lemma playlist_of_nonempty (d : string) : playlist_of d <> "".
Proof. unfold playlist_of. destruct d; discriminate. Qed.

Lemma in_map_temp (d : string) (l : list string) :
  In (temp_of d) (map temp_of l) <-> In d l.
Proof.
  rewrite in_map_iff. split.
  - intros (x & Hx & Hin). apply temp_of_inj in Hx. now subst.
  - intros Hin. now exists d.
Qed.

Lemma exists_playlist (fs : Fs.directory) (d : string) :
  Fs.valid_name d -> Fs.existsSync fs (playlist_of d) = hasPlaylist fs d.
Proof.
  intros Hd. unfold playlist_of, hasPlaylist.
  change (d ++ "/playlist.m3u8") with (d ++ "/" ++ "playlist.m3u8").
  rewrite exists_two by (assumption || apply valid_playlist).
  reflexivity.
Qed.

(** ** The uploader under a faithful client *)

(** The paths the program hands to the client are no [__proto__]: they
    have a slash or end with a fixed file name. *)
Lemma slash_not_proto (p : string) :
  mem Path.slash p = true -> p <> "__proto__".
Proof. intros Hp ->. discriminate. Qed.

Lemma temp_of_not_proto (l : list string) : ~ In "__proto__" (map temp_of l).
Proof.
  intros Hin. apply in_map_iff in Hin as (d & Hd & _).
  revert Hd. apply slash_not_proto.
  unfold temp_of. rewrite mem_append. simpl. apply orb_true_r.
Qed.

Lemma temp_master_path_not_proto (assetsPath : string) :
  ~ In "__proto__" [Path.join assetsPath "temp_master.m3u8"].
Proof.
  intros [H|[]].
  assert (He : endsWith (Path.join assetsPath "temp_master.m3u8")
                        "temp_master.m3u8" = true).
  { unfold Path.join. destruct assetsPath as [|c a]; [reflexivity|].
    destruct (endsWith (String c a) "/").
    - apply endsWith_append.
    - change (String c a ++ "/" ++ "temp_master.m3u8")
        with (String c a ++ "/" ++ "temp_master.m3u8").
      rewrite <- append_assoc. apply endsWith_append. }
  rewrite H in He. discriminate.
Qed.

Lemma uploadToWalrus_NoDup walrus_store fs paths m :
  uploadToWalrus walrus_store fs paths = Ok m -> NoDup (Assoc.keys m).
Proof.
  unfold uploadToWalrus.
  destruct (walrus_store fs paths) as [rs|]; [|discriminate].
  simpl. intros [= <-]. apply fold_record_NoDup. constructor.
Qed.

Lemma uploadToWalrus_keys walrus_store fs paths m :
  faithful walrus_store -> ~ In "__proto__" paths ->
  uploadToWalrus walrus_store fs paths = Ok m ->
  NoDup (Assoc.keys m) /\ forall p, In p (Assoc.keys m) <-> In p paths.
Proof.
  intros Hf Hproto Hup.
  split; [now apply (uploadToWalrus_NoDup walrus_store fs paths)|].
  unfold uploadToWalrus in Hup.
  destruct (walrus_store fs paths) as [rs|] eqn:Hs; [|discriminate].
  simpl in Hup. injection Hup as <-.
  destruct (Hf _ _ _ Hs) as (Hne & Honly & Hall).
  intros p. rewrite fold_record_keys. split.
  - intros (r & Hin & <- & _). now apply Honly.
  - intros Hin. destruct (Hall p Hin) as (r & Hr & Hp & Hres).
    exists r. split; [assumption|]. split; [assumption|].
    rewrite stored_blobId_resolved; [assumption| |].
    + now apply (proj1 (Forall_forall _ _) Hne).
    + rewrite Hp. intros ->. contradiction.
Qed.

Lemma object_assign_keys (source target : BlobMapping) :
  (NoDup (Assoc.keys target) ->
   NoDup (Assoc.keys (object_assign target source))) /\
  forall p, In p (Assoc.keys (object_assign target source)) <->
            In p (Assoc.keys target) \/ In p (Assoc.keys source).
Proof.
  unfold object_assign. revert target.
  induction source as [|[k v] s IH]; intros target; simpl.
  - split; [auto | intuition].
  - destruct (IH (Assoc.set k v target)) as [IHnd IHin]. split.
    + intros Hnd. now apply IHnd, AssocFacts.NoDup_keys_set.
    + intros p. rewrite IHin, AssocFacts.keys_set. intuition.
Qed.

(** ** Deleting one temporary sub-manifest *)

Lemma cleanup_step (fs fs' : Fs.directory) (d : string) :
  Fs.valid_name d ->
  (if Fs.existsSync fs (temp_of d)
   then of_option FsError (Fs.unlinkSync fs (temp_of d))
   else Ok fs) = Ok fs' ->
  (forall n, n <> d -> Assoc.get n fs' = Assoc.get n fs) /\
  (forall es,
      Assoc.get d fs = Some (Fs.Dir es) ->
      exists es',
        Assoc.get d fs' = Some (Fs.Dir es') /\
        Assoc.get temp_playlist es' = None /\
        forall f, f <> temp_playlist -> Assoc.get f es' = Assoc.get f es).
Proof.
  intros Hd. unfold temp_of.
  change (d ++ "/temp_playlist.m3u8") with (d ++ "/" ++ temp_playlist).
  rewrite exists_two by (assumption || apply valid_temp_playlist).
  destruct (Assoc.get d fs) as [[c|es0]|] eqn:Hget;
    try (intros [= <-]; split; [reflexivity | intros es Hes; discriminate]).
  destruct (Assoc.get temp_playlist es0) as [x|] eqn:Ht.
  - destruct (Fs.unlinkSync fs (d ++ "/" ++ temp_playlist)) as [fs1|] eqn:Hu;
      [|discriminate].
    simpl. intros [= <-].
    apply unlink_two in Hu as (es1 & Hes1 & ->);
      [|assumption|apply valid_temp_playlist].
    rewrite Hget in Hes1. injection Hes1 as <-. split.
    + intros n Hn. apply AssocFacts.get_set_other. congruence.
    + intros es [= <-]. exists (Assoc.remove temp_playlist es0).
      split; [apply AssocFacts.get_set_same|].
      split; [apply AssocFacts.get_remove_same|].
      intros f Hf. apply AssocFacts.get_remove_other. congruence.
  - intros [= <-]. split; [reflexivity|].
    intros es [= <-]. exists es0. rewrite Hget. auto.
Qed.

(** ** The first loop of [processAndUploadPlaylists] *)

Lemma hasPlaylist_same (fs fs' : Fs.directory) (d : string) :
  Assoc.get d fs' = Assoc.get d fs -> hasPlaylist fs' d = hasPlaylist fs d.
Proof. unfold hasPlaylist. now intros ->. Qed.

Lemma write_temp_playlists_spec streamDirs :
  forall blobMappings fs files pm files' pm' fs',
    Forall Fs.valid_name streamDirs -> NoDup streamDirs ->
    write_temp_playlists streamDirs blobMappings fs files pm
      = Ok (files', pm', fs') ->
    let done := filter (hasPlaylist fs) streamDirs in
    files' = (files ++ map temp_of done)%list /\
    (forall d, In d done -> Assoc.get (temp_of d) pm' = Some (playlist_of d)) /\
    (forall k, ~ In k (map temp_of done) -> Assoc.get k pm' = Assoc.get k pm) /\
    (forall n, ~ In n done -> Assoc.get n fs' = Assoc.get n fs) /\
    (forall d, In d done ->
               exists es c,
                 Assoc.get d fs = Some (Fs.Dir es) /\
                 Assoc.get d fs' =
                 Some (Fs.Dir (Assoc.set temp_playlist (Fs.File c) es))).
Proof.
  induction streamDirs as [|d rest IH];
    intros bm fs files pm files' pm' fs' Hvalid Hnd Hrun.
  - simpl in Hrun. injection Hrun as <- <- <-. simpl.
    rewrite app_nil_r. repeat split; auto; intros d [].
  - inversion Hvalid as [|? ? Hd Hrest]; subst.
    inversion Hnd as [|? ? Hnotin Hnd']; subst.
    cbn [write_temp_playlists] in Hrun.
    rewrite join_playlist, join_temp, exists_playlist in Hrun by assumption.
    cbn [filter]. destruct (hasPlaylist fs d) eqn:Hp.
    + destruct (Fs.readFileSync fs (playlist_of d)) as [content|];
        [|discriminate].
      cbn [of_option bind] in Hrun.
      destruct (updatePlaylistContent content d bm) as [content'|];
        [|discriminate].
      cbn [bind] in Hrun.
      destruct (Fs.writeFileSync fs (temp_of d) content') as [fs1|] eqn:Hw;
        [|discriminate].
      cbn [of_option bind] in Hrun.
      unfold temp_of in Hw.
      change (d ++ "/temp_playlist.m3u8") with (d ++ "/" ++ temp_playlist)
        in Hw.
      apply write_two in Hw as (es & Hes & ->);
        [|assumption|apply valid_temp_playlist].
      set (fs1 := Assoc.set d
                    (Fs.Dir (Assoc.set temp_playlist (Fs.File content') es))
                    fs) in *.
      assert (Hother : forall n, n <> d -> Assoc.get n fs1 = Assoc.get n fs).
      { intros n Hn. apply AssocFacts.get_set_other. congruence. }
      assert (Hsame : filter (hasPlaylist fs1) rest
                      = filter (hasPlaylist fs) rest).
      { apply filter_ext_in. intros n Hn. apply hasPlaylist_same, Hother.
        intros ->. contradiction. }
      destruct (IH _ _ _ _ _ _ _ Hrest Hnd' Hrun)
        as (Hfiles & Hpm & Hpm' & Hfs & Hfs').
      rewrite Hsame in Hfiles, Hpm, Hpm', Hfs, Hfs'.
      assert (Hd_not : ~ In d (filter (hasPlaylist fs) rest)).
      { intros Hin. apply filter_In in Hin as [Hin _]. contradiction. }
      split; [|split; [|split; [|split]]].
      * rewrite Hfiles, <- app_assoc. reflexivity.
      * intros d0 [<-|Hin]; [|now apply Hpm].
        rewrite Hpm' by (now rewrite in_map_temp).
        apply AssocFacts.get_set_same.
      * intros k Hk. simpl in Hk.
        rewrite Hpm' by tauto.
        apply AssocFacts.get_set_other. tauto.
      * intros n Hn. simpl in Hn.
        rewrite Hfs by tauto. apply Hother. intros ->. tauto.
      * intros d0 [<-|Hin].
        -- exists es, content'. split; [assumption|].
           rewrite Hfs by assumption. apply AssocFacts.get_set_same.
        -- destruct (Hfs' d0 Hin) as (es0 & c0 & Hes0 & Hes0').
           exists es0, c0. split; [|assumption].
           rewrite <- Hes0. symmetry. apply Hother.
           intros ->. contradiction.
    + now apply (IH _ _ _ _ _ _ _ Hrest Hnd' Hrun).
Qed.

(** ** The second loop *)

Lemma remap_playlists_spec (done : list string) :
  Forall Fs.valid_name done ->
  forall entries pm blobMappings fs blobMappings' fs',
    NoDup (Assoc.keys entries) ->
    (forall k, In k (Assoc.keys entries) -> In k (map temp_of done)) ->
    (forall d, In d done -> Assoc.get (temp_of d) pm = Some (playlist_of d)) ->
    remap_playlists entries pm blobMappings fs = Ok (blobMappings', fs') ->
    (NoDup (Assoc.keys blobMappings) -> NoDup (Assoc.keys blobMappings')) /\
    (forall p, In p (Assoc.keys blobMappings') <->
               In p (Assoc.keys blobMappings) \/
               exists d, In (temp_of d) (Assoc.keys entries) /\
                         p = playlist_of d) /\
    (forall d id, In (temp_of d, id) entries ->
                  Assoc.get (playlist_of d) blobMappings' = Some id) /\
    (forall n, ~ In (temp_of n) (Assoc.keys entries) ->
               Assoc.get n fs' = Assoc.get n fs) /\
    (forall d es,
        In (temp_of d) (Assoc.keys entries) ->
        Assoc.get d fs = Some (Fs.Dir es) ->
        exists es',
          Assoc.get d fs' = Some (Fs.Dir es') /\
          Assoc.get temp_playlist es' = None /\
          forall f, f <> temp_playlist -> Assoc.get f es' = Assoc.get f es).
Proof.
  intros Hvalid.
  induction entries as [|[k id] rest IH];
    intros pm bm fs bm' fs' Hnd Hkeys Hpm Hrun.
  - simpl in Hrun. injection Hrun as <- <-. simpl.
    split; [auto|]. split; [|split; [|split]].
    + intros p. split; [auto | intros [H|(d & [] & _)]; exact H].
    + intros d id [].
    + reflexivity.
    + intros d es [].
  - simpl in Hnd. inversion Hnd as [|? ? Hnotin Hnd']; subst.
    assert (Hk : In k (map temp_of done)) by (apply Hkeys; now left).
    apply in_map_iff in Hk as (d & <- & Hd).
    pose proof (proj1 (Forall_forall _ _) Hvalid d Hd) as Hvd.
    cbn [remap_playlists] in Hrun. rewrite (Hpm d Hd) in Hrun.
    rewrite (truthy_Some _ (playlist_of_nonempty d)) in Hrun.
    destruct (if Fs.existsSync fs (temp_of d)
              then of_option FsError (Fs.unlinkSync fs (temp_of d))
              else Ok fs) as [fs1|] eqn:Hstep; [|discriminate].
    cbn [bind] in Hrun.
    destruct (cleanup_step fs fs1 d Hvd Hstep) as [Hother Hdir].
    assert (Hkeys' : forall k, In k (Assoc.keys rest) ->
                               In k (map temp_of done)).
    { intros k Hk. apply Hkeys. now right. }
    destruct (IH _ _ _ _ _ Hnd' Hkeys' Hpm Hrun)
      as (Hbnd & Hbkeys & Hbval & Hfs & Hfs').
    split; [|split; [|split; [|split]]].
    + intros Hb. now apply Hbnd, AssocFacts.NoDup_keys_set.
    + intros p. rewrite Hbkeys, AssocFacts.keys_set. simpl. split.
      * intros [[->|Hin]|(d0 & Hin & ->)].
        -- right. exists d. auto.
        -- now left.
        -- right. exists d0. auto.
      * intros [Hin|(d0 & [Heq|Hin] & ->)].
        -- left. now right.
        -- apply temp_of_inj in Heq as ->. left. now left.
        -- right. exists d0. auto.
    + intros d0 id0 [[= Heq <-]|Hin].
      * apply temp_of_inj in Heq as <-.
        (* the original path is set here and by no later entry *)
        assert (Hlater : forall entries' pm' b f b' f',
                   remap_playlists entries' pm' b f = Ok (b', f') ->
                   (forall k0, In k0 (Assoc.keys entries') ->
                               Assoc.get k0 pm' <> Some (playlist_of d)) ->
                   Assoc.get (playlist_of d) b' = Assoc.get (playlist_of d) b).
        { clear. induction entries' as [|[k0 i0] es IHes];
            intros pm' b f b' f' Hr Hno.
          - simpl in Hr. now injection Hr as <- <-.
          - cbn [remap_playlists] in Hr.
            assert (Hno' : forall k1, In k1 (Assoc.keys es) ->
                                      Assoc.get k1 pm' <> Some (playlist_of d)).
            { intros k1 Hk1. apply Hno. now right. }
            destruct (truthy (Assoc.get k0 pm')) eqn:Ht;
              [|now apply (IHes _ _ _ _ _ Hr Hno')].
            destruct (Assoc.get k0 pm') as [o|] eqn:Hg;
              [|now apply (IHes _ _ _ _ _ Hr Hno')].
            destruct (if Fs.existsSync f k0
                      then of_option FsError (Fs.unlinkSync f k0)
                      else Ok f) as [f1|]; [|discriminate].
            cbn [bind] in Hr.
            rewrite (IHes _ _ _ _ _ Hr Hno').
            apply AssocFacts.get_set_other. intros ->.
            apply (Hno k0); [now left | assumption]. }
        rewrite (Hlater _ _ _ _ _ _ Hrun).
        -- apply AssocFacts.get_set_same.
        -- intros k0 Hk0 Hget.
           pose proof (Hkeys' k0 Hk0) as Hin0.
           apply in_map_iff in Hin0 as (d1 & <- & Hd1).
           rewrite (Hpm d1 Hd1) in Hget. injection Hget as Heq.
           apply playlist_of_inj in Heq as ->. contradiction.
      * now apply Hbval.
    + intros n Hn. simpl in Hn.
      rewrite Hfs by tauto. apply Hother. intros ->. tauto.
    + intros d0 es [Heq|Hin] Hes.
      * apply temp_of_inj in Heq as <-.
        destruct (Hdir es Hes) as (es' & Hes' & Hnone & Hsame).
        exists es'. rewrite Hfs by assumption. auto.
      * assert (Hne : d0 <> d) by (intros ->; contradiction).
        apply Hfs'; [assumption|]. now rewrite Hother.
Qed.

(** ** [processAndUploadPlaylists] as a whole *)

Lemma processAndUploadPlaylists_spec walrus_store streamDirs fs :
  forall blobMappings blobMappings' fs',
    faithful walrus_store ->
    Forall Fs.valid_name streamDirs -> NoDup streamDirs ->
    processAndUploadPlaylists walrus_store streamDirs fs blobMappings
      = Ok (blobMappings', fs') ->
    let done := filter (hasPlaylist fs) streamDirs in
    (NoDup (Assoc.keys blobMappings) -> NoDup (Assoc.keys blobMappings')) /\
    (forall p, In p (Assoc.keys blobMappings') <->
               In p (Assoc.keys blobMappings) \/ In p (map playlist_of done)) /\
    (forall n, ~ In n done -> Assoc.get n fs' = Assoc.get n fs) /\
    (forall d, In d done ->
               exists es es',
                 Assoc.get d fs = Some (Fs.Dir es) /\
                 Assoc.get d fs' = Some (Fs.Dir es') /\
                 Assoc.get temp_playlist es' = None /\
                 forall f, f <> temp_playlist ->
                           Assoc.get f es' = Assoc.get f es).
Proof.
  intros bm bm' fs' Hf Hvalid Hnd Hrun. unfold processAndUploadPlaylists in Hrun.
  destruct (write_temp_playlists streamDirs bm fs [] [])
    as [[[files pm] fs1]|] eqn:Hloop1; [|discriminate].
  cbn [bind] in Hrun.
  destruct (write_temp_playlists_spec _ _ _ _ _ _ _ _ Hvalid Hnd Hloop1)
    as (Hfiles & Hpm & _ & Hfs1 & Hfs1').
  simpl in Hfiles. cbv zeta in *.
  assert (Hdone_valid :
            Forall Fs.valid_name (filter (hasPlaylist fs) streamDirs)).
  { apply Forall_forall. intros d Hd. apply filter_In in Hd as [Hd _].
    now apply (proj1 (Forall_forall _ _) Hvalid). }
  remember (filter (hasPlaylist fs) streamDirs) as done eqn:Hdone.
  clear Hdone.
  destruct files as [|file files].
  - injection Hrun as <- <-.
    destruct done as [|d0 done]; [|discriminate]. simpl.
    split; [auto|]. split; [intuition|]. split; [auto|]. intros d [].
  - destruct (uploadToWalrus walrus_store fs1 (file :: files))
      as [pbm|] eqn:Hup; [|discriminate].
    cbn [bind] in Hrun.
    assert (Hproto : ~ In "__proto__" (file :: files))
      by (rewrite Hfiles; apply temp_of_not_proto).
    destruct (uploadToWalrus_keys _ _ _ _ Hf Hproto Hup) as [Hpnd Hpkeys].
    rewrite Hfiles in Hpkeys.
    destruct (remap_playlists_spec done Hdone_valid _ _ _ _ _ _ Hpnd
                (fun k Hk => proj1 (Hpkeys k) Hk) Hpm Hrun)
      as (Hbnd & Hbkeys & _ & Hfs & Hfs').
    split; [assumption|]. split; [|split].
    + intros p. rewrite Hbkeys. split.
      * intros [Hin|(d & Hd & ->)]; [now left|].
        right. apply (proj1 (Hpkeys _)) in Hd.
        apply (proj1 (in_map_temp _ _)) in Hd.
        apply (in_map playlist_of). exact Hd.
      * intros [Hin|Hin]; [now left|].
        apply in_map_iff in Hin as (d & <- & Hd).
        right. exists d. split; [|reflexivity].
        apply Hpkeys. now apply in_map_temp.
    + intros n Hn. rewrite Hfs, Hfs1; auto.
      intros Hin. apply (proj1 (Hpkeys _)) in Hin.
      apply (proj1 (in_map_temp _ _)) in Hin. contradiction.
    + intros d Hd. destruct (Hfs1' d Hd) as (es & c & Hes & Hes1).
      assert (Hin : In (temp_of d) (Assoc.keys pbm)).
      { apply Hpkeys. now apply in_map_temp. }
      destruct (Hfs' d _ Hin Hes1) as (es' & Hes' & Hnone & Hsame).
      exists es, es'. repeat split; auto.
      intros f Hne. rewrite Hsame by assumption.
      apply AssocFacts.get_set_other. congruence.
Qed.

(** ** [processAndUploadMasterPlaylist] *)

Lemma processAndUploadMasterPlaylist_spec walrus_store assetsPath fs :
  forall blobMappings masterBlobId fs',
    processAndUploadMasterPlaylist walrus_store assetsPath fs blobMappings
      = Ok (masterBlobId, fs') ->
    Assoc.get temp_master fs' = None /\
    (forall n, n <> temp_master -> Assoc.get n fs' = Assoc.get n fs) /\
    (faithful walrus_store -> exists id, masterBlobId = Some id).
Proof.
  intros bm mid fs' Hrun. unfold processAndUploadMasterPlaylist in Hrun.
  destruct (Fs.readFileSync fs "master.m3u8") as [content|]; [|discriminate].
  cbn [of_option bind] in Hrun.
  destruct (replacePlaylistReferences bm content) as [content'|];
    [|discriminate].
  cbn [bind] in Hrun.
  destruct (Fs.writeFileSync fs "temp_master.m3u8" content') as [fs1|] eqn:Hw;
    [|discriminate].
  cbn [of_option bind] in Hrun.
  destruct (uploadToWalrus walrus_store fs1
              [Path.join assetsPath "temp_master.m3u8"]) as [m|] eqn:Hup;
    [|discriminate].
  cbn [bind] in Hrun.
  destruct (Fs.unlinkSync fs1 "temp_master.m3u8") as [fs2|] eqn:Hu;
    [|discriminate].
  cbn [of_option bind] in Hrun. injection Hrun as <- <-.
  apply (write_name _ _ temp_master _ valid_temp_master) in Hw.
  apply (unlink_name _ _ temp_master valid_temp_master) in Hu.
  subst fs1 fs2. split; [apply AssocFacts.get_remove_same|]. split.
  - intros n Hn.
    rewrite AssocFacts.get_remove_other, AssocFacts.get_set_other;
      congruence.
  - intros Hf.
    destruct (uploadToWalrus_keys _ _ _ _ Hf
                (temp_master_path_not_proto assetsPath) Hup) as [_ Hkeys].
    apply AssocFacts.get_in_keys, Hkeys. now left.
Qed.

(** ** The stages of a successful run *)

Lemma run_stages walrus_store assetsPath fs masterBlobId blobMappings fs' :
  uploadHLSAssetsToWalrus walrus_store assetsPath fs
    = Ok (masterBlobId, blobMappings, fs') ->
  exists streamDirs allSegmentFiles segmentBlobMappings fs1,
    getStreamDirectories fs = Ok streamDirs /\
    collectSegmentFiles fs streamDirs = Ok allSegmentFiles /\
    uploadToWalrus walrus_store fs allSegmentFiles = Ok segmentBlobMappings /\
    processAndUploadPlaylists walrus_store streamDirs fs
      (object_assign [] segmentBlobMappings) = Ok (blobMappings, fs1) /\
    processAndUploadMasterPlaylist walrus_store assetsPath fs1 blobMappings
      = Ok (masterBlobId, fs').
Proof.
  unfold uploadHLSAssetsToWalrus. intros Hrun.
  destruct (getStreamDirectories fs) as [dirs|] eqn:H1; [|discriminate].
  cbn [bind] in Hrun.
  destruct (collectSegmentFiles fs dirs) as [segs|] eqn:H2; [|discriminate].
  cbn [bind] in Hrun.
  destruct (uploadToWalrus walrus_store fs segs) as [bm0|] eqn:H3;
    [|discriminate].
  cbn [bind] in Hrun.
  destruct (processAndUploadPlaylists walrus_store dirs fs
              (object_assign [] bm0)) as [[bm1 fs1]|] eqn:H4; [|discriminate].
  cbn [bind] in Hrun.
  destruct (processAndUploadMasterPlaylist walrus_store assetsPath fs1 bm1)
    as [[mid fs2]|] eqn:H5; [|discriminate].
  cbn [bind] in Hrun. injection Hrun as <- <- <-.
  exists dirs, segs, bm0, fs1. auto.
Qed.

Lemma stream_dirs_valid (fs : Fs.directory) :
  Fs.wf_entries fs ->
  Forall Fs.valid_name (Assoc.keys (EnumeratorFacts.stream_entries fs)) /\
  NoDup (Assoc.keys (EnumeratorFacts.stream_entries fs)).
Proof.
  intros [Hnd Hvalid]. unfold EnumeratorFacts.stream_entries.
  induction fs as [|[k n] fs IH]; simpl; [split; constructor|].
  simpl in Hnd, Hvalid.
  inversion Hnd as [|? ? Hnotin Hnd']; subst.
  inversion Hvalid as [|? ? Hk Hvalid']; subst.
  destruct (IH Hnd' Hvalid') as [IHv IHn].
  destruct (Fs.isDirectory n && startsWith k "stream_"); simpl;
    [|now split].
  split; constructor; auto.
  intros Hin. apply Hnotin. unfold Assoc.keys in *.
  apply in_map_iff in Hin as ([k' n'] & <- & Hin).
  apply filter_In in Hin as [Hin _].
  apply in_map_iff. now exists (k', n').
Qed.

Lemma stream_dir_prefix (fs : Fs.directory) (d : string) :
  In d (Assoc.keys (EnumeratorFacts.stream_entries fs)) ->
  startsWith d "stream_" = true.
Proof.
  unfold Assoc.keys, EnumeratorFacts.stream_entries.
  intros Hin. apply in_map_iff in Hin as ([k n] & <- & Hin).
  apply filter_In in Hin as [_ Hin]. simpl in Hin.
  now apply andb_true_iff in Hin as [_ Hin].
Qed.

(** A segment path is [<dir>/<name>] with a name that ends with [.ts]. *)
Lemma segment_path_shape (fs : Fs.directory) (p : string) :
  In p (flat_map EnumeratorFacts.segment_paths
                 (EnumeratorFacts.stream_entries fs)) ->
  exists d f,
    In d (Assoc.keys (EnumeratorFacts.stream_entries fs)) /\
    endsWith f ".ts" = true /\ p = d ++ "/" ++ f.
Proof.
  intros Hin. apply in_flat_map in Hin as ([d n] & He & Hp).
  unfold EnumeratorFacts.segment_paths in Hp. simpl in Hp.
  destruct n as [c|es]; [contradiction|].
  apply in_map_iff in Hp as (f & <- & Hf).
  apply filter_In in Hf as [_ Hts].
  exists d, f. split; [|auto].
  unfold Assoc.keys. apply in_map_iff. now exists (d, Fs.Dir es).
Qed.

Lemma slash_in_path (d f : string) : mem Path.slash (d ++ "/" ++ f) = true.
Proof. rewrite mem_append. simpl. apply orb_true_r. Qed.

Lemma segment_paths_not_proto (fs : Fs.directory) :
  ~ In "__proto__" (flat_map EnumeratorFacts.segment_paths
                             (EnumeratorFacts.stream_entries fs)).
Proof.
  intros Hin. apply segment_path_shape in Hin as (d & f & _ & _ & Hp).
  symmetry in Hp. revert Hp. apply slash_not_proto, slash_in_path.
Qed.

(** The mapping and the tree after a successful run with a faithful
    client. *)
Lemma run_spec walrus_store assetsPath fs masterBlobId blobMappings fs' :
  Fs.wf_entries fs -> faithful walrus_store ->
  uploadHLSAssetsToWalrus walrus_store assetsPath fs
    = Ok (masterBlobId, blobMappings, fs') ->
  exists streamDirs allSegmentFiles,
    getStreamDirectories fs = Ok streamDirs /\
    collectSegmentFiles fs streamDirs = Ok allSegmentFiles /\
    Forall Fs.valid_name streamDirs /\
    (forall d, In d streamDirs -> startsWith d "stream_" = true) /\
    (forall p, In p allSegmentFiles ->
               exists d f, In d streamDirs /\ endsWith f ".ts" = true /\
                           p = d ++ "/" ++ f) /\
    let done := filter (hasPlaylist fs) streamDirs in
    NoDup (Assoc.keys blobMappings) /\
    (forall p, In p (Assoc.keys blobMappings) <->
               In p allSegmentFiles \/ In p (map playlist_of done)) /\
    (exists id, masterBlobId = Some id) /\
    Assoc.get temp_master fs' = None /\
    (forall n, n <> temp_master -> ~ In n done ->
               Assoc.get n fs' = Assoc.get n fs) /\
    (forall d, In d done ->
               exists es es',
                 Assoc.get d fs = Some (Fs.Dir es) /\
                 Assoc.get d fs' = Some (Fs.Dir es') /\
                 Assoc.get temp_playlist es' = None /\
                 forall f, f <> temp_playlist ->
                           Assoc.get f es' = Assoc.get f es).
Proof.
  intros Hwf Hf Hrun.
  apply run_stages in Hrun
    as (dirs & segs & bm0 & fs1 & Hdirs & Hsegs & Hup & Hpl & Hm).
  pose proof (EnumeratorFacts.getStreamDirectories_entries fs Hwf) as Hdirs'.
  rewrite Hdirs in Hdirs'. injection Hdirs' as ->.
  destruct (stream_dirs_valid fs Hwf) as [Hvalid Hnd].
  assert (Hsegs' : segs = flat_map EnumeratorFacts.segment_paths
                                   (EnumeratorFacts.stream_entries fs)).
  { rewrite EnumeratorFacts.collectSegmentFiles_entries in Hsegs.
    - now injection Hsegs.
    - assumption.
    - intros e He. unfold EnumeratorFacts.stream_entries in He.
      apply filter_In in He as [Hin Hdir].
      now apply andb_true_iff in Hdir as [Hdir _]. }
  assert (Hproto : ~ In "__proto__" segs)
    by (rewrite Hsegs'; apply segment_paths_not_proto).
  destruct (uploadToWalrus_keys _ _ _ _ Hf Hproto Hup) as [Hnd0 Hkeys0].
  destruct (object_assign_keys bm0 []) as [Hand Hakeys].
  destruct (processAndUploadPlaylists_spec _ _ _ _ _ _ Hf Hvalid Hnd Hpl)
    as (Hbnd & Hbkeys & Hfs1 & Hfs1').
  destruct (processAndUploadMasterPlaylist_spec _ _ _ _ _ _ Hm)
    as (Htm & Hfs' & Hmid).
  exists (Assoc.keys (EnumeratorFacts.stream_entries fs)), segs.
  split; [assumption|]. split; [assumption|]. split; [assumption|].
  split; [apply stream_dir_prefix|].
  split; [intros p Hp; rewrite Hsegs' in Hp; now apply segment_path_shape|].
  cbv zeta.
  assert (Hdone_ne : forall d,
             In d (filter (hasPlaylist fs)
                          (Assoc.keys (EnumeratorFacts.stream_entries fs))) ->
             d <> temp_master).
  { intros d Hd ->. apply filter_In in Hd as [Hd _].
    apply stream_dir_prefix in Hd. discriminate. }
  split; [apply Hbnd, Hand; constructor|]. split; [|split; [|split; [|split]]].
  - intros p. rewrite Hbkeys, Hakeys, Hkeys0. simpl. tauto.
  - now apply Hmid.
  - assumption.
  - intros n Hn Hdone. rewrite Hfs' by assumption. now apply Hfs1.
  - intros d Hd. destruct (Hfs1' d Hd) as (es & es' & Hes & Hes' & Hrest).
    exists es, es'. rewrite Hfs' by now apply Hdone_ne. auto.
Qed.

Lemma done_iff (fs : Fs.directory) (streamDirs : list string) (d : string) :
  Forall Fs.valid_name streamDirs ->
  (In d (filter (hasPlaylist fs) streamDirs) <->
   In d streamDirs /\ Fs.existsSync fs (playlist_of d) = true).
Proof.
  intros Hvalid. rewrite filter_In. split; intros [Hin Hp]; split; auto.
  - rewrite exists_playlist; [assumption|].
    now apply (proj1 (Forall_forall _ _) Hvalid).
  - rewrite exists_playlist in Hp; [assumption|].
    now apply (proj1 (Forall_forall _ _) Hvalid).
Qed.

(** An output directory as the transcoder leaves it, with two
    renditions, and a client that answers every path with an identifier
    made from the path. *)
Definition sample_output : Fs.directory :=
  [ ("master.m3u8",
     Fs.File ("#EXTM3U" ++ RewriteFacts.lf ++
              "stream_0/playlist.m3u8" ++ RewriteFacts.lf ++
              "stream_1/playlist.m3u8" ++ RewriteFacts.lf));
    ("stream_0",
     Fs.Dir [ ("data000.ts", Fs.File "s0-0");
              ("data001.ts", Fs.File "s0-1");
              ("playlist.m3u8",
               Fs.File ("#EXTM3U" ++ RewriteFacts.lf ++
                        "data000.ts" ++ RewriteFacts.lf ++
                        "data001.ts" ++ RewriteFacts.lf)) ]);
    ("stream_1",
     Fs.Dir [ ("data000.ts", Fs.File "s1-0");
              ("playlist.m3u8",
               Fs.File ("#EXTM3U" ++ RewriteFacts.lf ++
                        "data000.ts" ++ RewriteFacts.lf)) ]) ].

Definition sample_store (fs : Fs.directory) (paths : list string)
  : option (list WalrusCLIResult) :=
  Some (map (fun p => created p ("blob:" ++ p)) paths).

Lemma sample_store_faithful : faithful sample_store.
Proof.
  intros fs paths rs [= <-]. split; [|split].
  - apply Forall_forall. intros r Hr.
    apply in_map_iff in Hr as (p & <- & _).
    split; simpl; [discriminate | intros n [= <-]; discriminate].
  - intros r Hr. now apply in_map_iff in Hr as (p & <- & Hp).
  - intros p Hp. exists (created p ("blob:" ++ p)).
    split; [|split; [reflexivity | discriminate]].
    now apply (in_map (fun p => created p ("blob:" ++ p))).
Qed.




(** Claim C6.  After a successful run with a faithful client no
    temporary file is left: [temp_master.m3u8] does not exist, and in
    every rendition directory that has a sub-manifest
    [temp_playlist.m3u8] does not exist; every other entry of the output
    directory is as it was before the run, and in those rendition
    directories every entry but [temp_playlist.m3u8] is as it was. *)
Theorem temporary_files_deleted_nothing_else :
  forall walrus_store assetsPath fs masterBlobId blobMappings fs',
    Fs.wf_entries fs -> faithful walrus_store ->
    uploadHLSAssetsToWalrus walrus_store assetsPath fs
      = Ok (masterBlobId, blobMappings, fs') ->
    exists streamDirs,
      getStreamDirectories fs = Ok streamDirs /\
      Fs.existsSync fs' "temp_master.m3u8" = false /\
      (forall d, In d streamDirs ->
                 Fs.existsSync fs (playlist_of d) = true ->
                 Fs.existsSync fs' (temp_of d) = false) /\
      (forall n, n <> "temp_master.m3u8" ->
                 ~ (In n streamDirs /\
                    Fs.existsSync fs (playlist_of n) = true) ->
                 Assoc.get n fs' = Assoc.get n fs) /\
      (forall d, In d streamDirs ->
                 Fs.existsSync fs (playlist_of d) = true ->
                 exists es es',
                   Assoc.get d fs = Some (Fs.Dir es) /\
                   Assoc.get d fs' = Some (Fs.Dir es') /\
                   forall f, f <> "temp_playlist.m3u8" ->
                             Assoc.get f es' = Assoc.get f es).
Proof.
  intros walrus_store assetsPath fs mid bm fs' Hwf Hf Hrun.
  destruct (run_spec _ _ _ _ _ _ Hwf Hf Hrun)
    as (dirs & segs & Hdirs & _ & Hvalid & _ & _
        & _ & _ & _ & Htm & Hother & Hdone).
  exists dirs. split; [assumption|]. split; [|split; [|split]].
  - change "temp_master.m3u8" with temp_master.
    rewrite (exists_name fs' temp_master valid_temp_master).
    now rewrite Htm.
  - intros d Hd Hex.
    pose proof (proj1 (Forall_forall _ _) Hvalid d Hd) as Hvd.
    destruct (Hdone d) as (es & es' & _ & Hes' & Hnone & _).
    { apply (done_iff fs dirs d Hvalid). auto. }
    unfold temp_of.
    change (d ++ "/temp_playlist.m3u8") with (d ++ "/" ++ temp_playlist).
    rewrite exists_two by (assumption || apply valid_temp_playlist).
    now rewrite Hes', Hnone.
  - intros n Hn Hnot. apply Hother; [exact Hn|].
    intros Hin. apply Hnot. now apply (done_iff fs dirs n Hvalid).
  - intros d Hd Hex.
    destruct (Hdone d) as (es & es' & Hes & Hes' & _ & Hsame).
    { apply (done_iff fs dirs d Hvalid). auto. }
    exists es, es'. auto.
Qed.

Lemma temporary_files_deleted_nothing_else_witness :
  exists masterBlobId blobMappings fs',
    uploadHLSAssetsToWalrus sample_store "/srv/out" sample_output
      = Ok (masterBlobId, blobMappings, fs') /\
    exists streamDirs,
      getStreamDirectories sample_output = Ok streamDirs /\
      Fs.existsSync fs' "temp_master.m3u8" = false /\
      (forall d, In d streamDirs ->
                 Fs.existsSync sample_output (playlist_of d) = true ->
                 Fs.existsSync fs' (temp_of d) = false) /\
      (forall n, n <> "temp_master.m3u8" ->
                 ~ (In n streamDirs /\
                    Fs.existsSync sample_output (playlist_of n) = true) ->
                 Assoc.get n fs' = Assoc.get n sample_output) /\
      (forall d, In d streamDirs ->
                 Fs.existsSync sample_output (playlist_of d) = true ->
                 exists es es',
                   Assoc.get d sample_output = Some (Fs.Dir es) /\
                   Assoc.get d fs' = Some (Fs.Dir es') /\
                   forall f, f <> "temp_playlist.m3u8" ->
                             Assoc.get f es' = Assoc.get f es).
Proof.
  eexists. eexists. eexists. split; [vm_compute; reflexivity|].
  eapply (temporary_files_deleted_nothing_else sample_store "/srv/out"
            sample_output).
  - split.
    + repeat constructor; simpl; intuition discriminate.
    + repeat constructor; discriminate.
  - exact sample_store_faithful.
  - vm_compute. reflexivity.
Defined.

(** A transcoder output whose rendition directories are [stream_1.0]
    and [stream_1x0]. *)
Definition dotted_output : Fs.directory :=
  [ ("master.m3u8",
     Fs.File ("#EXTM3U" ++ RewriteFacts.lf ++
              "stream_1.0/playlist.m3u8" ++ RewriteFacts.lf ++
              "stream_1x0/playlist.m3u8" ++ RewriteFacts.lf));
    ("stream_1.0",
     Fs.Dir [ ("data000.ts", Fs.File "a");
              ("playlist.m3u8", Fs.File ("data000.ts" ++ RewriteFacts.lf)) ]);
    ("stream_1x0",
     Fs.Dir [ ("data000.ts", Fs.File "b");
              ("playlist.m3u8", Fs.File ("data000.ts" ++ RewriteFacts.lf)) ]) ].

(** Claim C4 and the code.  The name of the rendition directory is
    pasted into the pattern as it is, so the dot of [stream_1.0] matches
    any character.  The run on [dotted_output] enumerates both
    directories and maps both sub-manifests; the master pass, on the
    final mapping and the master manifest of the tree, replaces the line
    [stream_1x0/playlist.m3u8] by the retrieval URL of the sub-manifest
    of [stream_1.0], and not by that of its own sub-manifest. *)
Theorem master_pass_directory_dot_matches_any_character :
  exists masterBlobId blobMappings fs' content,
    uploadHLSAssetsToWalrus sample_store "/srv/out" dotted_output
      = Ok (masterBlobId, blobMappings, fs') /\
    Fs.readFileSync dotted_output "master.m3u8" = Some content /\
    Assoc.get "stream_1.0/playlist.m3u8" blobMappings
      = Some "blob:stream_1.0/temp_playlist.m3u8" /\
    Assoc.get "stream_1x0/playlist.m3u8" blobMappings
      = Some "blob:stream_1x0/temp_playlist.m3u8" /\
    replacePlaylistReferences blobMappings content
      = Ok ("#EXTM3U" ++ RewriteFacts.lf ++
            "https://aggregator.walrus-testnet.walrus.space/v1/blobs/blob:stream_1.0/temp_playlist.m3u8"
            ++ RewriteFacts.lf ++
            "https://aggregator.walrus-testnet.walrus.space/v1/blobs/blob:stream_1.0/temp_playlist.m3u8"
            ++ RewriteFacts.lf).
Proof.
  eexists. eexists. eexists. eexists.
  split; [vm_compute; reflexivity|].
  split; [vm_compute; reflexivity|].
  split; [vm_compute; reflexivity|].
  split; vm_compute; reflexivity.
Qed.

End PipelineFacts.

(* ================================================================== *)
(** * Joining a path and taking it apart *)
(* ================================================================== *)

Module PathRoundTrip.

Import JsString StringFacts.

Lemma substring_skip (a b : string) (n : nat) :
  substring (String.length a) n (a ++ b) = substring 0 n b.
Proof. induction a as [|c a IH]; simpl; [reflexivity | exact IH]. Qed.

Lemma substring_all (s : string) : substring 0 (String.length s) s = s.
Proof. induction s as [|c s IH]; simpl; [reflexivity | now rewrite IH]. Qed.

(** The loop of [path.basename] inside the last segment, once the end of
    the name is known. *)
Lemma basename_loop_name (pre f : string) (e : nat) :
  mem Path.slash f = false ->
  forall k, k <= String.length f ->
    Path.basename_loop (pre ++ String Path.slash f)
                       (String.length pre + S k) 0 (Some e) false
    = (String.length pre + 1, Some e).
Proof.
  intros Hf. induction k as [|k IH]; intros Hk.
  - assert (Hget : get (String.length pre) (pre ++ String Path.slash f)
                   = Some Path.slash).
    { rewrite <- (Nat.add_0_r (String.length pre)), get_append_r.
      reflexivity. }
    rewrite Nat.add_1_r. cbn [Path.basename_loop]. rewrite Hget.
    rewrite Ascii.eqb_refl. cbn [negb]. now rewrite Nat.add_1_r.
  - replace (String.length pre + S (S k)) with (S (String.length pre + S k))
      by lia.
    cbn [Path.basename_loop]. rewrite get_append_r. simpl get.
    destruct (get_in_range f k) as [x Hx]; [lia|]. rewrite Hx.
    pose proof (get_not_mem _ _ _ _ Hf Hx) as Hne.
    apply Ascii.eqb_neq in Hne. rewrite Hne. apply IH. lia.
Qed.

Lemma basename_file (pre f : string) :
  f <> "" -> mem Path.slash f = false ->
  Path.basename (pre ++ "/" ++ f) = f.
Proof.
  intros Hne Hf. unfold Path.basename.
  change (pre ++ "/" ++ f) with (pre ++ String Path.slash f).
  rewrite length_append. cbn [String.length].
  destruct f as [|c f'] eqn:Hfeq; [contradiction|]. rewrite <- Hfeq in *.
  assert (Hlen : String.length f = S (String.length f'))
    by (now rewrite Hfeq).
  rewrite Hlen.
  replace (String.length pre + S (S (String.length f')))
    with (S (String.length pre + S (String.length f'))) by lia.
  cbn [Path.basename_loop]. rewrite get_append_r. simpl get.
  destruct (get_in_range f (String.length f')) as [x Hx]; [lia|]. rewrite Hx.
  pose proof (get_not_mem _ _ _ _ Hf Hx) as Hnx.
  apply Ascii.eqb_neq in Hnx. rewrite Hnx.
  rewrite basename_loop_name by (assumption || lia).
  unfold Path.slice.
  replace (String.length pre + S (String.length f') + 1
           - (String.length pre + 1)) with (String.length f) by lia.
  replace (String.length pre + 1)
    with (String.length (pre ++ String Path.slash "")).
  - change (pre ++ String Path.slash f)
      with (pre ++ (String Path.slash "" ++ f)).
    rewrite <- append_assoc, substring_skip. apply substring_all.
  - rewrite length_append. reflexivity.
Qed.

(** [path.basename] and [path.dirname] undo [path.join] on names: for
    two names that are not empty, have no slash and are not [.] or [..]
    (which [path.join] would resolve away), the file name and the
    directory that [collectSegmentFiles] and [processAndUploadPlaylists]
    join are the ones that [updatePlaylistContent] and
    [processAndUploadMasterPlaylist] take out of the key again. *)
Theorem basename_dirname_of_join :
  forall d f : string,
    Fs.valid_name d -> Fs.valid_name f ->
    d <> "." -> d <> ".." -> f <> "." -> f <> ".." ->
    Path.join d f = d ++ "/" ++ f /\
    Path.basename (Path.join d f) = f /\
    Path.dirname (Path.join d f) = d.
Proof.
  intros d f Hd [Hf Hsf] _ _ _ _. rewrite PathFacts.join_name by assumption.
  split; [reflexivity|]. split.
  - now apply basename_file.
  - destruct Hd as [Hd Hsd]. now apply RewriteFacts.dirname_file.
Qed.

Lemma basename_dirname_of_join_witness :
  Path.join "stream_0" "data000.ts" = "stream_0" ++ "/" ++ "data000.ts" /\
  Path.basename (Path.join "stream_0" "data000.ts") = "data000.ts" /\
  Path.dirname (Path.join "stream_0" "data000.ts") = "stream_0".
Proof.
  apply (basename_dirname_of_join "stream_0" "data000.ts");
    try (split; [discriminate | reflexivity]); discriminate.
Defined.

End PathRoundTrip.

(* ================================================================== *)
(** * The sub-manifest pass, line by line *)
(* ================================================================== *)

Module SubManifestPass.

Import JsString StringFacts RegExp RegExpFacts Upload RewriteFacts.

(** The pattern [updatePlaylistContent] makes from the key of an entry. *)
Definition segment_pattern (filePath : string) : option (list atom) :=
  compile (Path.basename filePath).

(** The identifier of the first segment entry of the directory whose
    pattern matches the line. *)
Fixpoint first_match (streamDir : string) (entries : list (string * string))
         (l : string) : option string :=
  match entries with
  | [] => None
  | (filePath, blobId) :: rest =>
      if own_segment streamDir (filePath, blobId) &&
         match segment_pattern filePath with
         | Some p => line_matches p l
         | None => false
         end
      then Some blobId
      else first_match streamDir rest l
  end.

(** What the pass makes of one line. *)
Definition segment_line (streamDir : string) (blobMappings : BlobMapping)
           (l : string) : string :=
  match first_match streamDir blobMappings l with
  | Some blobId => blobUrl blobId
  | None => l
  end.

(** The segment entries of the directory have file names inside the
    pattern fragment (no pattern syntax but the dot), without line
    terminator and of at most 55 characters, the length of the common
    prefix of the retrieval URLs, and identifiers without dollar and line
    terminator. *)
Definition segments_plain (streamDir : string) (blobMappings : BlobMapping)
  : Prop :=
  forall k id,
    In (k, id) blobMappings -> own_segment streamDir (k, id) = true ->
    (exists p, segment_pattern k = Some p /\ Forall plain_atom p /\
               p <> [] /\ List.length p <= String.length BLOB_ENDPOINT) /\
    plain_id id.

Lemma blobUrl_length (id : string) :
  String.length BLOB_ENDPOINT < String.length (blobUrl id).
Proof. unfold blobUrl. rewrite !length_append. simpl. lia. Qed.

(** No pattern of a short file name matches a retrieval URL. *)
Lemma short_pattern_no_url (p : list atom) (id : string) :
  List.length p <= String.length BLOB_ENDPOINT ->
  line_matches p (blobUrl id) = false.
Proof.
  intros Hlen. destruct (line_matches p (blobUrl id)) eqn:Hm; [|reflexivity].
  apply line_matches_length in Hm. pose proof (blobUrl_length id). lia.
Qed.

Lemma first_match_url (streamDir : string) (blobMappings : BlobMapping)
      (id : string) :
  segments_plain streamDir blobMappings ->
  first_match streamDir blobMappings (blobUrl id) = None.
Proof.
  induction blobMappings as [|[k i] rest IH]; intros Hplain; [reflexivity|].
  assert (Hrest : segments_plain streamDir rest).
  { intros k' i' Hin. apply Hplain. now right. }
  cbn [first_match].
  destruct (own_segment streamDir (k, i)) eqn:Hown; [|now apply IH].
  destruct (Hplain k i (or_introl eq_refl) Hown)
    as [(p & -> & _ & _ & Hlen) _].
  rewrite (short_pattern_no_url p id Hlen). now apply IH.
Qed.

(** The sub-manifest pass, line by line. *)
Lemma updatePlaylistContent_line_map :
  forall (streamDir : string) (blobMappings : BlobMapping)
         (playlistContent : string),
    segments_plain streamDir blobMappings ->
    exists out,
      updatePlaylistContent playlistContent streamDir blobMappings = Ok out /\
      lines out = map (segment_line streamDir blobMappings)
                      (lines playlistContent) /\
      terminators out = terminators playlistContent.
Proof.
  intros streamDir bm. unfold updatePlaylistContent.
  induction bm as [|[k id] rest IH]; intros content Hplain.
  - exists content. simpl. split; [reflexivity|]. split; [|reflexivity].
    rewrite <- (map_id (lines content)) at 1. now apply map_ext.
  - assert (Hrest : segments_plain streamDir rest).
    { intros k' i' Hin. apply Hplain. now right. }
    cbn [updatePlaylistContent_loop].
    pose proof (Hplain k id (or_introl eq_refl)) as Hk.
    unfold own_segment in Hk. simpl fst in Hk.
    destruct (startsWith k (streamDir ++ "/") && endsWith k ".ts") eqn:Hown.
    + destruct (Hk eq_refl) as [(p & Hp & Hpl & Hne & Hlen) [Hdollar Hline]].
      unfold segment_pattern in Hp. rewrite Hp. cbn [of_option bind].
      destruct (replace_lines p (blobUrl id) Hpl Hne
                  (blobUrl_no_dollar id Hdollar)
                  (blobUrl_one_line id Hline) content) as [Hl Ht].
      destruct (IH (replace content p (blobUrl id)) Hrest)
        as (out & Hout & Hlines & Hterm).
      exists out. split; [exact Hout|]. split; [|congruence].
      rewrite Hlines, Hl, map_map. apply map_ext. intros l.
      unfold segment_line. cbn [first_match].
      unfold own_segment, segment_pattern. simpl fst.
      rewrite Hown, Hp. cbn [andb]. unfold replace_line.
      destruct (line_matches p l); [|reflexivity].
      now rewrite (first_match_url streamDir rest id Hrest).
    + destruct (IH content Hrest) as (out & Hout & Hlines & Hterm).
      exists out. split; [exact Hout|]. split; [|exact Hterm].
      rewrite Hlines. apply map_ext. intros l.
      unfold segment_line. cbn [first_match].
      unfold own_segment. simpl fst. now rewrite Hown.
Qed.

(** The sub-manifest pass works line by line.  When the segment entries
    of the directory have file names without pattern syntax other than
    the dot, without line terminator and of at most 55 characters, and
    identifiers without dollar and line terminator: each line that the
    pattern of some segment entry of the directory matches becomes
    [https://aggregator.walrus-testnet.walrus.space/v1/blobs/<id>] for
    the identifier of the first such entry, and is not replaced again;
    the other lines and all line terminators stay. *)
Theorem updatePlaylistContent_lines :
  forall (streamDir : string) (blobMappings : BlobMapping)
         (playlistContent : string),
    segments_plain streamDir blobMappings ->
    exists out,
      updatePlaylistContent playlistContent streamDir blobMappings = Ok out /\
      lines out = map (segment_line streamDir blobMappings)
                      (lines playlistContent) /\
      terminators out = terminators playlistContent /\
      (forall l id,
          first_match streamDir blobMappings l = Some id ->
          segment_line streamDir blobMappings l
          = "https://aggregator.walrus-testnet.walrus.space/v1/blobs/"
            ++ id) /\
      (forall l,
          first_match streamDir blobMappings l = None ->
          segment_line streamDir blobMappings l = l).
Proof.
  intros streamDir blobMappings playlistContent Hplain.
  destruct (updatePlaylistContent_line_map streamDir blobMappings
              playlistContent Hplain) as (out & Hout & Hlines & Hterm).
  exists out. split; [exact Hout|]. split; [exact Hlines|].
  split; [exact Hterm|]. split.
  - intros l id Hfirst. unfold segment_line. rewrite Hfirst. reflexivity.
  - intros l Hfirst. unfold segment_line. now rewrite Hfirst.
Qed.

Definition sample_segments : BlobMapping :=
  [ ("stream_0/data000.ts", "seg0");
    ("stream_0/data001.ts", "seg1");
    ("stream_1/data000.ts", "other") ].

Lemma updatePlaylistContent_lines_witness :
  exists out,
    updatePlaylistContent sample_playlist "stream_0" sample_segments = Ok out /\
    lines out = map (segment_line "stream_0" sample_segments)
                    (lines sample_playlist) /\
    terminators out = terminators sample_playlist /\
    (forall l id,
        first_match "stream_0" sample_segments l = Some id ->
        segment_line "stream_0" sample_segments l
        = "https://aggregator.walrus-testnet.walrus.space/v1/blobs/"
          ++ id) /\
    (forall l,
        first_match "stream_0" sample_segments l = None ->
        segment_line "stream_0" sample_segments l = l).
Proof.
  apply (updatePlaylistContent_lines "stream_0" sample_segments
           sample_playlist).
  intros k id [[= <- <-]|[[= <- <-]|[[= <- <-]|[]]]] Hown;
    try (vm_compute in Hown; discriminate).
  - split; [eexists; split; [vm_compute; reflexivity|]|].
    + split; [repeat constructor|]. split; [discriminate|].
      vm_compute. repeat constructor.
    + split; reflexivity.
  - split; [eexists; split; [vm_compute; reflexivity|]|].
    + split; [repeat constructor|]. split; [discriminate|].
      vm_compute. repeat constructor.
    + split; reflexivity.
Defined.

(** The pattern made from a name matches the name itself. *)
Lemma compile_matches_self (f : string) :
  forall p, compile f = Some p -> Forall plain_atom p ->
            line_matches p f = true.
Proof.
  unfold line_matches. induction f as [|c f IH]; intros p Hp Hplain.
  - simpl in Hp. now injection Hp as <-.
  - simpl in Hp. destruct (syntax_character c); [discriminate|].
    destruct (compile f) as [q|]; [|discriminate].
    injection Hp as <-. inversion Hplain as [|? ? Ha Hq]; subst.
    specialize (IH q eq_refl Hq). simpl.
    destruct (Ascii.eqb_spec c ".") as [->|Hne]; simpl.
    + exact IH.
    + now rewrite Ascii.eqb_refl.
Qed.

(** The line that is the file name of a mapped segment. *)
Lemma segment_line_own_name :
  forall (streamDir : string) (blobMappings : BlobMapping) (k id : string),
    NoDup (Assoc.keys blobMappings) ->
    segments_plain streamDir blobMappings ->
    In (k, id) blobMappings ->
    own_segment streamDir (k, id) = true ->
    (forall k' id' p',
        In (k', id') blobMappings -> k' <> k ->
        own_segment streamDir (k', id') = true ->
        segment_pattern k' = Some p' ->
        line_matches p' (Path.basename k) = false) ->
    segment_line streamDir blobMappings (Path.basename k) = blobUrl id.
Proof.
  intros streamDir bm k id. unfold segment_line.
  induction bm as [|[k0 i0] rest IH]; intros Hnd Hplain Hin Hown Hothers;
    [contradiction|].
  simpl in Hnd. inversion Hnd as [|? ? Hnotin Hnd']; subst.
  cbn [first_match]. destruct Hin as [[= -> ->]|Hin].
  - rewrite Hown.
    destruct (Hplain k id (or_introl eq_refl) Hown)
      as [(p & Hp & Hpl & _) _].
    rewrite Hp. unfold segment_pattern in Hp.
    now rewrite (compile_matches_self _ p Hp Hpl).
  - assert (Hne : k0 <> k).
    { intros ->. apply Hnotin. unfold Assoc.keys.
      change k with (fst (k, id)). now apply in_map. }
    assert (Hskip :
              own_segment streamDir (k0, i0) &&
              match segment_pattern k0 with
              | Some p => line_matches p (Path.basename k)
              | None => false
              end = false).
    { destruct (own_segment streamDir (k0, i0)) eqn:Hown0; [|reflexivity].
      destruct (segment_pattern k0) as [p0|] eqn:Hp0; [|reflexivity].
      simpl. apply (Hothers k0 i0 p0); auto. now left. }
    rewrite Hskip. apply IH; auto.
    + intros k' i' Hin'. apply Hplain. now right.
    + intros k' i' p' Hin'. apply Hothers. now right.
Qed.

(** Every line of a sub-manifest that is the file name of a mapped
    segment of the directory is, after the pass,
    [https://aggregator.walrus-testnet.walrus.space/v1/blobs/<id>] for
    the identifier of that segment.  Conditions: the keys of the mapping
    are distinct; the segment entries of the directory have file names
    without pattern syntax other than the dot, without line terminator
    and of at most 55 characters, and identifiers without dollar and line
    terminator; and the pattern of no other segment entry of the
    directory matches the name (as for the names [data000.ts],
    [data001.ts], ... of the transcoder). *)
Theorem segment_name_line_becomes_its_url :
  forall (streamDir : string) (blobMappings : BlobMapping) (k id : string)
         (playlistContent : string),
    NoDup (Assoc.keys blobMappings) ->
    segments_plain streamDir blobMappings ->
    In (k, id) blobMappings ->
    own_segment streamDir (k, id) = true ->
    (forall k' id' p',
        In (k', id') blobMappings -> k' <> k ->
        own_segment streamDir (k', id') = true ->
        segment_pattern k' = Some p' ->
        line_matches p' (Path.basename k) = false) ->
    exists out,
      updatePlaylistContent playlistContent streamDir blobMappings = Ok out /\
      forall i, nth_error (lines playlistContent) i = Some (Path.basename k) ->
                nth_error (lines out) i
                = Some ("https://aggregator.walrus-testnet.walrus.space/v1/blobs/"
                        ++ id).
Proof.
  intros streamDir bm k id content Hnd Hplain Hin Hown Hothers.
  destruct (updatePlaylistContent_line_map streamDir bm content Hplain)
    as (out & Hout & Hlines & _).
  exists out. split; [exact Hout|]. intros i Hi.
  rewrite Hlines, nth_error_map, Hi. cbn [option_map].
  rewrite (segment_line_own_name streamDir bm k id Hnd Hplain Hin Hown
             Hothers).
  reflexivity.
Qed.

Lemma segment_name_line_becomes_its_url_witness :
  exists out,
    updatePlaylistContent
      ("#EXTINF:10.0," ++ lf ++ "data001.ts" ++ lf) "stream_0" sample_segments
    = Ok out /\
    forall i,
      nth_error (lines ("#EXTINF:10.0," ++ lf ++ "data001.ts" ++ lf)) i
      = Some (Path.basename "stream_0/data001.ts") ->
      nth_error (lines out) i
      = Some ("https://aggregator.walrus-testnet.walrus.space/v1/blobs/"
              ++ "seg1").
Proof.
  apply (segment_name_line_becomes_its_url
           "stream_0" sample_segments "stream_0/data001.ts" "seg1"
           ("#EXTINF:10.0," ++ lf ++ "data001.ts" ++ lf)).
  - repeat constructor; simpl; intuition discriminate.
  - intros k id [[= <- <-]|[[= <- <-]|[[= <- <-]|[]]]] Hown;
      try (vm_compute in Hown; discriminate).
    + split; [eexists; split; [vm_compute; reflexivity|]|].
      * split; [repeat constructor|]. split; [discriminate|].
        vm_compute. repeat constructor.
      * split; reflexivity.
    + split; [eexists; split; [vm_compute; reflexivity|]|].
      * split; [repeat constructor|]. split; [discriminate|].
        vm_compute. repeat constructor.
      * split; reflexivity.
  - simpl. auto.
  - vm_compute. reflexivity.
  - intros k' id' p' [[= <- <-]|[[= <- <-]|[[= <- <-]|[]]]] Hne Hown Hp;
      try congruence; try (vm_compute in Hown; discriminate).
    vm_compute in Hp. injection Hp as <-. vm_compute. reflexivity.
Defined.

End SubManifestPass.

(* ================================================================== *)
(** * What the storage client is handed, and where its answers go *)
(* ================================================================== *)

Module RunDetails.

Import JsString StringFacts Upload TreeFacts UploaderFacts PipelineFacts.

Lemma write_temp_playlists_none (streamDirs : list string) :
  forall blobMappings fs files pm,
    Forall Fs.valid_name streamDirs ->
    (forall d, In d streamDirs -> Fs.existsSync fs (playlist_of d) = false) ->
    write_temp_playlists streamDirs blobMappings fs files pm
    = Ok (files, pm, fs).
Proof.
  induction streamDirs as [|d rest IH]; intros bm fs files pm Hvalid Hnone;
    [reflexivity|].
  inversion Hvalid as [|? ? Hd Hrest]; subst.
  cbn [write_temp_playlists].
  rewrite join_playlist by assumption.
  rewrite (Hnone d (or_introl eq_refl)).
  apply IH; [assumption|]. intros d' Hd'. apply Hnone. now right.
Qed.

(** Without any sub-manifest there is nothing to upload:
    [processAndUploadPlaylists] hands back the mapping and the tree as
    they are and does not call the client (the result does not depend on
    what the client would answer). *)
Theorem processAndUploadPlaylists_without_playlists :
  forall walrus_store (streamDirs : list string) (fs : Fs.directory)
         (blobMappings : BlobMapping),
    Forall Fs.valid_name streamDirs ->
    (forall d, In d streamDirs -> Fs.existsSync fs (playlist_of d) = false) ->
    processAndUploadPlaylists walrus_store streamDirs fs blobMappings
    = Ok (blobMappings, fs).
Proof.
  intros walrus_store streamDirs fs bm Hvalid Hnone.
  unfold processAndUploadPlaylists.
  now rewrite write_temp_playlists_none.
Qed.

Definition segments_only : Fs.directory :=
  [ ("master.m3u8", Fs.File "#EXTM3U");
    ("stream_0", Fs.Dir [ ("data000.ts", Fs.File "s0") ]) ].

Lemma processAndUploadPlaylists_without_playlists_witness :
  processAndUploadPlaylists (fun _ _ => None) ["stream_0"] segments_only
                            [("stream_0/data000.ts", "seg0")]
  = Ok ([("stream_0/data000.ts", "seg0")], segments_only).
Proof.
  apply (processAndUploadPlaylists_without_playlists
           (fun _ _ => None) ["stream_0"] segments_only).
  - repeat constructor. discriminate.
  - intros d [<-|[]]. vm_compute. reflexivity.
Defined.




(** The stages of [processAndUploadMasterPlaylist] in a run that
    returns. *)
Lemma processAndUploadMasterPlaylist_stages :
  forall walrus_store (assetsPath : string) (fs : Fs.directory)
         (blobMappings : BlobMapping) (masterBlobId : option string)
         (fs' : Fs.directory),
    processAndUploadMasterPlaylist walrus_store assetsPath fs blobMappings
      = Ok (masterBlobId, fs') ->
    exists content out fs1 m,
      Fs.readFileSync fs "master.m3u8" = Some content /\
      replacePlaylistReferences blobMappings content = Ok out /\
      Fs.readFileSync fs1 "temp_master.m3u8" = Some out /\
      (forall n, n <> "temp_master.m3u8" ->
                 Assoc.get n fs1 = Assoc.get n fs) /\
      uploadToWalrus walrus_store fs1
        [Path.join assetsPath "temp_master.m3u8"] = Ok m /\
      masterBlobId = Assoc.get (Path.join assetsPath "temp_master.m3u8") m.
Proof.
  intros walrus_store assetsPath fs bm mid fs' Hrun.
  unfold processAndUploadMasterPlaylist in Hrun.
  destruct (Fs.readFileSync fs "master.m3u8") as [content|] eqn:Hread;
    [|discriminate].
  cbn [of_option bind] in Hrun.
  destruct (replacePlaylistReferences bm content) as [out|] eqn:Hout;
    [|discriminate].
  cbn [bind] in Hrun.
  destruct (Fs.writeFileSync fs "temp_master.m3u8" out) as [fs1|] eqn:Hw;
    [|discriminate].
  cbn [of_option bind] in Hrun.
  destruct (uploadToWalrus walrus_store fs1
              [Path.join assetsPath "temp_master.m3u8"]) as [m|] eqn:Hup;
    [|discriminate].
  cbn [bind] in Hrun.
  destruct (Fs.unlinkSync fs1 "temp_master.m3u8") as [fs2|]; [|discriminate].
  cbn [of_option bind] in Hrun. injection Hrun as <- <-.
  apply (write_name _ _ temp_master _ valid_temp_master) in Hw. subst fs1.
  exists content, out, (Assoc.set temp_master (Fs.File out) fs), m.
  split; [reflexivity|]. split; [exact Hout|]. split; [|split; [|auto]].
  - change "temp_master.m3u8" with temp_master.
    rewrite (read_name _ temp_master valid_temp_master).
    now rewrite AssocFacts.get_set_same.
  - intros n Hn. apply AssocFacts.get_set_other.
    unfold temp_master. congruence.
Qed.

(** ** Where the identifiers of the final mapping come from *)

Lemma in_set_inv (k0 v0 k v : string) (m : BlobMapping) :
  In (k, v) (Assoc.set k0 v0 m) -> (k, v) = (k0, v0) \/ In (k, v) m.
Proof.
  induction m as [|[k1 v1] m IH]; simpl.
  - intros [H|[]]. left. now symmetry.
  - destruct (String.eqb_spec k1 k0) as [->|Hne]; simpl.
    + intros [H|H]; [left; now symmetry | right; now right].
    + intros [H|H]; [right; now left|].
      destruct (IH H) as [H'|H']; [now left | right; now right].
Qed.

(** [Object.assign] into the empty mapping copies the source, entry by
    entry and in order, when the keys of the source are distinct. *)
Lemma object_assign_onto (target source : BlobMapping) :
  NoDup (Assoc.keys (target ++ source)%list) ->
  object_assign target source = (target ++ source)%list.
Proof.
  unfold object_assign. revert target.
  induction source as [|[k v] s IH]; intros target Hnd; simpl.
  - now rewrite app_nil_r.
  - assert (Hset : Assoc.set k v target = (target ++ [(k, v)])%list).
    { clear IH. induction target as [|[k1 v1] t IHt]; [reflexivity|].
      simpl in Hnd. inversion Hnd as [|? ? Hnotin Hnd']; subst. simpl.
      destruct (String.eqb_spec k1 k) as [->|Hne].
      - exfalso. apply Hnotin. unfold Assoc.keys. rewrite map_app.
        apply in_app_iff. right. now left.
      - now rewrite IHt. }
    rewrite Hset, IH; rewrite <- app_assoc; [reflexivity | exact Hnd].
Qed.

Lemma object_assign_empty (source : BlobMapping) :
  NoDup (Assoc.keys source) -> object_assign [] source = source.
Proof. intros Hnd. now rewrite object_assign_onto. Qed.

(** The second loop of [processAndUploadPlaylists] writes only under
    original sub-manifest paths, with identifiers of its entries. *)
Lemma remap_playlists_values (entries : list (string * string)) :
  forall pm blobMappings fs blobMappings' fs',
    remap_playlists entries pm blobMappings fs = Ok (blobMappings', fs') ->
    (forall k id, In (k, id) blobMappings' ->
                  In (k, id) blobMappings \/
                  exists t, In (t, id) entries /\ Assoc.get t pm = Some k) /\
    (forall p, (forall t, In t (Assoc.keys entries) ->
                          Assoc.get t pm <> Some p) ->
               Assoc.get p blobMappings' = Assoc.get p blobMappings).
Proof.
  induction entries as [|[t0 i0] rest IH]; intros pm bm fs bm' fs' Hrun.
  - simpl in Hrun. injection Hrun as <- <-. split; auto.
  - cbn [remap_playlists] in Hrun.
    assert (Hskip : forall b f,
               remap_playlists rest pm b f = Ok (bm', fs') ->
               b = bm ->
               (forall k id, In (k, id) bm' ->
                  In (k, id) bm \/
                  exists t, In (t, id) ((t0, i0) :: rest) /\
                            Assoc.get t pm = Some k) /\
               (forall p, (forall t, In t (Assoc.keys ((t0, i0) :: rest)) ->
                                     Assoc.get t pm <> Some p) ->
                          Assoc.get p bm' = Assoc.get p bm)).
    { intros b f Hr ->. destruct (IH _ _ _ _ _ Hr) as [Hv Hg]. split.
      - intros k id Hin. destruct (Hv k id Hin) as [H|(t & Ht & Hpm)];
          [now left|]. right. exists t. split; [now right | assumption].
      - intros p Hp. apply Hg. intros t Ht. apply Hp. now right. }
    destruct (truthy (Assoc.get t0 pm)) eqn:Htr;
      [|now apply (Hskip _ _ Hrun)].
    destruct (Assoc.get t0 pm) as [o|] eqn:Ho;
      [|now apply (Hskip _ _ Hrun)].
    destruct (if Fs.existsSync fs t0
              then of_option FsError (Fs.unlinkSync fs t0)
              else Ok fs) as [fs1|]; [|discriminate].
    cbn [bind] in Hrun. destruct (IH _ _ _ _ _ Hrun) as [Hv Hg]. split.
    + intros k id Hin. destruct (Hv k id Hin) as [H|(t & Ht & Hpm)].
      * apply in_set_inv in H as [[= -> ->]|H]; [|now left].
        right. exists t0. split; [now left | assumption].
      * right. exists t. split; [now right | assumption].
    + intros p Hp. rewrite Hg by (intros t Ht; apply Hp; now right).
      apply AssocFacts.get_set_other. intros ->.
      apply (Hp t0); [now left | assumption].
Qed.

(** A path that ends with [.ts] does not end with [playlist.m3u8]. *)
Lemma ts_is_no_playlist (k : string) :
  endsWith k ".ts" = true -> endsWith k "playlist.m3u8" = false.
Proof.
  intros Hts. destruct (endsWith k "playlist.m3u8") eqn:Hpl; [|reflexivity].
  apply endsWith_iff in Hts as [a Ha]. apply endsWith_iff in Hpl as [b Hb].
  subst k. exfalso.
  change (a ++ ".ts") with (a ++ ".t" ++ "s") in Hb.
  change (b ++ "playlist.m3u8") with (b ++ "playlist.m3u" ++ "8") in Hb.
  rewrite <- !append_assoc in Hb.
  assert (Hlen : String.length (a ++ ".t")
                 = String.length (b ++ "playlist.m3u")).
  { apply (f_equal String.length) in Hb.
    rewrite (length_append (a ++ ".t")),
            (length_append (b ++ "playlist.m3u")) in Hb.
    simpl in Hb. lia. }
  destruct (append_inj _ _ _ _ Hlen Hb) as [_ H]. discriminate.
Qed.

Lemma segment_path_ends_ts (d f : string) :
  endsWith f ".ts" = true -> endsWith (d ++ "/" ++ f) ".ts" = true.
Proof.
  intros H. apply endsWith_iff in H as [a ->]. apply endsWith_iff.
  exists (d ++ "/" ++ a). now rewrite !append_assoc.
Qed.

(** The identifiers of the client have no dollar and no line
    terminator. *)
Definition plain_client
           (walrus_store :
              Fs.directory -> list string -> option (list WalrusCLIResult))
  : Prop :=
  forall fs paths rs r id,
    walrus_store fs paths = Some rs -> In r rs ->
    resolve_blobId r = Some id -> RewriteFacts.plain_id id.

Lemma uploadToWalrus_values walrus_store fs paths m :
  faithful walrus_store -> plain_client walrus_store ->
  uploadToWalrus walrus_store fs paths = Ok m ->
  forall k id, In (k, id) m -> RewriteFacts.plain_id id.
Proof.
  intros Hf Hplain Hup k id Hin.
  pose proof (uploadToWalrus_NoDup _ _ _ _ Hup) as Hnd.
  apply (AssocFacts.In_get _ _ _ _ Hnd) in Hin.
  unfold uploadToWalrus in Hup.
  destruct (walrus_store fs paths) as [rs|] eqn:Hs; [|discriminate].
  simpl in Hup. injection Hup as <-.
  apply fold_record_get in Hin.
  destruct Hin as (pre & r & post & -> & _ & Hr & _).
  apply stored_blobId_inv in Hr as [Hr _].
  apply (Hplain fs paths _ r id Hs); [|assumption].
  apply in_app_iff. right. now left.
Qed.

Lemma processAndUploadPlaylists_other_keys walrus_store streamDirs fs :
  forall blobMappings blobMappings' fs',
    Forall Fs.valid_name streamDirs -> NoDup streamDirs ->
    processAndUploadPlaylists walrus_store streamDirs fs blobMappings
      = Ok (blobMappings', fs') ->
    (forall p, (forall d, In d streamDirs -> p <> playlist_of d) ->
               Assoc.get p blobMappings' = Assoc.get p blobMappings) /\
    (forall k id, In (k, id) blobMappings' ->
                  In (k, id) blobMappings \/
                  exists fs1 pbm t,
                    uploadToWalrus walrus_store fs1
                      (map temp_of (filter (hasPlaylist fs) streamDirs))
                      = Ok pbm /\ In (t, id) pbm).
Proof.
  intros bm bm' fs' Hvalid Hnd Hrun. unfold processAndUploadPlaylists in Hrun.
  destruct (write_temp_playlists streamDirs bm fs [] [])
    as [[[files pm] fs1]|] eqn:Hloop1; [|discriminate].
  cbn [bind] in Hrun.
  destruct (write_temp_playlists_spec _ _ _ _ _ _ _ _ Hvalid Hnd Hloop1)
    as (Hfiles & Hpm & Hpm' & _ & _).
  simpl in Hfiles. cbv zeta in *.
  assert (Hvalues : forall t o, Assoc.get t pm = Some o ->
                                exists d, In d streamDirs /\ o = playlist_of d).
  { intros t o Hget.
    destruct (in_dec string_dec t
                (map temp_of (filter (hasPlaylist fs) streamDirs)))
      as [Hin|Hnot].
    - apply in_map_iff in Hin as (d & <- & Hd). rewrite (Hpm d Hd) in Hget.
      injection Hget as <-. exists d. apply filter_In in Hd as [Hd _]. auto.
    - rewrite (Hpm' t Hnot) in Hget. discriminate. }
  destruct files as [|file files].
  - injection Hrun as <- <-. split; auto.
  - rewrite Hfiles in Hrun.
    destruct (uploadToWalrus walrus_store fs1
                (map temp_of (filter (hasPlaylist fs) streamDirs)))
      as [pbm|] eqn:Hup; [|discriminate].
    cbn [bind] in Hrun.
    destruct (remap_playlists_values _ _ _ _ _ _ Hrun) as [Hv Hg]. split.
    + intros p Hp. apply Hg. intros t _ Hget.
      destruct (Hvalues t p Hget) as (d & Hd & ->). now apply (Hp d).
    + intros k id Hin. destruct (Hv k id Hin) as [H|(t & Ht & _)];
        [now left|]. right. now exists fs1, pbm, t.
Qed.



(** After a successful run on rendition directories with plain names
    (no pattern syntax, no dot, no line terminator) and with a client
    whose identifiers have no dollar and no line terminator, the master
    manifest that was uploaded is the master manifest of the transcoder
    with every line [<dir>/playlist.m3u8] of a rendition directory that
    has a sub-manifest replaced by
    [https://aggregator.walrus-testnet.walrus.space/v1/blobs/<id>], for
    the identifier that the final mapping has for that sub-manifest; the
    lines that are no key of the mapping and the line terminators are
    kept. *)
Theorem full_run_uploads_master_with_urls :
  forall walrus_store assetsPath fs masterBlobId blobMappings fs',
    Fs.wf_entries fs -> faithful walrus_store -> plain_client walrus_store ->
    (forall d n, In (d, n) fs -> startsWith d "stream_" = true ->
                 RewriteFacts.plain_name d) ->
    uploadHLSAssetsToWalrus walrus_store assetsPath fs
      = Ok (masterBlobId, blobMappings, fs') ->
    exists streamDirs content out fs1 m,
      getStreamDirectories fs = Ok streamDirs /\
      Fs.readFileSync fs "master.m3u8" = Some content /\
      Fs.readFileSync fs1 "temp_master.m3u8" = Some out /\
      uploadToWalrus walrus_store fs1
        [Path.join assetsPath "temp_master.m3u8"] = Ok m /\
      masterBlobId = Assoc.get (Path.join assetsPath "temp_master.m3u8") m /\
      List.length (RegExpFacts.lines out)
        = List.length (RegExpFacts.lines content) /\
      RegExpFacts.terminators out = RegExpFacts.terminators content /\
      (forall i d,
          In d streamDirs ->
          Fs.existsSync fs (playlist_of d) = true ->
          nth_error (RegExpFacts.lines content) i = Some (playlist_of d) ->
          exists id,
            Assoc.get (playlist_of d) blobMappings = Some id /\
            nth_error (RegExpFacts.lines out) i
            = Some ("https://aggregator.walrus-testnet.walrus.space/v1/blobs/"
                    ++ id)) /\
      (forall i l,
          nth_error (RegExpFacts.lines content) i = Some l ->
          Assoc.get l blobMappings = None ->
          nth_error (RegExpFacts.lines out) i = Some l).
Proof.
  intros walrus_store assetsPath fs mid bm fs' Hwf Hf Hplain Hnames Hrun.
  destruct (run_spec _ _ _ _ _ _ Hwf Hf Hrun)
    as (dirs & segs & Hdirs & Hsegs & Hvalid & Hprefix & Hshape
        & Hnd & Hkeys & _).
  apply run_stages in Hrun
    as (dirs' & segs' & bm0 & fs1 & Hdirs' & Hsegs' & Hup & Hpl & Hm).
  rewrite Hdirs in Hdirs'. injection Hdirs' as <-.
  rewrite Hsegs in Hsegs'. injection Hsegs' as <-.
  pose proof (EnumeratorFacts.getStreamDirectories_entries fs Hwf) as Hd.
  rewrite Hdirs in Hd. injection Hd as Hd.
  assert (Hnd_dirs : NoDup dirs).
  { rewrite Hd. now apply stream_dirs_valid. }
  assert (Hdir_plain : forall d, In d dirs -> RewriteFacts.plain_name d).
  { intros d Hin. rewrite Hd in Hin. pose proof Hin as Hin'.
    apply stream_dir_prefix in Hin'.
    unfold Assoc.keys, EnumeratorFacts.stream_entries in Hin.
    apply in_map_iff in Hin as ([k n] & <- & Hin).
    apply filter_In in Hin as [Hin _]. now apply (Hnames k n). }
  (* the sub-manifest entries of the final mapping are plain *)
  pose proof (uploadToWalrus_NoDup _ _ _ _ Hup) as Hnd0.
  rewrite object_assign_empty in Hpl by assumption.
  destruct (processAndUploadPlaylists_other_keys _ _ _ _ _ _
              Hvalid Hnd_dirs Hpl) as [_ Hvals].
  destruct (processAndUploadPlaylists_spec _ _ _ _ _ _ Hf Hvalid Hnd_dirs Hpl)
    as (_ & _ & Hframe & _).
  assert (Hkeys_plain : RewriteFacts.playlist_keys_plain bm).
  { intros k id Hin He. split.
    - assert (Hk : In k (Assoc.keys bm)).
      { unfold Assoc.keys. change k with (fst (k, id)). now apply in_map. }
      apply Hkeys in Hk as [Hk|Hk].
      + destruct (Hshape k Hk) as (d1 & f & _ & Hts & ->).
        apply segment_path_ends_ts with (d := d1) in Hts.
        apply ts_is_no_playlist in Hts. congruence.
      + apply in_map_iff in Hk as (d & <- & Hd').
        apply filter_In in Hd' as [Hd' _].
        exists d. split; [reflexivity | now apply Hdir_plain].
    - destruct (Hvals k id Hin) as [H|(fs2 & pbm & t & Hup2 & Ht)].
      + now apply (uploadToWalrus_values _ _ _ _ Hf Hplain Hup k id).
      + now apply (uploadToWalrus_values _ _ _ _ Hf Hplain Hup2 t id). }
  destruct (processAndUploadMasterPlaylist_stages
              _ _ _ _ _ _ Hm)
    as (content & out & fsm & m & Hread & Hout & Htemp & _ & Hupm & Hmid).
  destruct (RewriteFacts.replacePlaylistReferences_lines bm Hkeys_plain content)
    as (out' & Hout' & Hlines & Hterm).
  rewrite Hout in Hout'. injection Hout' as <-.
  exists dirs, content, out, fsm, m.
  split; [assumption|]. split.
  { rewrite (read_name fs _ valid_master).
    rewrite (read_name fs1 _ valid_master) in Hread.
    rewrite <- (Hframe "master.m3u8"); [exact Hread|].
    intros Hin. apply filter_In in Hin as [Hin _].
    apply Hprefix in Hin. discriminate. }
  split; [assumption|]. split; [assumption|]. split; [assumption|].
  split; [now rewrite Hlines, length_map|]. split; [assumption|]. split.
  - intros i d Hin Hex Hi.
    assert (Hk : In (playlist_of d) (Assoc.keys bm)).
    { apply Hkeys. right. apply in_map.
      now apply (done_iff fs dirs d Hvalid). }
    apply AssocFacts.get_in_keys in Hk as [id Hid].
    exists id. split; [assumption|].
    rewrite Hlines, nth_error_map, Hi. cbn [option_map].
    unfold RewriteFacts.master_line, playlist_of in *.
    assert (He : endsWith (d ++ "/playlist.m3u8") "playlist.m3u8" = true).
    { apply endsWith_iff. exists (d ++ "/"). now rewrite append_assoc. }
    rewrite He, Hid. reflexivity.
  - intros i l Hi Hnone.
    rewrite Hlines, nth_error_map, Hi. cbn [option_map].
    unfold RewriteFacts.master_line. rewrite Hnone.
    now destruct (endsWith l "playlist.m3u8").
Qed.

(** A client that makes the identifier from the path, with an
    underscore in the place of a dollar or a line terminator. *)
Definition plain_char (c : ascii) : ascii :=
  if (c =? "$")%char || is_line_terminator c then "_"%char else c.

Fixpoint sanitize (s : string) : string :=
  match s with
  | EmptyString => EmptyString
  | String c s' => String (plain_char c) (sanitize s')
  end.

Definition tagged_store (fs : Fs.directory) (paths : list string)
  : option (list WalrusCLIResult) :=
  Some (map (fun p => created p ("id-" ++ sanitize p)) paths).

Lemma sanitize_plain (s : string) :
  mem "$" (sanitize s) = false /\ RegExpFacts.one_line (sanitize s).
Proof.
  unfold RegExpFacts.one_line.
  induction s as [|c s [IHd IHl]]; [split; reflexivity|].
  cbn [sanitize mem any]. rewrite IHd, IHl, !orb_false_r.
  unfold plain_char.
  destruct (c =? "$")%char eqn:Hd; [split; reflexivity|].
  destruct (is_line_terminator c) eqn:Hl; [split; reflexivity|].
  cbn [orb]. now rewrite Hd, Hl.
Qed.

Lemma tagged_store_faithful : faithful tagged_store.
Proof.
  intros fs paths rs [= <-]. split; [|split].
  - apply Forall_forall. intros r Hr.
    apply in_map_iff in Hr as (p & <- & _).
    split; simpl; [discriminate | intros n [= <-]; discriminate].
  - intros r Hr. now apply in_map_iff in Hr as (p & <- & Hp).
  - intros p Hp. exists (created p ("id-" ++ sanitize p)).
    split; [|split; [reflexivity | discriminate]].
    now apply (in_map (fun p => created p ("id-" ++ sanitize p))).
Qed.

Lemma tagged_store_plain : plain_client tagged_store.
Proof.
  intros fs paths rs r id [= <-] Hr Hid.
  apply in_map_iff in Hr as (p & <- & _).
  injection Hid as <-. destruct (sanitize_plain p) as [Hd Hl].
  split; [exact Hd | exact Hl].
Qed.

(** The final mapping of the run on [sample_output] with that client. *)
Definition tagged_mapping : BlobMapping :=
  [ ("stream_0/data000.ts", "id-stream_0/data000.ts");
    ("stream_0/data001.ts", "id-stream_0/data001.ts");
    ("stream_1/data000.ts", "id-stream_1/data000.ts");
    ("stream_0/playlist.m3u8", "id-stream_0/temp_playlist.m3u8");
    ("stream_1/playlist.m3u8", "id-stream_1/temp_playlist.m3u8") ].

Lemma full_run_uploads_master_with_urls_witness :
  exists masterBlobId fs',
    uploadHLSAssetsToWalrus tagged_store "/srv/out" sample_output
      = Ok (masterBlobId, tagged_mapping, fs') /\
    exists streamDirs content out fs1 m,
      getStreamDirectories sample_output = Ok streamDirs /\
      Fs.readFileSync sample_output "master.m3u8" = Some content /\
      Fs.readFileSync fs1 "temp_master.m3u8" = Some out /\
      uploadToWalrus tagged_store fs1
        [Path.join "/srv/out" "temp_master.m3u8"] = Ok m /\
      masterBlobId = Assoc.get (Path.join "/srv/out" "temp_master.m3u8") m /\
      List.length (RegExpFacts.lines out)
        = List.length (RegExpFacts.lines content) /\
      RegExpFacts.terminators out = RegExpFacts.terminators content /\
      (forall i d,
          In d streamDirs ->
          Fs.existsSync sample_output (playlist_of d) = true ->
          nth_error (RegExpFacts.lines content) i = Some (playlist_of d) ->
          exists id,
            Assoc.get (playlist_of d) tagged_mapping = Some id /\
            nth_error (RegExpFacts.lines out) i
            = Some ("https://aggregator.walrus-testnet.walrus.space/v1/blobs/"
                    ++ id)) /\
      (forall i l,
          nth_error (RegExpFacts.lines content) i = Some l ->
          Assoc.get l tagged_mapping = None ->
          nth_error (RegExpFacts.lines out) i = Some l).
Proof.
  eexists. eexists. split; [vm_compute; reflexivity|].
  eapply (full_run_uploads_master_with_urls tagged_store "/srv/out"
            sample_output).
  - split.
    + repeat constructor; simpl; intuition discriminate.
    + repeat constructor; discriminate.
  - exact tagged_store_faithful.
  - exact tagged_store_plain.
  - intros d n [[= <- <-]|[[= <- <-]|[[= <- <-]|[]]]] Hp;
      try (vm_compute in Hp; discriminate).
    + exact RewriteFacts.stream_0_plain.
    + exact RewriteFacts.stream_1_plain.
  - vm_compute. reflexivity.
Defined.

(** Without a readable [master.m3u8] a run ends in an error, for every
    client that answers each path it is given with an identifier and
    names no other path: the master manifest is read only after the
    segments and the sub-manifests were handed to the client, and nothing
    before creates it. *)
Theorem run_without_master_does_not_succeed :
  forall walrus_store assetsPath fs,
    Fs.wf_entries fs -> faithful walrus_store ->
    Fs.readFileSync fs "master.m3u8" = None ->
    exists e, uploadHLSAssetsToWalrus walrus_store assetsPath fs = Err e.
Proof.
  intros walrus_store assetsPath fs Hwf Hf Hno.
  destruct (uploadHLSAssetsToWalrus walrus_store assetsPath fs)
    as [[[mid bm] fs']|e] eqn:Hrun; [exfalso | now exists e].
  destruct (run_spec _ _ _ _ _ _ Hwf Hf Hrun)
    as (dirs & segs & Hdirs & _ & Hvalid & Hprefix & _).
  apply run_stages in Hrun
    as (dirs' & segs' & bm0 & fs1 & Hdirs' & _ & _ & Hpl & Hm).
  rewrite Hdirs in Hdirs'. injection Hdirs' as <-.
  assert (Hnd : NoDup dirs).
  { pose proof (EnumeratorFacts.getStreamDirectories_entries fs Hwf) as H.
    rewrite Hdirs in H. injection H as ->. now apply stream_dirs_valid. }
  destruct (processAndUploadPlaylists_spec _ _ _ _ _ _ Hf Hvalid Hnd Hpl)
    as (_ & _ & Hframe & _).
  destruct (processAndUploadMasterPlaylist_stages
              _ _ _ _ _ _ Hm) as (content & _ & _ & _ & Hread & _).
  rewrite (read_name fs _ valid_master) in Hno.
  rewrite (read_name fs1 _ valid_master) in Hread.
  rewrite (Hframe "master.m3u8") in Hread; [congruence|].
  intros Hin. apply filter_In in Hin as [Hin _].
  apply Hprefix in Hin. discriminate.
Qed.

Lemma run_without_master_does_not_succeed_witness :
  exists e,
    uploadHLSAssetsToWalrus sample_store "/srv/out"
      [ ("stream_0", Fs.Dir [ ("data000.ts", Fs.File "s0") ]) ]
    = Err e.
Proof.
  apply (run_without_master_does_not_succeed sample_store "/srv/out"
           [ ("stream_0", Fs.Dir [ ("data000.ts", Fs.File "s0") ]) ]).
  - split.
    + repeat constructor; simpl; intuition discriminate.
    + repeat constructor; discriminate.
  - exact sample_store_faithful.
  - vm_compute. reflexivity.
Defined.

End RunDetails.

(* ================================================================== *)
(** * More on the asset enumerator and the uploader *)
(* ================================================================== *)

Module EnumeratorInvariants.

Import JsString StringFacts Upload TreeFacts EnumeratorFacts.

Lemma NoDup_filter {A : Type} (f : A -> bool) (l : list A) :
  NoDup l -> NoDup (filter f l).
Proof.
  induction 1 as [|x l Hx Hnd IH]; simpl; [constructor|].
  destruct (f x); [|assumption]. constructor; [|assumption].
  intros Hin. apply filter_In in Hin as [Hin _]. contradiction.
Qed.

Lemma NoDup_map_append_inj (d : string) (l : list string) :
  NoDup l -> NoDup (map (fun f => d ++ "/" ++ f) l).
Proof.
  induction 1 as [|x l Hx Hnd IH]; simpl; constructor; [|assumption].
  intros Hin. apply in_map_iff in Hin as (y & Hy & Hin).
  apply append_inv_head in Hy. injection Hy as ->. contradiction.
Qed.

Lemma segment_paths_in (e : string * Fs.node) (p : string) :
  In p (segment_paths e) ->
  exists es f, snd e = Fs.Dir es /\ In f (Assoc.keys es) /\
               endsWith f ".ts" = true /\ p = fst e ++ "/" ++ f.
Proof.
  unfold segment_paths. destruct (snd e) as [c|es]; [contradiction|].
  intros Hin. apply in_map_iff in Hin as (f & <- & Hf).
  apply filter_In in Hf as [Hf Hts]. now exists es, f.
Qed.

(** In a tree with distinct proper names every path the enumerator
    yields names an entry of the tree, and no path is yielded twice: the
    batch handed to the client has existing and distinct paths. *)
Theorem enumerated_segments_exist_once :
  forall (fs : Fs.directory) (streamDirs allSegmentFiles : list string),
    Fs.wf fs ->
    getStreamDirectories fs = Ok streamDirs ->
    collectSegmentFiles fs streamDirs = Ok allSegmentFiles ->
    NoDup allSegmentFiles /\
    forall p, In p allSegmentFiles -> Fs.existsSync fs p = true.
Proof.
  intros fs dirs segs [Hwf Hsub] Hdirs Hsegs.
  rewrite (getStreamDirectories_entries fs Hwf) in Hdirs.
  injection Hdirs as <-.
  rewrite collectSegmentFiles_entries in Hsegs; [|assumption|].
  2:{ intros e He. unfold stream_entries in He.
      apply filter_In in He as [Hin Hdir].
      now apply andb_true_iff in Hdir as [Hdir _]. }
  injection Hsegs as <-.
  assert (Hsublist : forall e, In e (stream_entries fs) -> In e fs).
  { intros e He. unfold stream_entries in He.
    now apply filter_In in He as [He _]. }
  split.
  - assert (Hnd : NoDup (Assoc.keys (stream_entries fs)))
      by now apply (PipelineFacts.stream_dirs_valid fs).
    revert Hsublist Hnd. generalize (stream_entries fs) as l.
    induction l as [|[d n] l IH]; intros Hsublist Hnd; simpl; [constructor|].
    simpl in Hnd. inversion Hnd as [|? ? Hnotin Hnd']; subst.
    assert (Hin : In (d, n) fs) by (apply Hsublist; now left).
    apply NoDup_app.
    + unfold segment_paths. simpl. destruct n as [c|es]; [constructor|].
      apply NoDup_map_append_inj, NoDup_filter.
      now destruct (Hsub d es Hin) as [Hes _].
    + apply IH; [|assumption]. intros e He. apply Hsublist. now right.
    + intros p Hp Hp'.
      apply segment_paths_in in Hp as (es & f & _ & _ & _ & ->).
      apply in_flat_map in Hp' as ([d' n'] & Hd' & Hp').
      apply segment_paths_in in Hp' as (es' & f' & _ & _ & _ & Heq).
      simpl in Heq.
      assert (Hvd : Fs.valid_name d) by
        now apply (FsFacts.wf_entry_name fs d n Hwf).
      assert (Hvd' : Fs.valid_name d').
      { apply (FsFacts.wf_entry_name fs d' n' Hwf), Hsublist. now right. }
      change (d ++ "/" ++ f) with (d ++ String Path.slash f) in Heq.
      change (d' ++ "/" ++ f') with (d' ++ String Path.slash f') in Heq.
      apply RewriteFacts.first_segment_inj in Heq as [-> _];
        [|apply Hvd|apply Hvd'].
      apply Hnotin. unfold Assoc.keys.
      change d' with (fst (d', n')). now apply in_map.
  - intros p Hp. apply in_flat_map in Hp as ([d n] & Hd & Hp).
    apply segment_paths_in in Hp as (es & f & Hn & Hf & _ & ->).
    cbn [fst snd] in *. subst n.
    assert (Hin : In (d, Fs.Dir es) fs) by now apply Hsublist.
    destruct (Hsub d es Hin) as [_ Hvalid].
    rewrite exists_two.
    + rewrite (FsFacts.wf_entry_get fs d _ Hwf Hin).
      apply AssocFacts.get_in_keys in Hf as [x ->]. reflexivity.
    + now apply (FsFacts.wf_entry_name fs d _ Hwf Hin).
    + now apply (proj1 (Forall_forall _ _) Hvalid).
Qed.

Lemma enumerated_segments_exist_once_witness :
  exists streamDirs allSegmentFiles,
    getStreamDirectories PipelineFacts.sample_output = Ok streamDirs /\
    collectSegmentFiles PipelineFacts.sample_output streamDirs
      = Ok allSegmentFiles /\
    NoDup allSegmentFiles /\
    forall p, In p allSegmentFiles ->
              Fs.existsSync PipelineFacts.sample_output p = true.
Proof.
  eexists. eexists. split; [vm_compute; reflexivity|].
  split; [vm_compute; reflexivity|].
  eapply (enumerated_segments_exist_once PipelineFacts.sample_output).
  - split; [split|].
    + repeat constructor; simpl; intuition discriminate.
    + repeat constructor; discriminate.
    + intros d es [[= <- <-]|[[= <- <-]|[[= <- <-]|[]]]]; split;
        try (repeat constructor; simpl; intuition discriminate);
        repeat constructor; discriminate.
  - vm_compute. reflexivity.
  - vm_compute. reflexivity.
Defined.

Lemma collectSegmentFiles_error (fs : Fs.directory) (dirs : list string) :
  forall e, collectSegmentFiles fs dirs = Err e -> e = FsError.
Proof.
  induction dirs as [|d rest IH]; intros e; simpl; [discriminate|].
  destruct (Fs.readdirSync fs d) as [files|]; simpl;
    [|now intros [= <-]].
  destruct (collectSegmentFiles fs rest) as [more|e']; simpl;
    [discriminate|].
  intros [= <-]. now apply IH.
Qed.

(** [collectSegmentFiles] stops with a file-system error as soon as one
    of the names it is given is no directory of the tree: it checks
    nothing itself and relies on [getStreamDirectories]. *)
Theorem collectSegmentFiles_needs_directories :
  forall (fs : Fs.directory) (streamDirs : list string) (d : string),
    In d streamDirs -> Fs.valid_name d ->
    (forall es, Assoc.get d fs <> Some (Fs.Dir es)) ->
    collectSegmentFiles fs streamDirs = Err FsError.
Proof.
  intros fs dirs d Hin Hd Hno.
  induction dirs as [|d0 rest IH]; [contradiction|]. simpl.
  destruct Hin as [->|Hin].
  - unfold Fs.readdirSync. rewrite FsFacts.stat_name by assumption.
    destruct (Assoc.get d fs) as [[c|es]|] eqn:Hget; try reflexivity.
    now destruct (Hno es).
  - destruct (Fs.readdirSync fs d0) as [files|]; [|reflexivity].
    simpl. now rewrite (IH Hin).
Qed.

Lemma collectSegmentFiles_needs_directories_witness :
  collectSegmentFiles PipelineFacts.sample_output ["stream_0"; "master.m3u8"]
  = Err FsError.
Proof.
  apply (collectSegmentFiles_needs_directories
           PipelineFacts.sample_output ["stream_0"; "master.m3u8"]
           "master.m3u8").
  - simpl. auto.
  - split; [discriminate | reflexivity].
  - intros es. vm_compute. discriminate.
Defined.

End EnumeratorInvariants.

Module UploaderEdges.

Import JsString Upload UploaderFacts.

(** The result carries an identifier the loop stores. *)
Definition resolves (r : WalrusCLIResult) : bool := truthy (resolve_blobId r).

Lemma record_result_unresolved (m : BlobMapping) (r : WalrusCLIResult) :
  resolves r = false -> record_result m r = m.
Proof. unfold resolves, record_result. now intros ->. Qed.

Lemma record_result_resolved (m : BlobMapping) (r : WalrusCLIResult) :
  resolves r = true ->
  exists id, resolve_blobId r = Some id /\ id <> "" /\
             (record_result m r = Assoc.set (path r) id m \/
              record_result m r = m).
Proof.
  unfold resolves, record_result, set_property. intros Hr. rewrite Hr.
  destruct (resolve_blobId r) as [id|]; [|discriminate].
  exists id. split; [reflexivity|]. split; [intros ->; discriminate|].
  destruct (path r =? "__proto__"); auto.
Qed.

Lemma fold_record_filter (rs : list WalrusCLIResult) :
  forall m, fold_left record_result rs m
            = fold_left record_result (filter resolves rs) m.
Proof.
  induction rs as [|r rs IH]; intros m; simpl; [reflexivity|].
  destruct (resolves r) eqn:Hr; simpl.
  - apply IH.
  - rewrite record_result_unresolved by assumption. apply IH.
Qed.

Lemma fold_record_entry (rs : list WalrusCLIResult) :
  forall (m : BlobMapping) (p id : string),
    Assoc.get p (fold_left record_result rs m) = Some id ->
    Assoc.get p m = Some id \/
    (id <> "" /\
     exists r, In r rs /\ path r = p /\ resolve_blobId r = Some id).
Proof.
  induction rs as [|r rs IH]; intros m p id; simpl; [now left|].
  intros Hget. apply IH in Hget as [Hget|(Hid & r' & Hin & Hp & Hr)].
  - destruct (resolves r) eqn:Hres.
    + destruct (record_result_resolved m r Hres)
        as (id' & Hr & Hid & [Heq|Heq]); rewrite Heq in Hget; [|now left].
      destruct (String.eqb_spec (path r) p) as [Hp|Hp].
      * subst p. rewrite AssocFacts.get_set_same in Hget.
        injection Hget as <-. right. split; [assumption|].
        exists r. auto.
      * rewrite AssocFacts.get_set_other in Hget by assumption. now left.
    + rewrite record_result_unresolved in Hget by assumption. now left.
  - right. split; [assumption|]. exists r'. auto.
Qed.

Lemma resolve_blobId_cases (r : WalrusCLIResult) (id : string) :
  resolve_blobId r = Some id -> id <> "" ->
  (exists a, alreadyCertified (blobStoreResult r) = Some a /\
             ac_blobId a = id) \/
  ((forall a, alreadyCertified (blobStoreResult r) = Some a ->
              ac_blobId a = "") /\
   exists n, newlyCreated (blobStoreResult r) = Some n /\
             blobId (blobObject n) = id).
Proof.
  unfold resolve_blobId, js_or.
  destruct (alreadyCertified (blobStoreResult r)) as [a|]; cbn [option_map].
  - unfold truthy at 1. destruct (String.eqb_spec (ac_blobId a) "") as [He|He];
      cbn [negb].
    + intros Hn Hid. right. split; [now intros a' [= <-]|].
      destruct (newlyCreated (blobStoreResult r)) as [n|]; [|discriminate].
      injection Hn as <-. now exists n.
    + intros [= <-] _. left. now exists a.
  - cbn [truthy]. intros Hn Hid. right. split; [discriminate|].
    destruct (newlyCreated (blobStoreResult r)) as [n|]; [|discriminate].
    injection Hn as <-. now exists n.
Qed.

(** Whatever the client answers, the mapping the uploader returns holds
    no empty identifier, and each of its entries comes from a result for
    that path: the identifier is the certified one of that result, or the
    created one when the certified one is absent or the empty string. *)
Theorem uploadToWalrus_entries_come_from_results :
  forall (walrus_store :
            Fs.directory -> list string -> option (list WalrusCLIResult))
         (fs : Fs.directory) (filePaths : list string)
         (results : list WalrusCLIResult) (m : BlobMapping)
         (p id : string),
    walrus_store fs filePaths = Some results ->
    uploadToWalrus walrus_store fs filePaths = Ok m ->
    Assoc.get p m = Some id ->
    id <> "" /\
    exists r, In r results /\ path r = p /\
      ((exists a, alreadyCertified (blobStoreResult r) = Some a /\
                  ac_blobId a = id) \/
       ((forall a, alreadyCertified (blobStoreResult r) = Some a ->
                   ac_blobId a = "") /\
        exists n, newlyCreated (blobStoreResult r) = Some n /\
                  blobId (blobObject n) = id)).
Proof.
  intros walrus_store fs filePaths results m p id Hs Hrun Hget.
  unfold uploadToWalrus in Hrun. rewrite Hs in Hrun. simpl in Hrun.
  injection Hrun as <-.
  apply fold_record_entry in Hget as [Hget|(Hid & r & Hin & Hp & Hr)];
    [discriminate|].
  split; [assumption|]. exists r. repeat split; try assumption.
  now apply resolve_blobId_cases.
Qed.

Lemma uploadToWalrus_entries_come_from_results_witness :
  exists m,
    uploadToWalrus (fun _ _ => Some [certified "a.ts" "";
                                     empty_certified "b.ts" "id-b"])
                   [] ["a.ts"; "b.ts"] = Ok m /\
    Assoc.get "b.ts" m = Some "id-b" /\
    "id-b" <> "" /\
    exists r, In r [certified "a.ts" ""; empty_certified "b.ts" "id-b"] /\
      path r = "b.ts" /\
      ((exists a, alreadyCertified (blobStoreResult r) = Some a /\
                  ac_blobId a = "id-b") \/
       ((forall a, alreadyCertified (blobStoreResult r) = Some a ->
                   ac_blobId a = "") /\
        exists n, newlyCreated (blobStoreResult r) = Some n /\
                  blobId (blobObject n) = "id-b")).
Proof.
  eexists. split; [vm_compute; reflexivity|].
  split; [vm_compute; reflexivity|].
  eapply (uploadToWalrus_entries_come_from_results
            (fun _ _ => Some [certified "a.ts" "";
                              empty_certified "b.ts" "id-b"])
            [] ["a.ts"; "b.ts"]).
  - reflexivity.
  - vm_compute. reflexivity.
  - vm_compute. reflexivity.
Defined.

(** The results that carry no identifier, or only empty ones, count for
    nothing: a client that leaves them out of its answer gets the same
    mapping from the uploader. *)
Theorem uploadToWalrus_drops_results_without_identifier :
  forall (walrus_store walrus_store' :
            Fs.directory -> list string -> option (list WalrusCLIResult))
         (fs : Fs.directory) (filePaths : list string)
         (results : list WalrusCLIResult),
    walrus_store fs filePaths = Some results ->
    walrus_store' fs filePaths = Some (filter resolves results) ->
    uploadToWalrus walrus_store fs filePaths
    = uploadToWalrus walrus_store' fs filePaths.
Proof.
  intros walrus_store walrus_store' fs filePaths results Hs Hs'.
  unfold uploadToWalrus. rewrite Hs, Hs'. simpl.
  now rewrite fold_record_filter.
Qed.

Lemma uploadToWalrus_drops_results_without_identifier_witness :
  uploadToWalrus
    (fun _ _ => Some [created "a.ts" "id-a"; certified "b.ts" "";
                      neither "c.ts"]) [] ["a.ts"; "b.ts"; "c.ts"]
  = uploadToWalrus (fun _ _ => Some [created "a.ts" "id-a"])
                   [] ["a.ts"; "b.ts"; "c.ts"].
Proof.
  apply (uploadToWalrus_drops_results_without_identifier
           (fun _ _ => Some [created "a.ts" "id-a"; certified "b.ts" "";
                             neither "c.ts"])
           (fun _ _ => Some [created "a.ts" "id-a"])
           [] ["a.ts"; "b.ts"; "c.ts"]
           [created "a.ts" "id-a"; certified "b.ts" ""; neither "c.ts"]);
    reflexivity.
Defined.

End UploaderEdges.

(* ================================================================== *)
(** * The validator by the shape of the file name *)
(* ================================================================== *)

Module ValidatorShapes.

Import JsString StringFacts Ffmpeg.

(** Where a path can be cut before its last segment: at its start or
    after a slash. *)
Definition segment_start (a : string) : Prop :=
  a = "" \/ exists d, a = d ++ "/".

(** The state of the loop of [path.extname] before anything is seen. *)
Definition ext_init : Path.ext_state := Path.mkExt (-1) 0 (-1) true 0.

(** The last character of the path, when it is no slash. *)
Lemma extname_loop_first (p : string) (n : nat) (x : ascii) :
  get n p = Some x -> x <> Path.slash ->
  Path.extname_loop p (S n) ext_init
  = Path.extname_loop p n
      (Path.mkExt (if (x =? Path.dot)%char then Z.of_nat n else -1) 0
                  (Z.of_nat n + 1) false 0).
Proof.
  intros Hget Hx. cbn [Path.extname_loop]. rewrite Hget.
  apply Ascii.eqb_neq in Hx. rewrite Hx. unfold ext_init. simpl.
  now destruct (x =? Path.dot)%char.
Qed.

(** Characters that are neither slash nor dot, before any dot is seen. *)
Lemma extname_loop_skip (p : string) (lo : nat) (st : Path.ext_state) :
  Path.ext_end st <> (-1)%Z -> Path.startDot st = (-1)%Z ->
  forall k,
    (forall j, lo <= j < lo + k ->
               exists x, get j p = Some x /\ x <> Path.slash /\ x <> Path.dot) ->
    Path.extname_loop p (lo + k) st = Path.extname_loop p lo st.
Proof.
  intros Hend Hdot. induction k as [|k IH]; intros Hrun.
  - now rewrite Nat.add_0_r.
  - rewrite Nat.add_succ_r. cbn [Path.extname_loop].
    destruct (Hrun (lo + k)) as (x & Hget & Hs & Hd); [lia|].
    rewrite Hget. apply Ascii.eqb_neq in Hs, Hd. rewrite Hs, Hd.
    apply Z.eqb_neq in Hend. rewrite Hend. cbn zeta.
    rewrite Hdot. simpl. apply IH. intros j Hj. apply Hrun. lia.
Qed.

(** A dot after such characters: the extension starts here. *)
Lemma extname_loop_dot (p : string) (n : nat) (sp e : Z) :
  get n p = Some Path.dot -> e <> (-1)%Z ->
  Path.extname_loop p (S n) (Path.mkExt (-1) sp e false 0)
  = Path.extname_loop p n (Path.mkExt (Z.of_nat n) sp e false 0).
Proof.
  intros Hget He. cbn [Path.extname_loop]. rewrite Hget.
  apply Z.eqb_neq in He. simpl. now rewrite He.
Qed.

(** The characters of the segment before its last dot: only
    [preDotState] moves, and it leaves 0 at the first of them. *)
Lemma extname_loop_stem (p : string) (lo : nat) (sd sp e : Z) :
  sd <> (-1)%Z -> e <> (-1)%Z ->
  forall k pd,
    (forall j, lo <= j < lo + k ->
               exists x, get j p = Some x /\ x <> Path.slash) ->
    exists pd',
      Path.extname_loop p (lo + k) (Path.mkExt sd sp e false pd)
      = Path.extname_loop p lo (Path.mkExt sd sp e false pd') /\
      (k = 0 -> pd' = pd) /\
      (0 < k -> pd' = 1%Z \/ pd' = (-1)%Z).
Proof.
  intros Hsd He. apply Z.eqb_neq in Hsd, He.
  induction k as [|k IH]; intros pd Hrun.
  - exists pd. rewrite Nat.add_0_r. split; [reflexivity|]. split; [auto | lia].
  - rewrite Nat.add_succ_r. cbn [Path.extname_loop].
    destruct (Hrun (lo + k)) as (x & Hget & Hs); [lia|].
    rewrite Hget. apply Ascii.eqb_neq in Hs. rewrite Hs.
    cbn [Path.ext_end Path.startDot Path.preDotState Path.startPart
         Path.ext_matchedSlash].
    rewrite He. cbn zeta.
    cbn [Path.ext_end Path.startDot Path.preDotState Path.startPart
         Path.ext_matchedSlash].
    rewrite Hsd. cbn [negb].
    assert (Hrest : forall j, lo <= j < lo + k ->
                              exists x, get j p = Some x /\ x <> Path.slash)
      by (intros j Hj; apply Hrun; lia).
    assert (Hnext : forall pd1, pd1 = 1%Z \/ pd1 = (-1)%Z ->
              exists pd',
                Path.extname_loop p (lo + k) (Path.mkExt sd sp e false pd1)
                = Path.extname_loop p lo (Path.mkExt sd sp e false pd') /\
                (S k = 0 -> pd' = pd) /\
                (0 < S k -> pd' = 1%Z \/ pd' = (-1)%Z)).
    { intros pd1 Hpd1. destruct (IH pd1 Hrest) as (pd' & Heq & Hzero & Hpos).
      exists pd'. split; [exact Heq|]. split; [discriminate|]. intros _.
      destruct k as [|k']; [rewrite Hzero by reflexivity; exact Hpd1|].
      apply Hpos. lia. }
    destruct (x =? Path.dot)%char.
    + destruct (Z.eqb_spec pd 1) as [->|Hpd]; cbn [negb];
        apply Hnext; now left.
    + apply Hnext. now right.
Qed.

(** The start of the last segment ends the loop. *)
Lemma extname_loop_finish (a rest : string) (sd sp e pd : Z) :
  segment_start a ->
  exists sp',
    Path.extname_loop (a ++ rest) (String.length a)
                      (Path.mkExt sd sp e false pd)
    = Path.mkExt sd sp' e false pd.
Proof.
  intros [->|[d ->]].
  - exists sp. reflexivity.
  - exists (Z.of_nat (String.length d) + 1)%Z.
    assert (Hget : get (String.length d) ((d ++ "/") ++ rest)
                   = Some Path.slash).
    { rewrite append_assoc.
      rewrite <- (Nat.add_0_r (String.length d)), get_append_r.
      reflexivity. }
    rewrite length_append. cbn [String.length].
    rewrite Nat.add_1_r. cbn [Path.extname_loop].
    rewrite Hget. reflexivity.
Qed.

Lemma get_run (a s b : string) (c : ascii) :
  mem c s = false ->
  forall j, String.length a <= j < String.length a + String.length s ->
    exists x, get j (a ++ s ++ b) = Some x /\ x <> c.
Proof.
  intros Hc j Hj.
  replace j with (String.length a + (j - String.length a)) by lia.
  rewrite get_append_r, get_append_l by lia.
  destruct (get_in_range s (j - String.length a)) as [x Hx]; [lia|].
  exists x. split; [assumption|]. eapply get_not_mem; eauto.
Qed.

Lemma get_run2 (a s b : string) :
  mem Path.slash s = false -> mem Path.dot s = false ->
  forall j, String.length a <= j < String.length a + String.length s ->
    exists x, get j (a ++ s ++ b) = Some x /\ x <> Path.slash /\ x <> Path.dot.
Proof.
  intros Hs Hd j Hj.
  destruct (get_run a s b Path.slash Hs j Hj) as (x & Hx & Hxs).
  destruct (get_run a s b Path.dot Hd j Hj) as (y & Hy & Hyd).
  rewrite Hx in Hy. injection Hy as <-. now exists x.
Qed.

Lemma last_char (s : string) :
  s <> "" -> exists n, String.length s = S n.
Proof. destruct s as [|c s]; [contradiction|]. intros _. now exists (String.length s). Qed.

(** The loop over a last segment without a dot. *)
Lemma extname_loop_no_dot (a name : string) :
  segment_start a -> name <> "" ->
  mem Path.slash name = false -> mem Path.dot name = false ->
  exists sp,
    Path.extname_loop (a ++ name) (String.length (a ++ name)) ext_init
    = Path.mkExt (-1) sp (Z.of_nat (String.length (a ++ name))) false 0.
Proof.
  intros Ha Hne Hs Hd. rewrite length_append.
  destruct (last_char name Hne) as [n Hn]. rewrite Hn.
  assert (Hrun : forall j,
             String.length a <= j < String.length a + String.length name ->
             exists x, get j (a ++ name) = Some x /\
                       x <> Path.slash /\ x <> Path.dot).
  { intros j Hj.
    replace (a ++ name) with (a ++ name ++ "")
      by now rewrite append_nil_r.
    now apply get_run2. }
  rewrite Nat.add_succ_r.
  destruct (Hrun (String.length a + n)) as (x & Hx & Hxs & Hxd); [lia|].
  rewrite (extname_loop_first _ _ x Hx Hxs).
  apply Ascii.eqb_neq in Hxd. rewrite Hxd.
  rewrite extname_loop_skip; [| simpl; lia | reflexivity |].
  2:{ intros j Hj. apply Hrun. lia. }
  destruct (extname_loop_finish a name (-1) 0
              (Z.of_nat (String.length a + n) + 1) 0 Ha) as [sp Hsp].
  exists sp. rewrite Hsp. f_equal. lia.
Qed.

(** The loop over a last segment [stem.ext]: the stem may be empty and
    may have dots of its own. *)
Lemma extname_loop_dotted (a stem ext : string) :
  segment_start a ->
  mem Path.slash stem = false ->
  mem Path.slash ext = false -> mem Path.dot ext = false ->
  let p := a ++ stem ++ String Path.dot ext in
  exists sp pd,
    Path.extname_loop p (String.length p) ext_init
    = Path.mkExt (Z.of_nat (String.length a + String.length stem)) sp
                 (Z.of_nat (String.length p)) false pd /\
    (stem = "" -> pd = 0%Z) /\
    (stem <> "" -> pd = 1%Z \/ pd = (-1)%Z).
Proof.
  intros Ha Hss Hes Hed p.
  assert (Hlen : String.length p
                 = String.length a + String.length stem
                   + S (String.length ext)).
  { unfold p. rewrite !length_append. cbn [String.length]. lia. }
  assert (Hdot : get (String.length a + String.length stem) p
                 = Some Path.dot).
  { unfold p. rewrite get_append_r.
    rewrite <- (Nat.add_0_r (String.length stem)), get_append_r.
    reflexivity. }
  assert (Hext : forall j,
             String.length a + String.length stem + 1 <= j
             < String.length a + String.length stem + 1 + String.length ext ->
             exists x, get j p = Some x /\ x <> Path.slash /\ x <> Path.dot).
  { intros j Hj. unfold p.
    replace (a ++ stem ++ String Path.dot ext)
      with (((a ++ stem) ++ String Path.dot "") ++ ext ++ "").
    - apply get_run2; try assumption.
      rewrite !length_append. cbn [String.length]. lia.
    - rewrite append_nil_r, !append_assoc. reflexivity. }
  assert (Hstem : forall j,
             String.length a <= j < String.length a + String.length stem ->
             exists x, get j p = Some x /\ x <> Path.slash).
  { intros j Hj. unfold p. now apply get_run. }
  (* the characters after the dot, and the dot *)
  assert (Hphase1 :
            Path.extname_loop p (String.length p) ext_init
            = Path.extname_loop p (String.length a + String.length stem)
                (Path.mkExt (Z.of_nat (String.length a + String.length stem))
                            0 (Z.of_nat (String.length p)) false 0)).
  { rewrite Hlen. rewrite Nat.add_succ_r.
    destruct ext as [|c ext'] eqn:Hexteq.
    - cbn [String.length]. rewrite Nat.add_0_r.
      rewrite (extname_loop_first _ _ Path.dot Hdot) by discriminate.
      rewrite Ascii.eqb_refl. f_equal. f_equal. lia.
    - rewrite <- Hexteq in *.
      destruct (last_char ext) as [n Hn]; [now rewrite Hexteq|].
      rewrite Hn in *. rewrite Nat.add_succ_r.
      destruct (Hext (S (String.length a + String.length stem + n)))
        as (x & Hx & Hxs & Hxd); [lia|].
      rewrite (extname_loop_first _ _ x Hx Hxs).
      apply Ascii.eqb_neq in Hxd. rewrite Hxd.
      replace (S (String.length a + String.length stem + n))
        with (S (String.length a + String.length stem) + n) by lia.
      rewrite extname_loop_skip; [| simpl; lia | reflexivity |].
      2:{ intros j Hj. apply Hext. lia. }
      rewrite extname_loop_dot; [| exact Hdot | lia].
      f_equal. f_equal. lia. }
  rewrite Hphase1.
  destruct (extname_loop_stem p (String.length a)
              (Z.of_nat (String.length a + String.length stem)) 0
              (Z.of_nat (String.length p)) ltac:(lia) ltac:(lia)
              (String.length stem) 0%Z Hstem)
    as (pd & Heq & Hpd & Hpos).
  rewrite Heq.
  destruct (extname_loop_finish a (stem ++ String Path.dot ext)
              (Z.of_nat (String.length a + String.length stem)) 0
              (Z.of_nat (String.length p)) pd Ha) as [sp Hsp].
  fold p in Hsp. rewrite Hsp. exists sp, pd. split; [reflexivity|]. split.
  - intros ->. now apply Hpd.
  - intros Hne. apply Hpos. destruct stem; [contradiction | simpl; lia].
Qed.

Lemma extname_dotted (a stem ext : string) :
  segment_start a -> stem <> "" -> mem Path.slash stem = false ->
  ext <> "" -> mem Path.slash ext = false -> mem Path.dot ext = false ->
  Path.extname (a ++ stem ++ "." ++ ext) = "." ++ ext.
Proof.
  intros Ha Hstem Hss Hext Hes Hed.
  change (a ++ stem ++ "." ++ ext) with (a ++ stem ++ String Path.dot ext).
  destruct (extname_loop_dotted a stem ext Ha Hss Hes Hed)
    as (sp & pd & Hloop & _ & Hpd).
  specialize (Hpd Hstem). cbv zeta in Hloop.
  unfold Path.extname. fold ext_init. rewrite Hloop.
  cbn [Path.ext_end Path.startDot Path.preDotState Path.startPart
       Path.ext_matchedSlash].
  assert (Hlen : String.length (a ++ stem ++ String Path.dot ext)
                 = String.length a + String.length stem
                   + S (String.length ext)).
  { rewrite !length_append. cbn [String.length]. lia. }
  destruct (last_char ext Hext) as [n Hn].
  rewrite Hlen, Hn.
  replace (Z.of_nat (String.length a + String.length stem) =? -1)%Z
    with false by (symmetry; apply Z.eqb_neq; lia).
  replace (Z.of_nat (String.length a + String.length stem + S (S n)) =? -1)%Z
    with false by (symmetry; apply Z.eqb_neq; lia).
  replace (pd =? 0)%Z with false by (symmetry; apply Z.eqb_neq; lia).
  replace (Z.of_nat (String.length a + String.length stem)
           =? Z.of_nat (String.length a + String.length stem + S (S n)) - 1)%Z
    with false by (symmetry; apply Z.eqb_neq; lia).
  rewrite andb_false_r. cbn [orb andb].
  unfold Path.slice. rewrite !Nat2Z.id.
  replace (String.length a + String.length stem + S (S n)
           - (String.length a + String.length stem))
    with (String.length (String Path.dot ext))
    by (cbn [String.length]; lia).
  rewrite <- append_assoc, <- length_append.
  rewrite PathRoundTrip.substring_skip.
  apply PathRoundTrip.substring_all.
Qed.

Lemma extname_no_dot (a name : string) :
  segment_start a -> name <> "" ->
  mem Path.slash name = false -> mem Path.dot name = false ->
  Path.extname (a ++ name) = "".
Proof.
  intros Ha Hne Hs Hd.
  destruct (extname_loop_no_dot a name Ha Hne Hs Hd) as [sp Hloop].
  unfold Path.extname. fold ext_init. now rewrite Hloop.
Qed.

Lemma extname_dotfile (a ext : string) :
  segment_start a ->
  mem Path.slash ext = false -> mem Path.dot ext = false ->
  Path.extname (a ++ "." ++ ext) = "".
Proof.
  intros Ha Hes Hed.
  destruct (extname_loop_dotted a "" ext Ha eq_refl Hes Hed)
    as (sp & pd & Hloop & Hpd & _).
  specialize (Hpd eq_refl). subst pd. cbv zeta in Hloop.
  change (a ++ "" ++ String Path.dot ext) with (a ++ "." ++ ext) in Hloop.
  unfold Path.extname. fold ext_init. rewrite Hloop.
  cbn [Path.ext_end Path.startDot Path.preDotState Path.startPart
       Path.ext_matchedSlash].
  change (0 =? 0)%Z with true. now rewrite orb_true_r.
Qed.

Lemma toLowerCase_dot (ext : string) :
  (toLowerCase ("." ++ ext) =? ".mp4") = (toLowerCase ext =? "mp4").
Proof. reflexivity. Qed.

(** For an existing path whose last segment is [stem.ext], with a stem
    that is not empty and an extension without a further dot, the
    validator looks at [ext] alone: it accepts when [ext] is [mp4] in any
    mix of upper and lower case and rejects with [UnsupportedFormat]
    otherwise, whatever the directories and the stem are. *)
Theorem validateInputFile_decides_by_last_extension :
  forall (World : Type) (existsSync : World -> string -> bool) (w : World)
         (a stem ext : string),
    segment_start a ->
    stem <> "" -> mem Path.slash stem = false ->
    ext <> "" -> mem Path.slash ext = false -> mem Path.dot ext = false ->
    existsSync w (a ++ stem ++ "." ++ ext) = true ->
    validateInputFile existsSync (a ++ stem ++ "." ++ ext) w
    = (if toLowerCase ext =? "mp4" then Ok tt else Err UnsupportedFormat, w).
Proof.
  intros World existsSync w a stem ext Ha Hstem Hss Hext Hes Hed Hex.
  unfold validateInputFile. rewrite Hex. cbn [negb].
  rewrite extname_dotted by assumption. cbv zeta.
  rewrite toLowerCase_dot.
  now destruct (toLowerCase ext =? "mp4").
Qed.

Lemma validateInputFile_decides_by_last_extension_witness :
  validateInputFile Fs.existsSync "clips/intro.mp4" ValidatorFacts.sample_cwd
  = (Ok tt, ValidatorFacts.sample_cwd).
Proof.
  apply (validateInputFile_decides_by_last_extension
           Fs.directory Fs.existsSync ValidatorFacts.sample_cwd
           "clips/" "intro" "mp4").
  - right. now exists "clips".
  - discriminate.
  - reflexivity.
  - discriminate.
  - reflexivity.
  - reflexivity.
  - vm_compute. reflexivity.
Defined.

(** A home directory with a file that has no extension and a file whose
    whole name is [.mp4]. *)
Definition sample_home : Fs.directory :=
  [ ("README", Fs.File "read me"); (".mp4", Fs.File "hidden") ].

(** An existing path whose last segment has no dot, or has its only dot
    in front (a hidden file such as [.mp4]), has no extension for
    [path.extname]: the validator rejects it with [UnsupportedFormat]. *)
Theorem validateInputFile_rejects_names_without_extension :
  forall (World : Type) (existsSync : World -> string -> bool) (w : World)
         (a name : string),
    segment_start a ->
    mem Path.slash name = false ->
    (name <> "" /\ mem Path.dot name = false) \/
    (exists ext, name = "." ++ ext /\ mem Path.dot ext = false) ->
    existsSync w (a ++ name) = true ->
    validateInputFile existsSync (a ++ name) w = (Err UnsupportedFormat, w).
Proof.
  intros World existsSync w a name Ha Hs Hshape Hex.
  unfold validateInputFile. rewrite Hex. cbn [negb].
  destruct Hshape as [[Hne Hd]|(ext & -> & Hd)].
  - now rewrite extname_no_dot.
  - rewrite extname_dotfile; [reflexivity | assumption | | assumption].
    simpl in Hs. exact Hs.
Qed.

Lemma validateInputFile_rejects_names_without_extension_witness :
  validateInputFile Fs.existsSync ".mp4" sample_home
  = (Err UnsupportedFormat, sample_home).
Proof.
  apply (validateInputFile_rejects_names_without_extension
           Fs.directory Fs.existsSync sample_home "" ".mp4").
  - now left.
  - reflexivity.
  - right. exists "mp4". split; reflexivity.
  - vm_compute. reflexivity.
Defined.

End ValidatorShapes.

(* ================================================================== *)
(** * The output directory *)
(* ================================================================== *)

Module OutputDirFacts.

Import JsString FfmpegOutput.

(** The paths of the domain: the segments are names, none of them [.]
    or [..], and the path does not end with a slash. *)
Definition proper_path (p : string) : Prop :=
  Path.segments p <> [] /\ endsWith p "/" = false /\
  Forall (fun s => s <> "." /\ s <> "..") (Path.segments p).

Lemma mkdir_recursive_dir (n n' : Fs.node) (segs : list string) :
  mkdir_recursive n segs = Some n' ->
  Fs.isDirectory n = true /\ Fs.isDirectory n' = true.
Proof.
  destruct segs as [|s rest]; destruct n as [c|es]; simpl;
    try discriminate.
  - intros [= <-]. auto.
  - destruct (mkdir_recursive _ rest); [|discriminate].
    intros [= <-]. auto.
Qed.

(** What is there stays: a path that led to a node leads to a node of
    the same kind, and to the same file when it is a file. *)
Lemma mkdir_recursive_keeps (segs : list string) :
  forall (n n' : Fs.node) (q : list string) (m : Fs.node),
    mkdir_recursive n segs = Some n' ->
    Fs.walk n q = Some m ->
    exists m', Fs.walk n' q = Some m' /\
               Fs.isDirectory m' = Fs.isDirectory m /\
               (forall c, m = Fs.File c -> m' = Fs.File c).
Proof.
  induction segs as [|s rest IH]; intros n n' q m Hmk Hwalk.
  - destruct n as [c|es]; [discriminate|]. injection Hmk as <-.
    exists m. auto.
  - destruct q as [|t q'].
    + injection Hwalk as <-. exists n'.
      destruct (mkdir_recursive_dir _ _ _ Hmk) as [Hn Hn'].
      split; [reflexivity|]. split; [congruence|].
      intros c ->. discriminate.
    + destruct n as [c|es]; [discriminate|]. cbn [mkdir_recursive] in Hmk.
      cbn zeta in Hmk.
      destruct (mkdir_recursive _ rest) as [c'|] eqn:Hrest; [|discriminate].
      injection Hmk as <-. cbn [Fs.walk] in *.
      destruct (Assoc.get t es) as [ch|] eqn:Hget; [|discriminate].
      destruct (String.eqb_spec s t) as [->|Hst].
      * rewrite AssocFacts.get_set_same. rewrite Hget in Hrest.
        exact (IH ch c' q' m Hrest Hwalk).
      * rewrite AssocFacts.get_set_other by assumption. rewrite Hget.
        exists m. auto.
Qed.

Lemma mkdir_recursive_fresh (segs : list string) :
  forall n', mkdir_recursive (Fs.Dir []) segs = Some n' ->
             Fs.walk n' segs = Some (Fs.Dir []).
Proof.
  induction segs as [|s rest IH]; intros n'; simpl.
  - now intros [= <-].
  - destruct (mkdir_recursive (Fs.Dir []) rest) as [c'|] eqn:Hrest;
      [|discriminate].
    intros [= <-]. simpl. rewrite String.eqb_refl. now apply IH.
Qed.

(** A path that was missing leads to an empty directory. *)
Lemma mkdir_recursive_creates (segs : list string) :
  forall n n', Fs.walk n segs = None ->
               mkdir_recursive n segs = Some n' ->
               Fs.walk n' segs = Some (Fs.Dir []).
Proof.
  induction segs as [|s rest IH]; intros n n' Hwalk Hmk; [discriminate|].
  destruct n as [c|es]; [discriminate|]. cbn [mkdir_recursive] in Hmk.
  cbn zeta in Hmk.
  destruct (mkdir_recursive _ rest) as [c'|] eqn:Hrest; [|discriminate].
  injection Hmk as <-. cbn [Fs.walk] in *.
  rewrite AssocFacts.get_set_same.
  destruct (Assoc.get s es) as [ch|].
  - exact (IH ch c' Hwalk Hrest).
  - now apply mkdir_recursive_fresh.
Qed.

(** When [ensureOutputDir] returns, the output path exists; a path that
    was there before is left alone, even when it is a file and no
    directory; a path that was missing is now an empty directory; and
    every file and directory that was there before is still there, the
    files with their content. *)
Theorem ensureOutputDir_creates_without_damage :
  forall (fs fs' : Fs.directory) (outputDir : string),
    proper_path outputDir ->
    ensureOutputDir outputDir fs = Ok fs' ->
    Fs.existsSync fs' outputDir = true /\
    (Fs.existsSync fs outputDir = true -> fs' = fs) /\
    (Fs.existsSync fs outputDir = false ->
     Fs.readdirSync fs' outputDir = Some []) /\
    (forall q, Fs.existsSync fs q = true -> Fs.existsSync fs' q = true) /\
    (forall q c, Fs.readFileSync fs q = Some c ->
                 Fs.readFileSync fs' q = Some c).
Proof.
  intros fs fs' outputDir _ Hrun. unfold ensureOutputDir in Hrun.
  destruct (Fs.existsSync fs outputDir) eqn:Hex; cbn [negb] in Hrun.
  - injection Hrun as <-. repeat split; auto. discriminate.
  - unfold mkdirSync in Hrun.
    destruct (mkdir_recursive (Fs.Dir fs) (Path.segments outputDir))
      as [[c|es]|] eqn:Hmk; try discriminate.
    injection Hrun as <-.
    assert (Hnew : Fs.walk (Fs.Dir es) (Path.segments outputDir)
                   = Some (Fs.Dir [])).
    { apply (mkdir_recursive_creates _ (Fs.Dir fs)); [|assumption].
      unfold Fs.existsSync, Fs.statSync in Hex.
      now destruct (Fs.walk (Fs.Dir fs) (Path.segments outputDir)). }
    split; [|split; [discriminate|split; [|split]]].
    + unfold Fs.existsSync, Fs.statSync. now rewrite Hnew.
    + intros _. unfold Fs.readdirSync, Fs.statSync. now rewrite Hnew.
    + intros q. unfold Fs.existsSync, Fs.statSync.
      destruct (Fs.walk (Fs.Dir fs) (Path.segments q)) as [m|] eqn:Hq;
        [|discriminate].
      destruct (mkdir_recursive_keeps _ _ _ _ _ Hmk Hq) as (m' & -> & _).
      reflexivity.
    + intros q c. unfold Fs.readFileSync, Fs.statSync.
      destruct (Fs.walk (Fs.Dir fs) (Path.segments q)) as [[c0|es0]|] eqn:Hq;
        try discriminate.
      intros [= ->].
      destruct (mkdir_recursive_keeps _ _ _ _ _ Hmk Hq) as (m' & -> & _ & Hf).
      now rewrite (Hf c eq_refl).
Qed.

(** A working directory with a film, and a file where a directory is
    wanted. *)
Definition sample_work : Fs.directory :=
  [ ("film.mp4", Fs.File "bytes"); ("out", Fs.File "not a directory") ].

Lemma ensureOutputDir_creates_without_damage_witness :
  exists fs',
    ensureOutputDir "build/hls" sample_work = Ok fs' /\
    Fs.existsSync fs' "build/hls" = true /\
    (Fs.existsSync sample_work "build/hls" = true -> fs' = sample_work) /\
    (Fs.existsSync sample_work "build/hls" = false ->
     Fs.readdirSync fs' "build/hls" = Some []) /\
    (forall q, Fs.existsSync sample_work q = true ->
               Fs.existsSync fs' q = true) /\
    (forall q c, Fs.readFileSync sample_work q = Some c ->
                 Fs.readFileSync fs' q = Some c).
Proof.
  eexists. split; [vm_compute; reflexivity|].
  eapply (ensureOutputDir_creates_without_damage sample_work _ "build/hls").
  - split; [vm_compute; discriminate|]. split; [vm_compute; reflexivity|].
    vm_compute. repeat constructor; discriminate.
  - vm_compute. reflexivity.
Defined.

Lemma walk_through_file (pre rest : list string) :
  forall (n : Fs.node) (c : string),
    Fs.walk n pre = Some (Fs.File c) -> rest <> [] ->
    Fs.walk n (pre ++ rest) = None /\
    mkdir_recursive n (pre ++ rest) = None.
Proof.
  induction pre as [|s pre IH]; intros n c Hwalk Hrest.
  - injection Hwalk as ->. destruct rest as [|r rest]; [contradiction|].
    split; reflexivity.
  - destruct n as [c0|es]; [discriminate|]. cbn [Fs.walk] in Hwalk.
    destruct (Assoc.get s es) as [ch|] eqn:Hget; [|discriminate].
    destruct (IH ch c Hwalk Hrest) as [Hw Hm].
    cbn [app Fs.walk mkdir_recursive]. rewrite Hget. cbn zeta.
    now rewrite Hw, Hm.
Qed.

(** [ensureOutputDir] cannot make a directory below a file: when a
    segment of the output path before its last leads to a file, the path
    does not exist, [mkdirSync] throws, and the call ends in a
    file-system error. *)
Theorem ensureOutputDir_fails_below_a_file :
  forall (fs : Fs.directory) (outputDir : string)
         (pre rest : list string) (c : string),
    proper_path outputDir ->
    Path.segments outputDir = (pre ++ rest)%list -> rest <> [] ->
    Fs.walk (Fs.Dir fs) pre = Some (Fs.File c) ->
    Fs.existsSync fs outputDir = false /\
    ensureOutputDir outputDir fs = Err FsError.
Proof.
  intros fs outputDir pre rest c _ Hsegs Hrest Hwalk.
  destruct (walk_through_file pre rest (Fs.Dir fs) c Hwalk Hrest)
    as [Hw Hm].
  assert (Hex : Fs.existsSync fs outputDir = false).
  { unfold Fs.existsSync, Fs.statSync. now rewrite Hsegs, Hw. }
  split; [exact Hex|].
  unfold ensureOutputDir, mkdirSync. now rewrite Hex, Hsegs, Hm.
Qed.

Lemma ensureOutputDir_fails_below_a_file_witness :
  Fs.existsSync sample_work "out/hls" = false /\
  ensureOutputDir "out/hls" sample_work = Err FsError.
Proof.
  apply (ensureOutputDir_fails_below_a_file
           sample_work "out/hls" ["out"] ["hls"] "not a directory").
  - split; [vm_compute; discriminate|]. split; [vm_compute; reflexivity|].
    vm_compute. repeat constructor; discriminate.
  - vm_compute. reflexivity.
  - discriminate.
  - vm_compute. reflexivity.
Defined.

End OutputDirFacts.

(* ================================================================== *)
(** * The records of the storage *)
(* ================================================================== *)

Module VideoInvariants.

Import Video.

(** Every record of the storage is shared. *)
Definition all_shared (st : storage) : Prop :=
  Forall (fun e => snd e = Shared) st.

(** The module keeps every [Video] shared: from a storage whose records
    are all shared, no sequence of calls reaches a storage with a record
    that an address owns or that is frozen. *)
Theorem videos_are_never_owned :
  forall (derive_id : string -> Z -> address) (st st' : storage),
    all_shared st ->
    steps derive_id st st' ->
    all_shared st'.
Proof.
  intros derive_id st st' Hall Hsteps.
  induction Hsteps as [st | st1 st2 st3 Hstep _ IH]; [assumption|].
  destruct Hstep as [ctx t d u st ctx' st' Hsave].
  apply (VideoFacts.save_video_appends derive_id) in Hsave as [v ->].
  apply IH, Forall_app. split; [assumption|]. now constructor.
Qed.

Lemma videos_are_never_owned_witness :
  exists st',
    steps (fun _ n => n) [] st' /\ st' <> [] /\ all_shared st'.
Proof.
  eexists. split; [|split].
  - eapply steps_cons; [|apply steps_refl].
    eapply (step_save_video (fun _ n => n) VideoFacts.sample_ctx
                            "Title" "About" "url" []).
    vm_compute. reflexivity.
  - discriminate.
  - apply (videos_are_never_owned (fun _ n => n) []).
    + constructor.
    + eapply steps_cons; [|apply steps_refl].
      eapply (step_save_video (fun _ n => n) VideoFacts.sample_ctx
                              "Title" "About" "url" []).
      vm_compute. reflexivity.
Defined.

End VideoInvariants.
